(** * Hello Coral: resolution negotiation and coordinate remapping

    A shallow embedding of [main.py] (webcam object detection on a Coral
    TPU): the label table, the capability prober, the scale factors, the
    per-detection remapping and bounds check of [disegna_risultati], and
    the key handling of the session loop.

    Python floats are IEEE 754 binary64 numbers; they are modelled with the
    executable specification of the Standard Library ([SpecFloat], precision
    53, maximal exponent 1024).  Python integers are [Z]. Exceptions are
    explicit: a fallible computation returns an [outcome]. External
    collaborators (OpenCV drawing, the capture device, the inference engine)
    are parameters of the sections that call them. *)

From stdpp Require Import base gmap strings list.
From Stdlib Require Import ZArith NArith QArith Qabs Lia Bool Ascii String.
From Stdlib Require Import Floats.SpecFloat.

#[local] Open Scope Z_scope.

(* ===================================================================== *)
(** * Part I. The model                                                   *)
(* ===================================================================== *)

(** ** Python exceptions and effectful computations *)

Module Py.

(** The exception classes that the modelled code can meet. All of them
    derive from Python's [Exception]. *)
Inductive exn : Type :=
| ValueError           (* int(nan) *)
| OverflowError        (* int(inf) *)
| ZeroDivisionError    (* float division by zero *)
| FileNotFoundError    (* open() on a missing file *)
| OtherError (tag : string).  (* cv2.error, UnicodeDecodeError, ... *)

Inductive outcome (A : Type) : Type :=
| Ret (a : A)
| Raise (e : exn).
Arguments Ret {A} a.
Arguments Raise {A} e.

(** A computation over a mutable world [St]. The world survives an
    exception: what was drawn or set before the [raise] stays done. *)
Definition M (St A : Type) : Type := St -> outcome A * St.

Definition ret {St A} (a : A) : M St A := fun s => (Ret a, s).

Definition raise {St A} (e : exn) : M St A := fun s => (Raise e, s).

Definition bind {St A B} (m : M St A) (k : A -> M St B) : M St B :=
  fun s =>
    match m s with
    | (Ret a, s') => k a s'
    | (Raise e, s') => (Raise e, s')
    end.

(** A pure fallible value used inside a computation. *)
Definition lift {St A} (o : outcome A) : M St A := fun s => (o, s).

(** [try: body / except Exception as e: handler e]. *)
Definition try_except {St A} (body : M St A) (handler : exn -> M St A)
  : M St A :=
  fun s =>
    match body s with
    | (Ret a, s') => (Ret a, s')
    | (Raise e, s') => handler e s'
    end.

End Py.

Import Py.

Declare Scope py_scope.
Delimit Scope py_scope with py.
Notation "'let!' x ':=' m 'in' k" := (bind m (fun x => k))
  (at level 10, x pattern, m at level 100, k at level 200) : py_scope.
Notation "m ';;' k" := (bind m (fun _ => k))
  (at level 100, k at level 200, right associativity) : py_scope.

(** ** Python floats: IEEE 754 binary64 *)

Module F64.

Definition prec : Z := 53.
Definition emax : Z := 1024.

Definition float : Type := spec_float.

(** Conversion of a Python int to a float (round to nearest even). It is
    exact for every [|z| <= 2^53]. For [|z| >= 2^1024] Python raises
    OverflowError where this function gives an infinity; no pixel
    coordinate of the program comes near that range. *)
Definition of_int (z : Z) : float := binary_normalize prec emax z 0 false.

(** [x * y] and [x / y] on floats as NumPy computes them (IEEE 754: a zero
    divisor gives an infinity or a NaN, no exception). *)
Definition mul (x y : float) : float := SFmul prec emax x y.
Definition div (x y : float) : float := SFdiv prec emax x y.
Definition sub (x y : float) : float := SFsub prec emax x y.

(** [x / y] on Python's own floats: a zero divisor raises. *)
Definition py_truediv (x y : float) : outcome float :=
  match y with
  | S754_zero _ => Raise ZeroDivisionError
  | _ => Ret (div x y)
  end.

(** [x > y] on floats (false when either is a NaN). *)
Definition gtb (x y : float) : bool := SFltb y x.

(** [int(x)]: truncation toward zero; ValueError on a NaN and
    OverflowError on an infinity. *)
Definition to_int (x : float) : outcome Z :=
  match x with
  | S754_zero _ => Ret 0
  | S754_nan => Raise ValueError
  | S754_infinity _ => Raise OverflowError
  | S754_finite s m e =>
      let a := match e with
               | Zneg p => Z.shiftr (Zpos m) (Zpos p)
               | _ => Z.shiftl (Zpos m) e
               end in
      Ret (if s then Z.opp a else a)
  end.

(** The real number that a finite float denotes, as a rational. *)
Definition value (x : float) : option Q :=
  match x with
  | S754_zero _ => Some 0%Q
  | S754_finite s m e =>
      let n := if s then Zneg m else Zpos m in
      Some (match e with
            | Zneg p => Qmake n (2 ^ p)%positive
            | _ => Qmake (n * 2 ^ e) 1
            end)
  | _ => None
  end.

Definition is_finite (x : float) : bool :=
  match x with
  | S754_zero _ | S754_finite _ _ _ => true
  | _ => false
  end.

(** Truncation of a rational toward zero. *)
Definition Qtrunc (q : Q) : Z := Z.quot (Qnum q) (Zpos (Qden q)).

(** [vicino x c eps]: [x] is finite and its value is within [eps] of the
    rational [c]. *)
Definition vicino (x : float) (c eps : Q) : bool :=
  match value x with
  | Some q => Qle_bool (Qabs (q - c)) eps
  | None => false
  end.

End F64.

Abbreviation float := F64.float.

(** ** Rounding: where a rational lies between two integers *)

Module Arrotondamento.

(** Where the rational [a / b] lies between two consecutive integers. *)
Definition loc_of (a b : Z) : location :=
  if a mod b =? 0 then loc_Exact else loc_Inexact (2 * (a mod b) ?= b).

(** The record [mrs] holds the integer part of [a / b] and the position
    of [a / b] above it. *)
Definition inb (a b : Z) (mrs : shr_record) : Prop :=
  0 < b /\ 0 <= a /\ shr_m mrs = a / b /\ loc_of_shr_record mrs = loc_of a b.

End Arrotondamento.


(** ** Constants of [main.py] (section 2 of the file) *)

(** [SOGLIA_CONFIDENZA_DEFAULT = 0.7] and [SOGLIA_CONFIDENZA_DEBUG = 0.1]:
    the binary64 numbers that these decimal literals denote. *)
Definition SOGLIA_CONFIDENZA_DEFAULT : float :=
  S754_finite false 6305039478318694 (-53).
Definition SOGLIA_CONFIDENZA_DEBUG : float :=
  S754_finite false 7205759403792794 (-56).

(** ** Label table: [carica_etichette] and the lookup of [disegna_risultati] *)

Module Etichette.

(** A Python [str] is held as its UTF-8 encoding, one [ascii] per byte.

    [str.strip()] removes the code points for which [str.isspace] holds.
    Within ASCII these are tab, line feed, vertical tab, form feed,
    carriage return, the four separators 0x1c-0x1f and the space. *)
Definition is_space (c : ascii) : bool :=
  let n := nat_of_ascii c in
  ((9 <=? n)%nat && (n <=? 13)%nat) || ((28 <=? n)%nat && (n <=? 32)%nat).

(** The white space that UTF-8 writes on two bytes: U+0085 (C2 85) and
    U+00A0 (C2 A0). *)
Definition is_space2 (c1 c2 : ascii) : bool :=
  let n1 := nat_of_ascii c1 in
  let n2 := nat_of_ascii c2 in
  (n1 =? 194)%nat && ((n2 =? 133)%nat || (n2 =? 160)%nat).

(** The white space that UTF-8 writes on three bytes: U+1680 (E1 9A 80),
    U+2000 to U+200A (E2 80 80 to E2 80 8A), U+2028, U+2029 and U+202F
    (E2 80 A8, E2 80 A9, E2 80 AF), U+205F (E2 81 9F) and U+3000
    (E3 80 80). *)
Definition is_space3 (c1 c2 c3 : ascii) : bool :=
  let n1 := nat_of_ascii c1 in
  let n2 := nat_of_ascii c2 in
  let n3 := nat_of_ascii c3 in
  ((n1 =? 225)%nat && (n2 =? 154)%nat && (n3 =? 128)%nat)
  || ((n1 =? 226)%nat && (n2 =? 128)%nat
      && (((128 <=? n3)%nat && (n3 <=? 138)%nat)
          || (n3 =? 168)%nat || (n3 =? 169)%nat || (n3 =? 175)%nat))
  || ((n1 =? 226)%nat && (n2 =? 129)%nat && (n3 =? 159)%nat)
  || ((n1 =? 227)%nat && (n2 =? 128)%nat && (n3 =? 128)%nat).

(** Leading white space is dropped code point by code point. *)
Fixpoint lstrip (s : string) : string :=
  match s with
  | EmptyString => EmptyString
  | String c1 r1 =>
      if is_space c1 then lstrip r1
      else
        match r1 with
        | EmptyString => s
        | String c2 r2 =>
            if is_space2 c1 c2 then lstrip r2
            else
              match r2 with
              | EmptyString => s
              | String c3 r3 => if is_space3 c1 c2 c3 then lstrip r3 else s
              end
        end
  end.

(** A string that is one white-space code point. *)
Definition uno_spazio (s : string) : bool :=
  match s with
  | String c1 EmptyString => is_space c1
  | String c1 (String c2 EmptyString) => is_space2 c1 c2
  | String c1 (String c2 (String c3 EmptyString)) => is_space3 c1 c2 c3
  | _ => false
  end.

(** Trailing white space, from the right: what is left of the tail is
    dropped with the byte in front of it as long as the two make up one
    white-space code point. *)
Fixpoint rstrip (s : string) : string :=
  match s with
  | EmptyString => EmptyString
  | String c r =>
      let t := String c (rstrip r) in
      if uno_spazio t then EmptyString else t
  end.

Definition strip (s : string) : string := rstrip (lstrip s).

(** [for i, line in enumerate(lines): etichette[i] = line.strip()],
    started at index [i] with the dictionary built so far. *)
Fixpoint enumera (i : Z) (lines : list string) (etichette : gmap Z string)
  : gmap Z string :=
  match lines with
  | [] => etichette
  | line :: rest => enumera (i + 1) rest (<[i := strip line]> etichette)
  end.

(** [carica_etichette(path)]. The argument is what opening and reading
    the file gives: its lines, or the exception raised. Both [except]
    branches return [None]. *)
Definition carica_etichette (file : outcome (list string))
  : option (gmap Z string) :=
  match file with
  | Ret lines => Some (enumera 0 lines ∅)
  | Raise _ => None
  end.

(** [etichette.get(key, default)] *)
Definition get (etichette : gmap Z string) (key : Z) (dflt : string)
  : string :=
  default dflt (etichette !! key).

End Etichette.

(** ** Detections and their rendering: [disegna_risultati] *)

Module Disegno.

(** A bounding box with coordinates in [A] (pycoral's [BBox] named
    tuple). *)
Record BBox (A : Type) : Type :=
  mkBBox { xmin : A; ymin : A; xmax : A; ymax : A }.
Arguments mkBBox {A} xmin ymin xmax ymax.
Arguments xmin {A} b.
Arguments ymin {A} b.
Arguments xmax {A} b.
Arguments ymax {A} b.

(** Modelled from the spec: pycoral's [BBox.scale(sx, sy)], a function of
    an external library whose source is not part of the repository: each
    coordinate of the box is multiplied by the factor of its own axis
    ([nativeRect.x = modelRect.x * scaleX], same independently for y,
    applied to both corners). The boxes that [detect.get_objects] returns
    have integer coordinates in model input space. *)
Definition scale (b : BBox Z) (sx sy : float) : BBox float :=
  mkBBox (F64.mul sx (F64.of_int (xmin b)))
         (F64.mul sy (F64.of_int (ymin b)))
         (F64.mul sx (F64.of_int (xmax b)))
         (F64.mul sy (F64.of_int (ymax b))).

(** One detection (pycoral's [Object]). *)
Record Object : Type :=
  mkObject { id : Z; score : float; bbox : BBox Z }.

(** A frame: the NumPy array is known by its identity and its shape
    ([shape[0]] rows, [shape[1]] columns); its pixels change only
    through the OpenCV calls logged in the world. *)
Record ndarray : Type :=
  mkFrame { addr : nat; shape0 : Z; shape1 : Z }.

(** Texts drawn on a frame or printed. The formatting of a float inside
    an f-string is kept symbolic: the constructor holds the float that
    is formatted. *)
Inductive text : Type :=
| etichetta_testo (nome_classe : string) (percent : float)
    (* f"{nome_classe}: {confidenza}%", confidenza = round(percent, 1) *)
| testo_webcam (w h : Z)
| testo_tpu (w h : Z)
| testo_fps (fps : float)
| testo_oggetti (n : nat)
| testo_soglia (soglia : float) (debug_mode : bool)
| errore_disegno (e : exn)        (* "[ERRORE] nel disegno: {e}" *)
| messaggio (s : string).

(** Calls into OpenCV that change a frame or the screen. The font face
    and scale of [putText] are the same constants in every call of the
    source ([FONT_HERSHEY_SIMPLEX], 0.6) and are left out. *)
Inductive cv2_call : Type :=
| rectangle (img : ndarray) (pt1 pt2 : Z * Z) (color : Z * Z * Z)
            (thickness : Z)
| putText (img : ndarray) (t : text) (org : Z * Z) (color : Z * Z * Z)
          (thickness : Z)
| imshow (img : ndarray)
| imwrite (img : ndarray).

(** What has happened in the world, oldest first. *)
Inductive effect : Type :=
| Done (c : cv2_call)
| Printed (t : text).

Definition world : Type := list effect.

Definition print (t : text) : M world unit :=
  fun w => (Ret tt, w ++ [Printed t]).

Section WithOpenCV.

(** OpenCV is an external library: whether a call raises (a
    [cv2.error], say) is the library's business. [cv2_raises w c] is
    the exception that call [c] raises in world [w], if any. *)
Variable cv2_raises : world -> cv2_call -> option exn.

Definition cv2 (c : cv2_call) : M world unit :=
  fun w =>
    match cv2_raises w c with
    | Some e => (Raise e, w)
    | None => (Ret tt, w ++ [Done c])
    end.

(** Steps 1 and 2 of the loop body: scale the box, then convert the
    four coordinates to integer pixels, in the order of the source. *)
Definition pixel_interi (obj : Object) (scale_x scale_y : float)
  : outcome (BBox Z) :=
  let bbox_scalata := scale (bbox obj) scale_x scale_y in
  match F64.to_int (xmin bbox_scalata) with
  | Raise e => Raise e
  | Ret xmin' =>
  match F64.to_int (ymin bbox_scalata) with
  | Raise e => Raise e
  | Ret ymin' =>
  match F64.to_int (xmax bbox_scalata) with
  | Raise e => Raise e
  | Ret xmax' =>
  match F64.to_int (ymax bbox_scalata) with
  | Raise e => Raise e
  | Ret ymax' => Ret (mkBBox xmin' ymin' xmax' ymax')
  end end end end.

(** Step 3, the condition of the [if] that leads to [continue]. *)
Definition fuori_dai_bordi (frame_nativo : ndarray) (b : BBox Z) : bool :=
  (xmin b <? 0) || (ymin b <? 0)
  || (xmax b >? shape1 frame_nativo) || (ymax b >? shape0 frame_nativo).

(** Steps 4 to 6: text, rectangle, text position, label. *)
Definition disegna_box (frame_nativo : ndarray) (obj : Object)
           (etichette : gmap Z string) (b : BBox Z) : M world unit :=
  (let nome_classe := Etichette.get etichette (id obj) "Sconosciuto" in
   let percent := F64.mul (score obj) (F64.of_int 100) in
   let etichetta := etichetta_testo nome_classe percent in
   cv2 (rectangle frame_nativo (xmin b, ymin b) (xmax b, ymax b)
                  (0, 255, 0) 2) ;;
   let y_testo := ymin b - 10 in
   let y_testo := if y_testo <? 10 then ymin b + 20 else y_testo in
   cv2 (putText frame_nativo etichetta (xmin b, y_testo) (0, 255, 0) 2)
  )%py.

(** The body of [for obj in oggetti]. *)
Definition corpo (frame_nativo : ndarray) (etichette : gmap Z string)
           (scale_x scale_y : float) (obj : Object) : M world unit :=
  (let! b := lift (pixel_interi obj scale_x scale_y) in
   if fuori_dai_bordi frame_nativo b
   then ret tt                      (* continue *)
   else disegna_box frame_nativo obj etichette b)%py.

Fixpoint ciclo (frame_nativo : ndarray) (etichette : gmap Z string)
         (scale_x scale_y : float) (oggetti : list Object)
  : M world unit :=
  match oggetti with
  | [] => ret tt
  | obj :: rest =>
      (corpo frame_nativo etichette scale_x scale_y obj ;;
       ciclo frame_nativo etichette scale_x scale_y rest)%py
  end.

(** [disegna_risultati]: the loop inside [try], the handler that
    prints the error, and [return frame_nativo]. *)
Definition disegna_risultati (frame_nativo : ndarray)
           (oggetti : list Object) (etichette : gmap Z string)
           (scale_x scale_y : float) : M world ndarray :=
  (try_except
     (ciclo frame_nativo etichette scale_x scale_y oggetti)
     (fun e => print (errore_disegno e)) ;;
   ret frame_nativo)%py.

End WithOpenCV.

End Disegno.

(** ** Capability prober: [trova_risoluzioni_supportate] *)

Module Prober.

Inductive prop : Type := CAP_PROP_FRAME_WIDTH | CAP_PROP_FRAME_HEIGHT.

(** The capture device ([cv2.VideoCapture]) is an external collaborator:
    a state, a property read that reports a float, and a best-effort
    property write. *)
Class VideoCapture (S : Type) : Type :=
  { cap_get : S -> prop -> float;
    cap_set : S -> prop -> Z -> S }.

Definition risoluzioni_da_testare : list (Z * Z) :=
  [ (640, 480); (800, 600); (1024, 768); (1280, 720); (1920, 1080) ].

(** [(w, h) == r] on tuples of ints. *)
Definition res_eqb (a b : Z * Z) : bool :=
  (fst a =? fst b) && (snd a =? snd b).

(** [r in l] on a list of tuples. *)
Definition res_in (r : Z * Z) (l : list (Z * Z)) : bool :=
  existsb (res_eqb r) l.

Section WithDevice.

Context {S : Type} `{VideoCapture S}.

Definition get (p : prop) : M S float :=
  fun cap => (Ret (cap_get cap p), cap).

Definition set (p : prop) (v : Z) : M S unit :=
  fun cap => (Ret tt, cap_set cap p v).

(** [int(cap.get(p))] *)
Definition get_int (p : prop) : M S Z :=
  (let! x := get p in lift (F64.to_int x))%py.

(** The body of [for w, h in risoluzioni_da_testare]. *)
Definition prova (default_res : Z * Z)
           (risoluzioni_supportate : list (Z * Z)) (wh : Z * Z)
  : M S (list (Z * Z)) :=
  (let '(w, h) := wh in
   if res_eqb (w, h) default_res
   then ret risoluzioni_supportate            (* continue *)
   else
     set CAP_PROP_FRAME_WIDTH w ;;
     set CAP_PROP_FRAME_HEIGHT h ;;
     let! actual_w := get_int CAP_PROP_FRAME_WIDTH in
     let! actual_h := get_int CAP_PROP_FRAME_HEIGHT in
     if (actual_w =? w) && (actual_h =? h)
     then
       if negb (res_in (w, h) risoluzioni_supportate)
       then ret (risoluzioni_supportate ++ [(w, h)])
       else ret risoluzioni_supportate
     else ret risoluzioni_supportate)%py.

Fixpoint testa (default_res : Z * Z) (da_testare : list (Z * Z))
         (risoluzioni_supportate : list (Z * Z)) : M S (list (Z * Z)) :=
  match da_testare with
  | [] => ret risoluzioni_supportate
  | wh :: rest =>
      (let! l := prova default_res risoluzioni_supportate wh in
       testa default_res rest l)%py
  end.

(** [trova_risoluzioni_supportate(cap)]; the two progress messages it
    prints do not touch the device and are left out. *)
Definition trova_risoluzioni_supportate : M S (list (Z * Z)) :=
  (let! default_w := get_int CAP_PROP_FRAME_WIDTH in
   let! default_h := get_int CAP_PROP_FRAME_HEIGHT in
   let default_res := (default_w, default_h) in
   let! risoluzioni_supportate :=
     testa default_res risoluzioni_da_testare [default_res] in
   set CAP_PROP_FRAME_WIDTH default_w ;;
   set CAP_PROP_FRAME_HEIGHT default_h ;;
   ret risoluzioni_supportate)%py.

(** The device states that a run can go through from [s0]. *)
Inductive raggiungibile (s0 : S) : S -> Prop :=
| ragg_inizio : raggiungibile s0 s0
| ragg_set s p v :
    raggiungibile s0 s -> raggiungibile s0 (cap_set s p v).

(** The resolution that the device reports, as the code reads it. *)
Definition legge (s : S) : outcome (Z * Z) :=
  match F64.to_int (cap_get s CAP_PROP_FRAME_WIDTH),
        F64.to_int (cap_get s CAP_PROP_FRAME_HEIGHT) with
  | Ret w, Ret h => Ret (w, h)
  | Raise e, _ => Raise e
  | _, Raise e => Raise e
  end.

(** Requesting [(w, h)] in state [s]: width first, then height. *)
Definition richiede (s : S) (wh : Z * Z) : S :=
  cap_set (cap_set s CAP_PROP_FRAME_WIDTH (fst wh))
          CAP_PROP_FRAME_HEIGHT (snd wh).

(** A resolution was echoed: requested in a state that the run went
    through, it was read back as it was requested. *)
Definition echoed (s0 : S) (r : Z * Z) : Prop :=
  exists s, raggiungibile s0 s /\ legge (richiede s r) = Ret r.

(** [int()] raised [e] on a property read: in a state that the run went
    through the device reported an infinity (OverflowError) or a NaN
    (ValueError). *)
Definition lettura_non_finita (s0 : S) (e : exn) : Prop :=
  (e = OverflowError \/ e = ValueError) /\
  exists s p, raggiungibile s0 s /\ F64.is_finite (cap_get s p) = false.

End WithDevice.

(** *** A concrete device

    A webcam with three modes. A width request is latched; the mode
    changes when the height request completes a pair that the sensor
    has, and stays as it is otherwise. *)
Inductive modo : Type := QVGA | VGA | HD720.

Definition dimensioni (m : modo) : Z * Z :=
  match m with
  | QVGA => (320, 240)
  | VGA => (640, 480)
  | HD720 => (1280, 720)
  end.

Record webcam : Type :=
  mkWebcam { corrente : modo; larghezza_richiesta : Z }.

Definition modo_di (wh : Z * Z) : option modo :=
  if res_eqb wh (320, 240) then Some QVGA
  else if res_eqb wh (640, 480) then Some VGA
  else if res_eqb wh (1280, 720) then Some HD720
  else None.

#[global] Instance webcam_capture : VideoCapture webcam :=
  {| cap_get s p :=
       match p with
       | CAP_PROP_FRAME_WIDTH => F64.of_int (fst (dimensioni (corrente s)))
       | CAP_PROP_FRAME_HEIGHT => F64.of_int (snd (dimensioni (corrente s)))
       end;
     cap_set s p v :=
       match p with
       | CAP_PROP_FRAME_WIDTH => mkWebcam (corrente s) v
       | CAP_PROP_FRAME_HEIGHT =>
           match modo_di (larghezza_richiesta s, v) with
           | Some m => mkWebcam m (larghezza_richiesta s)
           | None => s
           end
       end |}.

End Prober.

(** *** A device that does not go back

    A webcam that starts in a 352x288 mode and accepts requests for
    640x480 and 1280x720 only. A width request is latched; the mode
    changes when the height request completes one of the two pairs, and
    stays as it is otherwise. *)
Module Senza_ritorno.

Import Prober.

Inductive modo : Type := CIF | VGA | HD720.

Definition dimensioni (m : modo) : Z * Z :=
  match m with
  | CIF => (352, 288)
  | VGA => (640, 480)
  | HD720 => (1280, 720)
  end.

Record camera : Type :=
  mkCamera { corrente : modo; larghezza_richiesta : Z }.

Definition modo_di (wh : Z * Z) : option modo :=
  if res_eqb wh (640, 480) then Some VGA
  else if res_eqb wh (1280, 720) then Some HD720
  else None.

#[global] Instance camera_capture : VideoCapture camera :=
  {| cap_get s p :=
       match p with
       | CAP_PROP_FRAME_WIDTH => F64.of_int (fst (dimensioni (corrente s)))
       | CAP_PROP_FRAME_HEIGHT => F64.of_int (snd (dimensioni (corrente s)))
       end;
     cap_set s p v :=
       match p with
       | CAP_PROP_FRAME_WIDTH => mkCamera (corrente s) v
       | CAP_PROP_FRAME_HEIGHT =>
           match modo_di (larghezza_richiesta s, v) with
           | Some m => mkCamera m (larghezza_richiesta s)
           | None => s
           end
       end |}.

End Senza_ritorno.

(** ** The session: scale factors and the frame loop of [main] *)

Module Main.

Import Disegno.

(** Section 4.5 of [main]:
    [scale_x = width_nativo / input_size[0]] and
    [scale_y = height_nativo / input_size[1]], on the integers that the
    device and the interpreter report. The entries of [input_size] are
    NumPy integers, so [/] is the binary64 division of the two converted
    operands. *)
Definition fattori_di_scala (width_nativo height_nativo : Z)
           (input_size : Z * Z) : float * float :=
  (F64.div (F64.of_int width_nativo) (F64.of_int (fst input_size)),
   F64.div (F64.of_int height_nativo) (F64.of_int (snd input_size))).

(** The rectangle that spans a model input of the given size,
    (0,0)-(M.w,M.h). *)
Definition box_intero (input_size : Z * Z) : BBox Z :=
  mkBBox 0 0 (fst input_size) (snd input_size).

(** What is fixed before the loop starts. *)
Record Config : Type :=
  mkConfig { etichette : gmap Z string;
             input_size : Z * Z;
             width_nativo : Z;
             height_nativo : Z;
             scale_x : float;
             scale_y : float }.

(** The variables that live across iterations. *)
Record Sessione : Type :=
  mkSessione { debug_mode : bool; prev_frame_time : float; fps : float }.

(** [debug_mode = False], [prev_frame_time = 0], [fps = 0]. *)
Definition sessione_iniziale : Sessione :=
  mkSessione false (F64.of_int 0) (F64.of_int 0).

(** What the outside world supplies during one iteration. *)
Record Ingressi : Type :=
  mkIngressi
    { aperta : bool;                    (* cap.isOpened() *)
      new_frame_time : float;           (* time.time() *)
      letto : bool;                     (* ret of cap.read() *)
      frame_nativo : ndarray;           (* frame of cap.read() *)
      addr_copia : nat;                 (* where frame_nativo.copy() lives *)
      get_objects : float -> list Object;
        (* detect.get_objects(interpreter, soglia) after the inference on
           this frame *)
      key : Z }.                        (* cv2.waitKey(1) & 0xFF *)

Definition copy (f : ndarray) (a : nat) : ndarray :=
  mkFrame a (shape0 f) (shape1 f).

Inductive esito : Type :=
| Continua (s : Sessione)
| Esce.

(** Step 5: [SOGLIA_CONFIDENZA_DEBUG if debug_mode else
    SOGLIA_CONFIDENZA_DEFAULT]. *)
Definition soglia_attuale (s : Sessione) : float :=
  if debug_mode s then SOGLIA_CONFIDENZA_DEBUG
  else SOGLIA_CONFIDENZA_DEFAULT.

Definition ord_q : Z := 113.
Definition ord_s : Z := 115.
Definition ord_d : Z := 100.


Section WithOpenCV.

Variable cv2_raises : world -> cv2_call -> option exn.

(** Steps 7 and 8: FPS, the status block and its five lines, the
    window. *)
Definition overlay (cfg : Config) (s : Sessione) (i : Ingressi)
           (oggetti : list Object) (frame_con_risultati : ndarray)
  : M world float :=
  (let! fps' :=
     if F64.gtb (prev_frame_time s) (F64.of_int 0)
     then lift (F64.py_truediv (F64.of_int 1)
                  (F64.sub (new_frame_time i) (prev_frame_time s)))
     else ret (fps s) in
   cv2 cv2_raises
     (rectangle frame_con_risultati (0, 0) (450, 110) (0, 0, 0) (-1)) ;;
   cv2 cv2_raises
     (putText frame_con_risultati
        (testo_webcam (width_nativo cfg) (height_nativo cfg))
        (10, 20) (0, 255, 0) 2) ;;
   cv2 cv2_raises
     (putText frame_con_risultati
        (testo_tpu (fst (input_size cfg)) (snd (input_size cfg)))
        (10, 45) (0, 255, 0) 2) ;;
   cv2 cv2_raises
     (putText frame_con_risultati (testo_fps fps')
        (10, 70) (255, 255, 255) 2) ;;
   cv2 cv2_raises
     (putText frame_con_risultati (testo_oggetti (List.length oggetti))
        (150, 70) (255, 255, 255) 2) ;;
   cv2 cv2_raises
     (putText frame_con_risultati
        (testo_soglia (soglia_attuale s) (debug_mode s))
        (10, 95) (0, 255, 255) 2) ;;
   cv2 cv2_raises (imshow frame_con_risultati) ;;
   ret fps')%py.

(** Step 9: the key pressed. *)
Definition gestione_tasti (s : Sessione) (i : Ingressi) (fps' : float)
           (frame_con_risultati : ndarray) : M world esito :=
  (let prev' := new_frame_time i in
   if key i =? ord_q then
     print (messaggio "Tasto 'q' premuto. Chiusura in corso...") ;;
     ret Esce
   else if key i =? ord_s then
     cv2 cv2_raises (imwrite frame_con_risultati) ;;
     print (messaggio "Screenshot salvato") ;;
     ret (Continua (mkSessione (debug_mode s) prev' fps'))
   else if key i =? ord_d then
     let debug_mode' := negb (debug_mode s) in
     print (messaggio (if debug_mode'
                       then "Modalita DEBUG ATTIVATA"
                       else "Modalita DEBUG DISATTIVATA")) ;;
     ret (Continua (mkSessione debug_mode' prev' fps'))
   else
     ret (Continua (mkSessione (debug_mode s) prev' fps')))%py.

(** One pass through the body of [while cap.isOpened()]. Colour
    conversion, resizing and the inference itself do not touch the
    session variables; what they produce is the list that
    [get_objects] returns for the threshold in force. *)
Definition iterazione (cfg : Config) (s : Sessione) (i : Ingressi)
  : M world esito :=
  (if negb (letto i) then
     print (messaggio
              "Errore: Impossibile leggere il frame dalla webcam.") ;;
     ret Esce
   else
     let oggetti := get_objects i (soglia_attuale s) in
     let! frame_con_risultati :=
       disegna_risultati cv2_raises
         (copy (frame_nativo i) (addr_copia i)) oggetti
         (etichette cfg) (scale_x cfg) (scale_y cfg) in
     let! fps' := overlay cfg s i oggetti frame_con_risultati in
     gestione_tasti s i fps' frame_con_risultati)%py.

(** The loop, run on the inputs of successive iterations; it returns
    the session variables at the point where it stops. *)
Fixpoint ciclo_principale (cfg : Config) (s : Sessione)
         (ingressi : list Ingressi) : M world Sessione :=
  match ingressi with
  | [] => ret s
  | i :: rest =>
      if negb (aperta i) then ret s
      else
        (let! e := iterazione cfg s i in
         match e with
         | Esce => ret s
         | Continua s' => ciclo_principale cfg s' rest
         end)%py
  end.

End WithOpenCV.

End Main.

(** ** Concrete inputs used in the examples *)

Module Esempi.

Import Disegno.

(** An OpenCV in which no call fails. *)
Definition opencv_affidabile : world -> cv2_call -> option exn :=
  fun _ _ => None.

(** A 160x120 camera in front of the 300x300 model. *)
Definition frame_160x120 : ndarray := mkFrame 0 120 160.
Definition scala_160x120 : float * float :=
  Main.fattori_di_scala 160 120 (300, 300).

(** A detection that overflows the model square by one pixel on every
    side. *)
Definition oggetto_debordante : Object :=
  mkObject 0 SOGLIA_CONFIDENZA_DEFAULT (mkBBox (-1) (-1) 301 301).

(** A 1280x720 camera in front of the 300x300 model. *)
Definition frame_1280x720 : ndarray := mkFrame 0 720 1280.
Definition scala_1280x720 : float * float :=
  Main.fattori_di_scala 1280 720 (300, 300).

(** The detection box of the scenario, (20,10)-(60,50). *)
Definition oggetto_scenario : Object :=
  mkObject 0 SOGLIA_CONFIDENZA_DEFAULT (mkBBox 20 10 60 50).

(** A 5-megapixel frame and the detection that fills the model square. *)
Definition frame_2592x1944 : ndarray := mkFrame 0 1944 2592.
Definition oggetto_intero : Object :=
  mkObject 0 SOGLIA_CONFIDENZA_DEFAULT (Main.box_intero (300, 300)).

(** A second detection of the 1280x720 scenario, of class 1. *)
Definition oggetto_secondo : Object :=
  mkObject 1 SOGLIA_CONFIDENZA_DEFAULT (mkBBox 100 100 200 200).

(** An OpenCV whose first call fails: nothing has been drawn or printed
    yet. *)
Definition opencv_primo_fallisce : world -> cv2_call -> option exn :=
  fun w _ =>
    match w with
    | [] => Some (OtherError "cv2.error")
    | _ => None
    end.

(** A detection whose left edge is beyond the range of binary64. *)
Definition oggetto_smisurato : Object :=
  mkObject 0 SOGLIA_CONFIDENZA_DEFAULT (mkBBox (10 ^ 308) 10 60 50).

Definition due_etichette : gmap Z string :=
  Etichette.enumera 0 ["person"; "bicycle"] ∅.

(** A line of a label file: a tab, "person", a no-break space (U+00A0,
    the bytes C2 A0), an em space (U+2003, the bytes E2 80 83) and the
    line feed. *)
Definition riga_con_spazi : string :=
  String (ascii_of_nat 9)
    (String.append "person"
       (String (ascii_of_nat 194) (String (ascii_of_nat 160)
          (String (ascii_of_nat 226) (String (ascii_of_nat 128)
             (String (ascii_of_nat 131)
                (String (ascii_of_nat 10) EmptyString))))))).

(** A 5-megapixel camera (2592x1944) in front of the 300x300 model, and
    a 640x480 camera in front of a 416x416 model. *)
Definition scala_2592x1944 : float * float :=
  Main.fattori_di_scala 2592 1944 (300, 300).
Definition scala_640x480_su_416 : float * float :=
  Main.fattori_di_scala 640 480 (416, 416).

(** A session on the 1280x720 camera and one iteration of it: a frame
    read at time 2.0 in which the engine reports the scenario box at
    either threshold, and no key pressed ([waitKey] gives -1, masked to
    255). *)
Definition config_1280x720 : Main.Config :=
  Main.mkConfig due_etichette (300, 300) 1280 720
                (fst scala_1280x720) (snd scala_1280x720).


End Esempi.

(** ** Notions about strings used to describe the label table *)

Module Testo.

(** The first and the last character of a string. *)
Definition primo (s : string) : option ascii :=
  match s with
  | EmptyString => None
  | String c _ => Some c
  end.

Fixpoint ultimo (s : string) : option ascii :=
  match s with
  | EmptyString => None
  | String c EmptyString => Some c
  | String _ r => ultimo r
  end.

(** CPython's [Py_UNICODE_ISSPACE]: the code points that [str.isspace]
    accepts and [str.strip()] removes. *)
Definition Py_UNICODE_ISSPACE (ch : N) : bool :=
  (((9 <=? ch) && (ch <=? 13)) || ((28 <=? ch) && (ch <=? 32))
   || (ch =? 133) || (ch =? 160) || (ch =? 5760)
   || ((8192 <=? ch) && (ch <=? 8202))
   || (ch =? 8232) || (ch =? 8233) || (ch =? 8239) || (ch =? 8287)
   || (ch =? 12288))%N.

(** The UTF-8 encoding of a code point. *)
Definition utf8 (ch : N) : string :=
  (if ch <? 128 then String (ascii_of_N ch) EmptyString
   else if ch <? 2048 then
     String (ascii_of_N (192 + ch / 64))
       (String (ascii_of_N (128 + ch mod 64)) EmptyString)
   else if ch <? 65536 then
     String (ascii_of_N (224 + ch / 4096))
       (String (ascii_of_N (128 + (ch / 64) mod 64))
          (String (ascii_of_N (128 + ch mod 64)) EmptyString))
   else
     String (ascii_of_N (240 + ch / 262144))
       (String (ascii_of_N (128 + (ch / 4096) mod 64))
          (String (ascii_of_N (128 + (ch / 64) mod 64))
             (String (ascii_of_N (128 + ch mod 64)) EmptyString))))%N.

(** The encoding of one white-space code point. *)
Definition spazio (u : string) : Prop :=
  exists ch : N, Py_UNICODE_ISSPACE ch = true /\ u = utf8 ch.

(** A string made of white-space code points only. *)
Inductive spazi : string -> Prop :=
| spazi_vuota : spazi EmptyString
| spazi_cons (u s : string) :
    spazio u -> spazi s -> spazi (String.append u s).

(** A string that starts, or ends, with a white-space code point. *)
Definition inizia_con_spazio (v : string) : Prop :=
  exists u r, spazio u /\ v = String.append u r.
Definition finisce_con_spazio (v : string) : Prop :=
  exists u r, spazio u /\ v = String.append r u.

End Testo.

(** ** Notions used to describe what [disegna_risultati] draws *)

Module Resa.

Import Disegno.

(** The two OpenCV calls that render a detection whose integer box is
    [b]: the rectangle and the label. *)
Definition disegni (f : ndarray) (et : gmap Z string) (obj : Object)
           (b : BBox Z) : list effect :=
  [ Done (rectangle f (xmin b, ymin b) (xmax b, ymax b) (0, 255, 0) 2);
    Done (putText f
            (etichetta_testo (Etichette.get et (id obj) "Sconosciuto")
               (F64.mul (score obj) (F64.of_int 100)))
            (xmin b, if ymin b - 10 <? 10 then ymin b + 20 else ymin b - 10)
            (0, 255, 0) 2) ].

(** The pixel at which a model coordinate [c] is expected under the
    factor [s]: the binary64 product of the two, truncated toward zero
    (and 0 when the product is not a finite number). *)
Definition pixel_atteso (c : Z) (s : float) : Z :=
  match F64.value (F64.mul s (F64.of_int c)) with
  | Some q => F64.Qtrunc q
  | None => 0
  end.

Definition riquadro_atteso (obj : Object) (sx sy : float) : BBox Z :=
  mkBBox (pixel_atteso (xmin (bbox obj)) sx)
         (pixel_atteso (ymin (bbox obj)) sy)
         (pixel_atteso (xmax (bbox obj)) sx)
         (pixel_atteso (ymax (bbox obj)) sy).

(** What a detection is expected to leave on the frame, written without
    the functions of the loop body: its rectangle and its label when the
    first corner of its expected box has no negative coordinate and the
    second corner is not beyond the width and the height of the frame,
    nothing otherwise. *)
Definition resa (f : ndarray) (et : gmap Z string) (sx sy : float)
           (obj : Object) : list effect :=
  let b := riquadro_atteso obj sx sy in
  if bool_decide (0 <= xmin b /\ 0 <= ymin b /\
                  xmax b <= shape1 f /\ ymax b <= shape0 f)
  then disegni f et obj b
  else [].

(** The effects that [disegna_risultati] may add to the world for frame
    [f]: a green rectangle of thickness 2 on [f] whose first corner has
    no negative coordinate and whose second corner is not beyond
    (width, height); a green class label on [f] at a non-negative
    abscissa and at an ordinate of at least 10; the message of the error
    handler. Nothing bounds the first corner from above or the second
    from below: the check of the source does not. *)
Definition effetto_ammesso (f : ndarray) (e : effect) : Prop :=
  match e with
  | Done (rectangle img (x0, y0) (x1, y1) color thickness) =>
      img = f /\ 0 <= x0 /\ 0 <= y0 /\ x1 <= shape1 f /\ y1 <= shape0 f /\
      color = (0, 255, 0) /\ thickness = 2
  | Done (putText img (etichetta_testo _ _) (x, y) color thickness) =>
      img = f /\ 0 <= x /\ 10 <= y /\ color = (0, 255, 0) /\ thickness = 2
  | Printed (errore_disegno _) => True
  | _ => False
  end.

(** A detection whose coordinates are integers of fewer than 54 bits. *)
Definition coordinate_limitate (obj : Object) : Prop :=
  Z.abs (xmin (bbox obj)) < 2 ^ 53 /\ Z.abs (ymin (bbox obj)) < 2 ^ 53 /\
  Z.abs (xmax (bbox obj)) < 2 ^ 53 /\ Z.abs (ymax (bbox obj)) < 2 ^ 53.

End Resa.

(** ** A second concrete device: a camera with one fixed mode *)

Module Fissa.

Import Prober.

(** A 640x480 camera that ignores every request. *)
Inductive camera_fissa : Type := VGA_fissa.

#[global] Instance camera_fissa_capture : VideoCapture camera_fissa :=
  {| cap_get _ p :=
       match p with
       | CAP_PROP_FRAME_WIDTH => F64.of_int 640
       | CAP_PROP_FRAME_HEIGHT => F64.of_int 480
       end;
     cap_set s _ _ := s |}.

End Fissa.

(** ** Resolution selector: [chiedi_risoluzione_utente] *)

Module Selettore.

(** What a call of [input()] gives. *)
Inductive risposta : Type :=
| Riga (s : string)     (* the line typed, without its newline *)
| Interruzione          (* KeyboardInterrupt *)
| Fine_ingresso.        (* EOFError: the standard input is closed *)

(** How the function ends. *)
Inductive selezione : Type :=
| Scelta (r : Z * Z)    (* a resolution is returned *)
| Nessuna               (* [None] is returned *)
| Solleva (e : exn)     (* an exception leaves the function *)
| In_attesa.            (* the answers ran out: still at the prompt *)

Definition EOFError : exn := OtherError "EOFError".
Definition IndexError : exn := OtherError "IndexError".

Section WithInt.

(** [int(s)] on a string is Python's own parser: [None] stands for
    ValueError. *)
Variable int_str : string -> option Z.

(** The [while True] loop, run on the answers that the user gives one
    after the other; the answers not consumed are returned too. The
    messages printed are left out. *)
Fixpoint chiedi_ciclo (risoluzioni : list (Z * Z)) (default_res : Z * Z)
         (risposte : list risposta) : selezione * list risposta :=
  match risposte with
  | [] => (In_attesa, [])
  | Interruzione :: rest => (Nessuna, rest)
  | Fine_ingresso :: rest => (Solleva EOFError, rest)
  | Riga scelta_str :: rest =>
      if String.eqb scelta_str "" then (Scelta default_res, rest)
      else
        match int_str scelta_str with
        | None => chiedi_ciclo risoluzioni default_res rest
        | Some scelta_int =>
            if (1 <=? scelta_int)
               && (scelta_int <=? Z.of_nat (List.length risoluzioni))
            then
              match risoluzioni !! Z.to_nat (scelta_int - 1) with
              | Some r => (Scelta r, rest)
              | None => (Solleva IndexError, rest)
              end
            else chiedi_ciclo risoluzioni default_res rest
        end
  end.

(** [chiedi_risoluzione_utente(risoluzioni)] *)
Definition chiedi_risoluzione_utente (risoluzioni : list (Z * Z))
           (risposte : list risposta) : selezione * list risposta :=
  match risoluzioni with
  | [] => (Nessuna, risposte)
  | [r] => (Scelta r, risposte)
  | default_res :: _ => chiedi_ciclo risoluzioni default_res risposte
  end.

End WithInt.

(** A parser for the witnesses: plain ASCII decimal digits, which
    Python's [int] reads the same way. *)
Definition cifra (c : ascii) : option Z :=
  let n := Z.of_nat (nat_of_ascii c) in
  if (48 <=? n) && (n <=? 57) then Some (n - 48) else None.

Fixpoint int_cifre (acc : Z) (s : string) : option Z :=
  match s with
  | EmptyString => Some acc
  | String c r =>
      match cifra c with
      | Some d => int_cifre (10 * acc + d) r
      | None => None
      end
  end.

Definition int_decimale (s : string) : option Z :=
  match s with
  | EmptyString => None
  | _ => int_cifre 0 s
  end.

End Selettore.

(** ** Runs of the frame loop used in the examples *)

Module Corsa.

(** An iteration of the 1280x720 session at the clock reading [t]
    (seconds), with key [k] pressed. *)
Definition al_tempo (t k : Z) : Main.Ingressi :=
  Main.mkIngressi true (F64.of_int t) true Esempi.frame_1280x720 1
                  (fun _ => [Esempi.oggetto_scenario]) k.

(** 'd', no key, 'd'. *)
Definition tre_iterazioni : list Main.Ingressi :=
  [al_tempo 2 Main.ord_d; al_tempo 3 255; al_tempo 4 Main.ord_d].

End Corsa.

(** ** The program: [main] *)

Module Avvio.

Import Disegno Prober Selettore Main.

Definition PATH_MODELLO : string :=
  "modelli/mobilenet_ssd_v2_coco_quant_postprocess_edgetpu.tflite".
Definition PATH_ETICHETTE : string := "modelli/coco_labels.txt".

(** [check_prerequisiti()]. [esiste] is [os.path.exists]; the messages
    printed when a file is missing are left out. *)
Definition check_prerequisiti (esiste : string -> bool) : bool :=
  if negb (esiste PATH_MODELLO) then false
  else if negb (esiste PATH_ETICHETTE) then false
  else true.

(** What the outside world supplies to one run of [main]. *)
Record Ambiente (S : Type) : Type :=
  mkAmbiente
    { esiste : string -> bool;                 (* os.path.exists *)
      file_etichette : outcome (list string);
        (* opening PATH_ETICHETTE and reading its lines *)
      interprete : option exn;
        (* what make_interpreter(PATH_MODELLO) or allocate_tensors()
           raises inside the try of lines 346-356, if anything *)
      input_size_modello : outcome (Z * Z);
        (* common.input_size(interpreter), line 359, outside that try *)
      camera : S;                              (* cv2.VideoCapture(0) *)
      camera_aperta : bool;                    (* cap.isOpened(), line 366 *)
      risposte : list risposta;                (* what is typed at the menu *)
      ingressi : list Ingressi }.              (* the iterations of the loop *)
Arguments mkAmbiente {S}.
Arguments esiste {S}.
Arguments file_etichette {S}.
Arguments interprete {S}.
Arguments input_size_modello {S}.
Arguments camera {S}.
Arguments camera_aperta {S}.
Arguments risposte {S}.
Arguments ingressi {S}.

(** What a run leaves behind: the capture object, once it was created,
    with the state of its device; what OpenCV drew and what the loop
    printed; whether [cap.release()] and [cv2.destroyAllWindows()] were
    called. *)
Record Traccia (S : Type) : Type :=
  mkTraccia
    { cap : option S;
      mondo : world;
      rilasciata : bool;
      finestre_distrutte : bool }.
Arguments mkTraccia {S}.
Arguments cap {S}.
Arguments mondo {S}.
Arguments rilasciata {S}.
Arguments finestre_distrutte {S}.

(** How a run stands when its inputs are used up: [main] has returned,
    or it is waiting at the prompt of the menu. *)
Inductive fine : Type := Terminato | In_attesa_di_risposta.

Section WithEnvironment.

Context {S : Type} `{VideoCapture S}.

Variable cv2_raises : world -> cv2_call -> option exn.
Variable int_str : string -> option Z.

(** Lines 380-394: request the chosen resolution, read back the one in
    force, compute the scale factors from it. *)
Definition configura (etichette : gmap Z string) (input_size : Z * Z)
           (risoluzione_scelta : Z * Z) : M S Config :=
  (let '(w_scelto, h_scelto) := risoluzione_scelta in
   set CAP_PROP_FRAME_WIDTH w_scelto ;;
   set CAP_PROP_FRAME_HEIGHT h_scelto ;;
   let! width_nativo := get_int CAP_PROP_FRAME_WIDTH in
   let! height_nativo := get_int CAP_PROP_FRAME_HEIGHT in
   let '(scale_x, scale_y) :=
     fattori_di_scala width_nativo height_nativo input_size in
   ret (mkConfig etichette input_size width_nativo height_nativo
                 scale_x scale_y))%py.

(** [main()]. The banner and the progress messages that [main] prints
    itself are left out; an exception that no handler of [main] catches
    ends the run where it is raised: the one of [common.input_size],
    which is called after the [try] that loads the interpreter, and the
    ones of the prober, the prompt, the reading of the resolution and
    the loop. The loop ends when [cap.isOpened()]
    is false: at an iteration whose [aperta] is false, or at the end of
    the list. *)
Definition main (amb : Ambiente S) : outcome fine * Traccia S :=
  let prima := mkTraccia None [] false false in
  if negb (check_prerequisiti (esiste amb)) then (Ret Terminato, prima)
  else
    match Etichette.carica_etichette (file_etichette amb) with
    | None => (Ret Terminato, prima)
    | Some etichette =>
    match interprete amb with
    | Some _ => (Ret Terminato, prima)
    | None =>
    match input_size_modello amb with
    | Raise e => (Raise e, prima)
    | Ret input_size =>
    if negb (camera_aperta amb)
    then (Ret Terminato, mkTraccia (Some (camera amb)) [] false false)
    else
    match trova_risoluzioni_supportate (camera amb) with
    | (Raise e, c) => (Raise e, mkTraccia (Some c) [] false false)
    | (Ret risoluzioni_trovate, c) =>
    match fst (chiedi_risoluzione_utente int_str risoluzioni_trovate
                 (risposte amb)) with
    | Nessuna => (Ret Terminato, mkTraccia (Some c) [] true false)
    | Solleva e => (Raise e, mkTraccia (Some c) [] false false)
    | In_attesa =>
        (Ret In_attesa_di_risposta, mkTraccia (Some c) [] false false)
    | Scelta risoluzione_scelta =>
    match configura etichette input_size risoluzione_scelta c with
    | (Raise e, c) => (Raise e, mkTraccia (Some c) [] false false)
    | (Ret cfg, c) =>
    match ciclo_principale cv2_raises cfg sessione_iniziale
            (ingressi amb) [] with
    | (Raise e, w) => (Raise e, mkTraccia (Some c) w false false)
    | (Ret _, w) => (Ret Terminato, mkTraccia (Some c) w true true)
    end end end end end end end.

End WithEnvironment.

(** The text that shows the resolution in the status block carries
    [wh]. *)
Definition mostra_risoluzione (wh : Z * Z) (e : effect) : Prop :=
  match e with
  | Done (putText _ (testo_webcam w h) _ _ _) => (w, h) = wh
  | _ => True
  end.

End Avvio.

(** A run of the program on the three-mode webcam: every file is in
    place, the model takes 300x300 inputs, the user picks entry 2 of the
    menu, and the loop runs [tre_iterazioni]. *)
Module Programma.

Definition ambiente_esempio : Avvio.Ambiente Prober.webcam :=
  Avvio.mkAmbiente (fun _ => true) (Ret ["person"; "bicycle"])
                   None (Ret (300, 300)) (Prober.mkWebcam Prober.QVGA 0) true
                   [Selettore.Riga "2"] Corsa.tre_iterazioni.

End Programma.

(** ** The set-up script *)

Module Setup.

Definition NOME_CARTELLA_MODELLI : string := "modelli".
Definition NOME_FILE_REQS : string := "requirements.txt".
Definition URL_MODELLO : string :=
  "https://dl.google.com/coral/canned_models/mobilenet_ssd_v2_coco_quant_postprocess_edgetpu.tflite".
Definition NOME_FILE_MODELLO : string :=
  "mobilenet_ssd_v2_coco_quant_postprocess_edgetpu.tflite".
Definition URL_ETICHETTE : string :=
  "https://raw.githubusercontent.com/google-coral/test_data/master/coco_labels.txt".
Definition NOME_FILE_ETICHETTE : string := "coco_labels.txt".

(** The attributes of the module [sys] that [check_venv] looks at;
    [None] where [hasattr] is false. *)
Record Sys : Type :=
  mkSys { real_prefix : option string;
          base_prefix : option string;
          prefix : string }.

(** [check_venv()] *)
Definition check_venv (sys : Sys) : bool :=
  match real_prefix sys with
  | Some _ => true
  | None =>
      match base_prefix sys with
      | Some b => negb (String.eqb b (prefix sys))
      | None => false
      end
  end.

(** [os.path.join(a, b)] with the separator of POSIX, the one that the
    paths of the main program are written with. *)
Definition join (a b : string) : string :=
  if bool_decide (Testo.primo b = Some "/"%char) then b
  else if String.eqb a "" || bool_decide (Testo.ultimo a = Some "/"%char)
       then String.append a b
       else String.append a (String.append "/" b).

(** What the script does to the outside world. *)
Inductive azione : Type :=
| Pip                                   (* python -m pip install -r ... *)
| Makedirs (d : string)                 (* os.makedirs(d) *)
| Urlretrieve (url path : string).      (* urllib.request.urlretrieve *)

(** The paths that exist, and what was done so far, oldest first. *)
Record Disco : Type :=
  mkDisco { presenti : gset string; azioni : list azione }.

(** [os.path.exists(p)] *)
Definition esiste (p : string) : M Disco bool :=
  fun d => (Ret (bool_decide (p ∈ presenti d)), d).

(** How a download ends: the file is written, or an exception is raised,
    after which a partial file may have been left at the target. *)
Inductive scaricamento : Type :=
| Riuscito
| Fallito (e : exn) (parziale : bool).

Definition CalledProcessError : exn := OtherError "CalledProcessError".

(** How the script ends: it runs to its last line, or [sys.exit(code)]. *)
Inductive uscita : Type := Completato | Exit (code : Z).

Section WithWorld.

(** The network, the package installer and the file system are external:
    [rete url] is how the download of [url] ends, [pip] how
    [subprocess.run] ends (its standard output, or what it raises),
    [makedirs_raises d] the exception of [os.makedirs(d)], if any. *)
Variable rete : string -> scaricamento.
Variable pip : outcome string.
Variable makedirs_raises : string -> option exn.

Definition makedirs (d : string) : M Disco unit :=
  fun disco =>
    let fatte := azioni disco ++ [Makedirs d] in
    match makedirs_raises d with
    | Some e => (Raise e, mkDisco (presenti disco) fatte)
    | None => (Ret tt, mkDisco ({[ d ]} ∪ presenti disco) fatte)
    end.

Definition urlretrieve (url path : string) : M Disco unit :=
  fun disco =>
    let fatte := azioni disco ++ [Urlretrieve url path] in
    match rete url with
    | Riuscito => (Ret tt, mkDisco ({[ path ]} ∪ presenti disco) fatte)
    | Fallito e parziale =>
        (Raise e,
         mkDisco (if parziale then {[ path ]} ∪ presenti disco
                  else presenti disco) fatte)
    end.

Definition subprocess_run : M Disco string :=
  fun disco => (pip, mkDisco (presenti disco) (azioni disco ++ [Pip])).

(** [installa_dipendenze()]; only [CalledProcessError] and
    [FileNotFoundError] are handled. The messages are left out. *)
Definition installa_dipendenze : M Disco bool :=
  (let! c'e := esiste NOME_FILE_REQS in
   if negb c'e then ret false
   else
     try_except
       (let! result := subprocess_run in ret true)
       (fun e =>
          match e with
          | FileNotFoundError => ret false
          | OtherError tag =>
              if String.eqb tag "CalledProcessError" then ret false
              else raise e
          | _ => raise e
          end))%py.

(** [scarica_file_modello()]. The messages are left out. *)
Definition scarica_file_modello : M Disco bool :=
  (let! c'e := esiste NOME_CARTELLA_MODELLI in
   (if negb c'e then makedirs NOME_CARTELLA_MODELLI else ret tt) ;;
   let path_modello := join NOME_CARTELLA_MODELLI NOME_FILE_MODELLO in
   let path_etichette := join NOME_CARTELLA_MODELLI NOME_FILE_ETICHETTE in
   let successo := true in
   let! c'e := esiste path_modello in
   let! successo :=
     if negb c'e
     then try_except (urlretrieve URL_MODELLO path_modello ;; ret successo)
                     (fun _ => ret false)
     else ret successo in
   let! c'e := esiste path_etichette in
   let! successo :=
     if negb c'e
     then try_except (urlretrieve URL_ETICHETTE path_etichette ;;
                      ret successo)
                     (fun _ => ret false)
     else ret successo in
   ret successo)%py.

(** [main()] of the script. *)
Definition main (sys : Sys) : M Disco uscita :=
  (if negb (check_venv sys) then ret (Exit 1)
   else
     let! ok := installa_dipendenze in
     if negb ok then ret (Exit 1)
     else
       let! ok := scarica_file_modello in
       if negb ok then ret (Exit 1)
       else ret Completato)%py.

End WithWorld.

(** An interpreter inside a virtual environment, a network on which
    every download succeeds, and a directory that holds only
    [requirements.txt]. *)
Definition sys_venv : Sys :=
  mkSys None (Some "/usr") "/home/utente/venv".
Definition rete_buona : string -> scaricamento := fun _ => Riuscito.
Definition disco_iniziale : Disco := mkDisco {[ NOME_FILE_REQS ]} [].

End Setup.

(* ===================================================================== *)
(** * Part II. Properties                                                 *)
(* ===================================================================== *)

(** ** Truncation and the value of a float *)

Section Truncation.

Import F64.

Lemma to_int_finite (x : float) :
  is_finite x = true -> exists z, to_int x = Ret z.
Proof.
  destruct x as [s | s | | s m e]; simpl; intros Hx; try discriminate;
    eauto.
Qed.

Lemma value_finite (x : float) :
  is_finite x = true -> exists q, value x = Some q.
Proof.
  destruct x as [s | s | | s m e]; simpl; intros Hx; try discriminate;
    eauto.
Qed.

Lemma value_is_finite (x : float) (q : Q) :
  value x = Some q -> is_finite x = true.
Proof. destruct x; simpl; intros Hx; congruence. Qed.

(** [int(x)] is the truncation toward zero of the number that [x]
    denotes. *)
Lemma to_int_value (x : float) (q : Q) :
  value x = Some q -> to_int x = Ret (Qtrunc q).
Proof.
  destruct x as [s | s | | s m e]; simpl; intros Hx; try discriminate.
  - injection Hx as <-. reflexivity.
  - injection Hx as <-. f_equal. unfold Qtrunc.
    destruct e as [| p | p]; simpl Qnum; simpl Qden.
    + rewrite Z.quot_1_r, Z.shiftl_0_r. destruct s; lia.
    + rewrite Z.quot_1_r, Z.shiftl_mul_pow2 by lia.
      destruct s; lia.
    + rewrite Z.shiftr_div_pow2 by lia.
      rewrite Pos2Z.inj_pow.
      assert (Hp : 0 < 2 ^ Z.pos p) by (apply Z.pow_pos_nonneg; lia).
      destruct s.
      * change (Z.neg m) with (- Z.pos m).
        rewrite Z.quot_opp_l by lia.
        rewrite Z.quot_div_nonneg by lia. reflexivity.
      * rewrite Z.quot_div_nonneg by lia. reflexivity.
  Qed.

Lemma Qtrunc_nonneg_iff (q : Q) : 0 <= Qtrunc q <-> (-1 < q)%Q.
Proof.
  destruct q as [n d]. unfold Qtrunc, Qlt. simpl.
  split; intros Hq.
  - destruct (Z.lt_ge_cases (- Z.pos d) n) as [Hlt | Hge]; [lia |].
    exfalso.
    assert (Hn : n = - (- n)) by lia. rewrite Hn in Hq.
    rewrite Z.quot_opp_l in Hq by lia.
    assert (1 <= - n ÷ Z.pos d).
    { rewrite Z.quot_div_nonneg by lia.
      apply Z.div_le_lower_bound; lia. }
    lia.
  - destruct (Z.lt_ge_cases n 0) as [Hneg | Hpos].
    + assert (Hn : n = - (- n)) by lia. rewrite Hn.
      rewrite Z.quot_opp_l by lia.
      rewrite Z.quot_small by lia. lia.
    + apply Z.quot_pos; lia.
Qed.

Lemma Qtrunc_le_iff (q : Q) (b : Z) :
  0 <= b -> Qtrunc q <= b <-> (q < inject_Z (b + 1))%Q.
Proof.
  intros Hb. destruct q as [n d]. unfold Qtrunc, Qlt, inject_Z. simpl.
  destruct (Z.lt_ge_cases n 0) as [Hneg | Hpos].
  - split; intros _; [nia |].
    assert (Hn : n = - (- n)) by lia. rewrite Hn.
    rewrite Z.quot_opp_l by lia.
    assert (0 <= - n ÷ Z.pos d) by (apply Z.quot_pos; lia). lia.
  - rewrite Z.quot_div_nonneg by lia.
    split; intros Hq.
    + assert (n < Z.pos d * (n / Z.pos d + 1)).
      { pose proof (Z.mod_pos_bound n (Z.pos d) ltac:(lia)).
        pose proof (Z.div_mod n (Z.pos d) ltac:(lia)). nia. }
      nia.
    + apply Z.lt_succ_r. apply Z.div_lt_upper_bound; lia.
Qed.

(** A value strictly between -1 and 0 truncates to 0. *)
Lemma Qtrunc_neg_fraction (q : Q) : (-1 < q)%Q -> (q < 0)%Q -> Qtrunc q = 0.
Proof.
  destruct q as [n d]. unfold Qtrunc, Qlt. simpl. intros H1 H0.
  assert (Hn : n = - (- n)) by lia. rewrite Hn.
  rewrite Z.quot_opp_l by lia.
  rewrite Z.quot_small by lia. reflexivity.
Qed.

(** A value in [[b, b+1)], for a bound [b >= 0], truncates to [b]. *)
Lemma Qtrunc_bound (q : Q) (b : Z) :
  0 <= b -> (inject_Z b <= q)%Q -> (q < inject_Z (b + 1))%Q ->
  Qtrunc q = b.
Proof.
  intros Hb. destruct q as [n d]. unfold Qtrunc, Qlt, Qle, inject_Z. simpl.
  intros H1 H2.
  rewrite Z.quot_div_nonneg by nia.
  symmetry. apply Z.div_unique with (r := n - b * Z.pos d); lia.
Qed.

End Truncation.

(** ** Binary64 arithmetic: conversion, division and multiplication

    The operations of [SpecFloat] round to nearest, ties to even. This
    part proves what that rounding guarantees for the operands that the
    program has: integers of fewer than 54 bits and their quotients. *)

Import Arrotondamento.

Section Digits.

(** The number of binary digits of a positive number. *)
Lemma digits2_pos_bounds (m : positive) :
  2 ^ (Z.pos (digits2_pos m) - 1) <= Z.pos m < 2 ^ Z.pos (digits2_pos m).
Proof.
  induction m as [m IH | m IH |]; simpl digits2_pos.
  - rewrite Pos2Z.inj_succ.
    replace (Z.succ (Z.pos (digits2_pos m)) - 1)
      with (Z.succ (Z.pos (digits2_pos m) - 1)) by lia.
    rewrite !Z.pow_succ_r by lia. lia.
  - rewrite Pos2Z.inj_succ.
    replace (Z.succ (Z.pos (digits2_pos m)) - 1)
      with (Z.succ (Z.pos (digits2_pos m) - 1)) by lia.
    rewrite !Z.pow_succ_r by lia. lia.
  - simpl. lia.
Qed.

Lemma digits2_pos_unique (m : positive) (d : Z) :
  2 ^ (d - 1) <= Z.pos m < 2 ^ d -> Z.pos (digits2_pos m) = d.
Proof.
  intros [Hlo Hhi]. pose proof (digits2_pos_bounds m) as [Hlo' Hhi'].
  assert (Hd : 0 < d).
  { destruct d as [| p | p]; [simpl in Hhi; lia | lia |].
    rewrite Z.pow_neg_r in Hhi; lia. }
  destruct (Z.lt_trichotomy (Z.pos (digits2_pos m)) d) as [Hlt | [Heq | Hgt]];
    [| done |]; exfalso.
  - assert (2 ^ Z.pos (digits2_pos m) <= 2 ^ (d - 1))
      by (apply Z.pow_le_mono_r; lia).
    lia.
  - assert (2 ^ d <= 2 ^ (Z.pos (digits2_pos m) - 1))
      by (apply Z.pow_le_mono_r; lia).
    lia.
Qed.

End Digits.

Section Locations.

Lemma loc_of_shr_record_of_loc (m : Z) (l : location) :
  loc_of_shr_record (shr_record_of_loc m l) = l /\
  shr_m (shr_record_of_loc m l) = m.
Proof. destruct l as [| []]; split; reflexivity. Qed.

Lemma shr_1_nonneg (m : Z) (r s : bool) :
  0 <= m ->
  shr_1 (Build_shr_record m r s) = Build_shr_record (m / 2) (Z.odd m) (r || s).
Proof.
  intros Hm. destruct m as [| p | p]; [reflexivity | | lia].
  destruct p as [p | p |]; simpl shr_1; f_equal.
  - apply Z.div_unique with (r := 1); lia.
  - apply Z.div_unique with (r := 0); lia.
Qed.

Lemma inb_sticky (a b : Z) (m : Z) (r s : bool) :
  inb a b (Build_shr_record m r s) -> r || s = negb (a mod b =? 0).
Proof.
  intros (_ & _ & _ & Hl). unfold loc_of in Hl. simpl in Hl.
  destruct (a mod b =? 0), r, s; simpl in *; congruence.
Qed.

Lemma shr_1_inb (a b : Z) (mrs : shr_record) :
  inb a b mrs -> inb a (b * 2) (shr_1 mrs).
Proof.
  destruct mrs as [m r s]. intros Hin.
  pose proof (inb_sticky _ _ _ _ _ Hin) as Hrs.
  destruct Hin as (Hb & Ha & Hm & Hl). simpl in Hm.
  assert (Hm0 : 0 <= m) by (subst m; apply Z.div_pos; lia).
  rewrite shr_1_nonneg by assumption.
  pose proof (Z.mod_pos_bound a b Hb) as Hr0.
  assert (Hmod : a mod (b * 2) = a mod b + b * (m mod 2))
    by (subst m; apply Z.rem_mul_r; lia).
  repeat split; try lia.
  - simpl. subst m. apply Z.div_div; lia.
  - unfold loc_of. rewrite Hmod, Hrs. simpl.
    rewrite Zmod_odd.
    destruct (Z.odd m).
    + replace (a mod b + b * 1 =? 0) with false
        by (symmetry; apply Z.eqb_neq; lia).
      destruct (Z.eqb_spec (a mod b) 0) as [E | E]; simpl.
      * rewrite E. f_equal. symmetry. apply Z.compare_eq_iff. lia.
      * f_equal. symmetry. apply Z.compare_gt_iff. lia.
    + rewrite Z.mul_0_r, Z.add_0_r.
      destruct (Z.eqb_spec (a mod b) 0) as [E | E]; simpl; [reflexivity |].
      f_equal. symmetry. apply Z.compare_lt_iff. lia.
Qed.

Lemma iter_shr_1_inb (p : positive) :
  forall (a b : Z) (mrs : shr_record),
    inb a b mrs -> inb a (b * 2 ^ Z.pos p) (iter_pos shr_1 p mrs).
Proof.
  induction p as [p IH | p IH |]; intros a b mrs Hin; simpl iter_pos.
  - replace (b * 2 ^ Z.pos p~1) with (b * 2 * 2 ^ Z.pos p * 2 ^ Z.pos p).
    + apply IH, IH, shr_1_inb, Hin.
    + replace (Z.pos p~1) with (Z.pos p + Z.pos p + 1) by lia.
      rewrite !Z.pow_add_r by lia. ring.
  - replace (b * 2 ^ Z.pos p~0) with (b * 2 ^ Z.pos p * 2 ^ Z.pos p).
    + apply IH, IH, Hin.
    + replace (Z.pos p~0) with (Z.pos p + Z.pos p) by lia.
      rewrite !Z.pow_add_r by lia. ring.
  - rewrite Z.pow_1_r. apply shr_1_inb, Hin.
Qed.

(** Rounding to nearest, ties to even: the result is one of the two
    neighbours of [a / b] and is within one half of it. *)
Lemma round_nearest_even_inb (a b : Z) (mrs : shr_record) :
  inb a b mrs ->
  let m2 := round_nearest_even (shr_m mrs) (loc_of_shr_record mrs) in
  2 * Z.abs (m2 * b - a) <= b /\ shr_m mrs <= m2 <= shr_m mrs + 1.
Proof.
  intros (Hb & Ha & Hm & Hl). rewrite Hl, Hm. unfold loc_of.
  pose proof (Z.mod_pos_bound a b Hb) as Hr0.
  pose proof (Z.div_mod a b ltac:(lia)) as Hdm.
  destruct (Z.eqb_spec (a mod b) 0) as [E | E]; simpl.
  - split; lia.
  - destruct (Z.compare_spec (2 * (a mod b)) b) as [C | C | C]; simpl.
    + destruct (Z.even (a / b)); split; lia.
    + split; lia.
    + split; lia.
Qed.

End Locations.

Section RoundAux.

Lemma fexp_normal (k : Z) : -1074 <= k - 53 -> fexp 53 1024 k = k - 53.
Proof. unfold fexp, emin. lia. Qed.

Lemma Zdigits2_bounds (m : Z) :
  0 < m -> 2 ^ (Zdigits2 m - 1) <= m < 2 ^ Zdigits2 m.
Proof.
  destruct m as [| p | p]; try lia. intros _. apply digits2_pos_bounds.
Qed.

Lemma Zdigits2_unique (m d : Z) :
  0 < m -> 2 ^ (d - 1) <= m < 2 ^ d -> Zdigits2 m = d.
Proof.
  destruct m as [| p | p]; try lia. intros _. apply digits2_pos_unique.
Qed.

Lemma shr_fexp_inb (m e a b : Z) (l : location) :
  0 < b -> 0 <= a -> m = a / b -> l = loc_of a b -> 0 < m ->
  0 <= Zdigits2 m - 53 -> -1074 <= Zdigits2 m + e - 53 ->
  exists mrs,
    shr_fexp 53 1024 m e l = (mrs, e + (Zdigits2 m - 53)) /\
    inb a (b * 2 ^ (Zdigits2 m - 53)) mrs.
Proof.
  intros Hb Ha Hm Hl Hm0 Hn Hnorm.
  unfold shr_fexp. rewrite fexp_normal by lia.
  replace (Zdigits2 m + e - 53 - e) with (Zdigits2 m - 53) by lia.
  assert (Hin : inb a b (shr_record_of_loc m l)).
  { destruct (loc_of_shr_record_of_loc m l) as [E1 E2].
    unfold inb. rewrite E1, E2. auto. }
  destruct (Zdigits2 m - 53) as [| p | p] eqn:En; [| | lia].
  - exists (shr_record_of_loc m l). simpl shr.
    rewrite Z.add_0_r, Z.pow_0_r, Z.mul_1_r. auto.
  - exists (iter_pos shr_1 p (shr_record_of_loc m l)). simpl shr.
    split; [reflexivity |]. by apply iter_shr_1_inb.
Qed.

Lemma shr_fexp_carry (e : Z) :
  -1074 <= e ->
  shr_fexp 53 1024 (2 ^ 53) e loc_Exact =
  (Build_shr_record 4503599627370496 false false, e + 1).
Proof.
  intros He. unfold shr_fexp.
  replace (Zdigits2 (2 ^ 53)) with 54 by (vm_compute; reflexivity).
  rewrite fexp_normal by lia.
  replace (54 + e - 53 - e) with 1 by lia.
  unfold shr. f_equal.
Qed.

(** The rounding step shared by multiplication and division: for a
    mantissa of at least 53 digits, in the normal range, the result is a
    finite float with a 53-digit mantissa, and it is within half a unit in
    the last place of the rational [a / b * 2 ^ e] that it rounds. *)
Lemma binary_round_aux_spec (s : bool) (m e a b : Z) (l : location) :
  0 < b -> 0 <= a -> m = a / b -> l = loc_of a b -> 0 < m ->
  53 <= Zdigits2 m -> -1074 <= Zdigits2 m + e - 53 ->
  Zdigits2 m + e <= 1023 ->
  exists (m' : positive) (e' : Z),
    binary_round_aux 53 1024 s m e l = S754_finite s m' e' /\
    Z.pos (digits2_pos m') = 53 /\
    e + (Zdigits2 m - 53) <= e' <= e + (Zdigits2 m - 53) + 1 /\
    2 * Z.abs (Z.pos m' * 2 ^ (e' - e) * b - a) <= b * 2 ^ (Zdigits2 m - 53).
Proof.
  intros Hb Ha Hm Hl Hm0 Hd Hnorm Hmax.
  destruct (shr_fexp_inb m e a b l) as (mrs1 & E1 & Hin1); try assumption;
    try lia.
  set (n := Zdigits2 m - 53) in *.
  assert (Hn : 0 <= n) by lia.
  assert (Hpn : 0 < 2 ^ n) by (apply Z.pow_pos_nonneg; lia).
  pose proof (round_nearest_even_inb _ _ _ Hin1) as [Herr Hm2].
  destruct Hin1 as (_ & _ & Hm1 & _).
  set (m2 := round_nearest_even (shr_m mrs1) (loc_of_shr_record mrs1)) in *.
  (* the shifted mantissa has 53 digits *)
  assert (Hm1b : 2 ^ 52 <= shr_m mrs1 < 2 ^ 53).
  { rewrite Hm1, <- Z.div_div, <- Hm by lia.
    pose proof (Zdigits2_bounds m Hm0) as [Hlo Hhi].
    replace (Zdigits2 m - 1) with (52 + n) in Hlo by lia.
    replace (Zdigits2 m) with (53 + n) in Hhi by lia.
    rewrite Z.pow_add_r in Hlo, Hhi by lia.
    split.
    - apply Z.div_le_lower_bound; lia.
    - apply Z.div_lt_upper_bound; lia. }
  unfold binary_round_aux. rewrite E1. fold m2.
  destruct (Z.eq_dec m2 (2 ^ 53)) as [E | NE].
  - (* the rounding carried into a 54th digit *)
    rewrite E, shr_fexp_carry by lia. cbn [shr_m].
    replace (e + n + 1 <=? 1024 - 53) with true
      by (symmetry; apply Z.leb_le; lia).
    exists 4503599627370496%positive, (e + n + 1).
    split; [reflexivity |]. split; [reflexivity |]. split; [lia |].
    replace (e + n + 1 - e) with (n + 1) by lia.
    rewrite Z.pow_add_r, Z.pow_1_r by lia.
    rewrite E in Herr.
    replace (4503599627370496 * (2 ^ n * 2) * b - a)
      with (2 ^ 53 * (b * 2 ^ n) - a) by ring.
    exact Herr.
  - assert (Hd2 : Zdigits2 m2 = 53) by (apply Zdigits2_unique; lia).
    unfold shr_fexp. rewrite Hd2, fexp_normal by lia.
    replace (53 + (e + n) - 53 - (e + n)) with 0 by lia.
    unfold shr. cbn [shr_record_of_loc shr_m].
    destruct m2 as [| p | p] eqn:Ep; try lia.
    replace (e + n <=? 1024 - 53) with true
      by (symmetry; apply Z.leb_le; lia).
    exists p, (e + n).
    split; [reflexivity |]. split; [exact Hd2 |]. split; [lia |].
    replace (e + n - e) with n by lia.
    replace (Z.pos p * 2 ^ n * b - a) with (Z.pos p * (b * 2 ^ n) - a) by ring.
    exact Herr.
Qed.

End RoundAux.

Section Operations.

(** A mantissa of 53 digits in the normal range is left as it is. *)
Lemma binary_round_aux_exact (s : bool) (m : positive) (e : Z) :
  Z.pos (digits2_pos m) = 53 -> -1074 <= e <= 971 ->
  binary_round_aux 53 1024 s (Z.pos m) e loc_Exact = S754_finite s m e.
Proof.
  intros Hd He. unfold binary_round_aux, shr_fexp. simpl Zdigits2.
  rewrite Hd, fexp_normal by lia.
  replace (53 + e - 53 - e) with 0 by lia.
  unfold shr. cbn [shr_record_of_loc shr_m round_nearest_even
                   loc_of_shr_record Zdigits2].
  rewrite Hd, fexp_normal by lia.
  replace (53 + e - 53 - e) with 0 by lia.
  cbn [shr_m].
  replace (e <=? 1024 - 53) with true by (symmetry; apply Z.leb_le; lia).
  reflexivity.
Qed.

Lemma Pos_iter_xO (p d : positive) :
  Z.pos (Pos.iter xO p d) = Z.pos p * 2 ^ Z.pos d.
Proof.
  revert p. induction d as [d IH | d IH |]; intros p; simpl Pos.iter.
  - rewrite Pos2Z.inj_xO, !IH.
    replace (Z.pos d~1) with (Z.pos d + Z.pos d + 1) by lia.
    rewrite !Z.pow_add_r by lia. ring.
  - rewrite !IH.
    replace (Z.pos d~0) with (Z.pos d + Z.pos d) by lia.
    rewrite !Z.pow_add_r by lia. ring.
  - lia.
Qed.

(** The float of an integer of fewer than 54 bits, with either sign: the
    integer itself, its mantissa shifted to 53 digits. *)
Lemma binary_round_small (s : bool) (p : positive) :
  Z.pos p < 2 ^ 53 ->
  exists m : positive,
    binary_round 53 1024 s p 0
    = S754_finite s m (Z.pos (digits2_pos p) - 53) /\
    Z.pos (digits2_pos m) = 53 /\
    Z.pos m = Z.pos p * 2 ^ (53 - Z.pos (digits2_pos p)) /\
    1 <= Z.pos (digits2_pos p) <= 53.
Proof.
  intros Hz.
  pose proof (digits2_pos_bounds p) as [Hlo Hhi].
  assert (Hd : 1 <= Z.pos (digits2_pos p) <= 53).
  { split; [lia |].
    destruct (Z.le_gt_cases (Z.pos (digits2_pos p)) 53) as [|Hgt]; [done |].
    assert (2 ^ 53 <= 2 ^ (Z.pos (digits2_pos p) - 1))
      by (apply Z.pow_le_mono_r; lia).
    lia. }
  unfold binary_round, shl_align.
  rewrite Z.add_0_r, fexp_normal by lia.
  rewrite Z.sub_0_r.
  destruct (Z.pos (digits2_pos p) - 53) as [| q | q] eqn:Eq; try lia.
  - exists p. rewrite binary_round_aux_exact by lia.
    replace (53 - Z.pos (digits2_pos p)) with 0 by lia.
    rewrite Z.pow_0_r, Z.mul_1_r. repeat split; lia.
  - set (m := Pos.iter xO p q).
    assert (Hm : Z.pos m = Z.pos p * 2 ^ Z.pos q) by apply Pos_iter_xO.
    assert (Hpq : 0 < 2 ^ Z.pos q) by (apply Z.pow_pos_nonneg; lia).
    assert (Hdm : Z.pos (digits2_pos m) = 53).
    { apply digits2_pos_unique. rewrite Hm.
      assert (H1 : 2 ^ (53 - 1)
                   = 2 ^ (Z.pos (digits2_pos p) - 1) * 2 ^ Z.pos q)
        by (rewrite <- Z.pow_add_r by lia; f_equal; lia).
      assert (H2 : 2 ^ 53 = 2 ^ Z.pos (digits2_pos p) * 2 ^ Z.pos q)
        by (rewrite <- Z.pow_add_r by lia; f_equal; lia).
      rewrite H1, H2. nia. }
    exists m. rewrite binary_round_aux_exact by lia.
    replace (53 - Z.pos (digits2_pos p)) with (Z.pos q) by lia.
    repeat split; auto; lia.
Qed.

Lemma new_location_loc_of (a b : Z) :
  0 < b -> new_location b (a mod b) = loc_of a b.
Proof.
  intros Hb. pose proof (Z.mod_pos_bound a b Hb) as Hr.
  unfold new_location, new_location_even, new_location_odd, loc_of.
  destruct (Z.even b) eqn:Eb; [reflexivity |].
  destruct (a mod b =? 0); [reflexivity |]. f_equal.
  assert (Hodd : Z.odd b = true) by (rewrite <- Z.negb_even, Eb; reflexivity).
  apply Z.odd_spec in Hodd as [k Hk].
  destruct (Z.compare_spec (2 * (a mod b) + 1) b) as [C | C | C];
    symmetry; [apply Z.compare_lt_iff | apply Z.compare_lt_iff
               | apply Z.compare_gt_iff]; lia.
Qed.

(** Division of two positive floats with 53-digit mantissas, when the
    quotient is in the normal range. With [v] the mantissa of the result
    counted in units of [2 ^ (ex - ey - 53)], the result is within
    2^-53, relatively, of the exact quotient. *)
Lemma SFdiv_spec (sx sy : bool) (mx my : positive) (ex ey : Z) :
  Z.pos (digits2_pos mx) = 53 -> Z.pos (digits2_pos my) = 53 ->
  -1021 <= ex - ey <= 1021 ->
  exists (m' : positive) (e' : Z),
    SFdiv 53 1024 (S754_finite sx mx ex) (S754_finite sy my ey)
    = S754_finite (xorb sx sy) m' e' /\
    Z.pos (digits2_pos m') = 53 /\
    ex - ey - 53 <= e' <= ex - ey - 51 /\
    2 ^ 53 * Z.abs (Z.pos m' * 2 ^ (e' - (ex - ey - 53)) * Z.pos my
                    - Z.pos mx * 2 ^ 53)
    <= Z.pos mx * 2 ^ 53.
Proof.
  intros Hdx Hdy He.
  pose proof (digits2_pos_bounds mx) as Hbx. rewrite Hdx in Hbx.
  pose proof (digits2_pos_bounds my) as Hby. rewrite Hdy in Hby.
  change (2 ^ (53 - 1)) with 4503599627370496 in Hbx, Hby.
  change (2 ^ 53) with 9007199254740992 in Hbx, Hby.
  unfold SFdiv, SFdiv_core_binary. simpl Zdigits2. rewrite Hdx, Hdy.
  replace (53 + ex - (53 + ey)) with (ex - ey) by lia.
  rewrite fexp_normal by lia.
  rewrite Z.min_l by lia.
  replace (ex - ey - (ex - ey - 53)) with 53 by lia.
  rewrite Z.shiftl_mul_pow2 by lia.
  set (a := Z.pos mx * 2 ^ 53). set (b := Z.pos my).
  assert (Hdiv : Z.div_eucl a b = (a / b, a mod b))
    by (unfold Z.div, Z.modulo; destruct (Z.div_eucl a b); reflexivity).
  rewrite Hdiv.
  rewrite new_location_loc_of by (unfold b; lia).
  assert (Hq : 2 ^ 52 <= a / b < 2 ^ 54).
  { unfold a, b. change (2 ^ 52) with 4503599627370496.
    change (2 ^ 53) with 9007199254740992.
    change (2 ^ 54) with 18014398509481984. split.
    - apply Z.div_le_lower_bound; lia.
    - apply Z.div_lt_upper_bound; lia. }
  assert (Hdq : 53 <= Zdigits2 (a / b) <= 54).
  { pose proof (Zdigits2_bounds (a / b) ltac:(lia)) as [Hlo Hhi].
    split.
    - destruct (Z.le_gt_cases 53 (Zdigits2 (a / b))) as [|Hlt]; [done |].
      assert (2 ^ Zdigits2 (a / b) <= 2 ^ 52)
        by (apply Z.pow_le_mono_r; lia).
      lia.
    - destruct (Z.le_gt_cases (Zdigits2 (a / b)) 54) as [|Hgt]; [done |].
      assert (2 ^ 54 <= 2 ^ (Zdigits2 (a / b) - 1))
        by (apply Z.pow_le_mono_r; lia).
      lia. }
  destruct (binary_round_aux_spec (xorb sx sy) (a / b) (ex - ey - 53) a b
              (loc_of a b))
    as (m' & e' & Hr & Hd' & He' & Herr);
    try reflexivity; try lia; try (unfold a, b; lia).
  exists m', e'. split; [exact Hr |]. split; [exact Hd' |]. split; [lia |].
  pose proof (Zdigits2_bounds (a / b) ltac:(lia)) as [Hlo Hhi].
  assert (Hab : b * (a / b) <= a).
  { pose proof (Z.mul_div_le a b ltac:(unfold b; lia)). lia. }
  set (n := Zdigits2 (a / b) - 53) in *.
  replace (Zdigits2 (a / b) - 1) with (52 + n) in Hlo by lia.
  rewrite Z.pow_add_r in Hlo by lia.
  assert (Hpn : 0 < 2 ^ n) by (apply Z.pow_pos_nonneg; lia).
  change (2 ^ 52) with 4503599627370496 in Hlo.
  change (2 ^ 53) with 9007199254740992 at 1.
  assert (Hb0 : 0 < b) by (unfold b; lia).
  nia.
Qed.

(** Multiplication of two floats with 53-digit mantissas, when the product
    is in the normal range. *)
Lemma SFmul_spec (sx sy : bool) (mx my : positive) (ex ey : Z) :
  Z.pos (digits2_pos mx) = 53 -> Z.pos (digits2_pos my) = 53 ->
  -1126 <= ex + ey <= 917 ->
  exists (m' : positive) (e' : Z),
    SFmul 53 1024 (S754_finite sx mx ex) (S754_finite sy my ey)
    = S754_finite (xorb sx sy) m' e' /\
    Z.pos (digits2_pos m') = 53 /\
    ex + ey + 52 <= e' <= ex + ey + 54 /\
    2 ^ 53 * Z.abs (Z.pos m' * 2 ^ (e' - (ex + ey)) - Z.pos mx * Z.pos my)
    <= Z.pos mx * Z.pos my.
Proof.
  intros Hdx Hdy He.
  pose proof (digits2_pos_bounds mx) as Hbx. rewrite Hdx in Hbx.
  pose proof (digits2_pos_bounds my) as Hby. rewrite Hdy in Hby.
  change (2 ^ (53 - 1)) with 4503599627370496 in Hbx, Hby.
  change (2 ^ 53) with 9007199254740992 in Hbx, Hby.
  unfold SFmul. rewrite Pos2Z.inj_mul.
  set (a := Z.pos mx * Z.pos my).
  assert (Ha : 2 ^ 104 <= a < 2 ^ 106).
  { unfold a. change (2 ^ 104) with (4503599627370496 * 4503599627370496).
    change (2 ^ 106) with (9007199254740992 * 9007199254740992). nia. }
  assert (Hda : 105 <= Zdigits2 a <= 106).
  { pose proof (Zdigits2_bounds a ltac:(lia)) as [Hlo Hhi].
    split.
    - destruct (Z.le_gt_cases 105 (Zdigits2 a)) as [|Hlt]; [done |].
      assert (2 ^ Zdigits2 a <= 2 ^ 104) by (apply Z.pow_le_mono_r; lia).
      lia.
    - destruct (Z.le_gt_cases (Zdigits2 a) 106) as [|Hgt]; [done |].
      assert (2 ^ 106 <= 2 ^ (Zdigits2 a - 1))
        by (apply Z.pow_le_mono_r; lia).
      lia. }
  destruct (binary_round_aux_spec (xorb sx sy) a (ex + ey) a 1 loc_Exact)
    as (m' & e' & Hr & Hd' & He' & Herr); try lia.
  { symmetry. apply Z.div_1_r. }
  { unfold loc_of. rewrite Z.mod_1_r. reflexivity. }
  exists m', e'. split; [exact Hr |]. split; [exact Hd' |]. split; [lia |].
  pose proof (Zdigits2_bounds a ltac:(lia)) as [Hlo Hhi].
  set (n := Zdigits2 a - 53) in *.
  replace (Zdigits2 a - 1) with (52 + n) in Hlo by lia.
  rewrite Z.pow_add_r in Hlo by lia.
  assert (Hpn : 0 < 2 ^ n) by (apply Z.pow_pos_nonneg; lia).
  change (2 ^ 52) with 4503599627370496 in Hlo.
  change (2 ^ 53) with 9007199254740992.
  rewrite Z.mul_1_r in Herr. rewrite Z.mul_1_l in Herr.
  nia.
Qed.

End Operations.

Section Values.

(** A value multiplied by a power of two large enough is an integer. *)
Lemma value_scaled (s : bool) (m : positive) (e K : Z) (q : Q) :
  F64.value (S754_finite s m e) = Some q -> 0 <= K -> 0 <= e + K ->
  (q * inject_Z (2 ^ K) ==
   inject_Z ((if s then Z.neg m else Z.pos m) * 2 ^ (e + K)))%Q.
Proof.
  simpl. intros [= <-] HK HeK.
  assert (HpK : 0 < 2 ^ K) by (apply Z.pow_pos_nonneg; lia).
  set (n := if s then Z.neg m else Z.pos m).
  destruct e as [| p | p]; unfold Qeq, inject_Z, Qmult; simpl Qnum; simpl Qden;
    rewrite Pos.mul_1_r.
  - rewrite Z.add_0_l, Z.pow_0_r. lia.
  - rewrite Z.pow_add_r by lia. lia.
  - rewrite Pos2Z.inj_pow.
    replace K with (Z.neg p + K + Z.pos p) at 1 by lia.
    rewrite Z.pow_add_r by lia. lia.
Qed.

(** A bound on a rational follows from the bound on the integers that it
    and its companions become when multiplied by a positive integer. *)
Lemma Qabs_bound_scaled (q c r : Q) (K zq zc zr : Z) :
  0 < K ->
  (q * inject_Z K == inject_Z zq)%Q ->
  (c * inject_Z K == inject_Z zc)%Q ->
  (r * inject_Z K == inject_Z zr)%Q ->
  Z.abs (zq - zc) <= zr ->
  (Qabs (q - c) <= r)%Q.
Proof.
  intros HK Hq Hc Hr Hz.
  assert (HKq : (0 < inject_Z K)%Q) by (unfold Qlt; simpl; lia).
  apply (Qmult_le_r _ _ (inject_Z K) HKq).
  rewrite Hr.
  assert (E1 : ((q - c) * inject_Z K == inject_Z (zq - zc))%Q).
  { unfold Z.sub. rewrite inject_Z_plus, inject_Z_opp, <- Hq, <- Hc. ring. }
  assert (E2 : (Qabs (q - c) * inject_Z K == inject_Z (Z.abs (zq - zc)))%Q).
  { change (inject_Z (Z.abs (zq - zc))) with (Qabs (inject_Z (zq - zc))).
    rewrite <- E1, Qabs_Qmult.
    rewrite (Qabs_pos (inject_Z K)) by (apply Qlt_le_weak, HKq).
    reflexivity. }
  rewrite E2. rewrite <- Zle_Qle. exact Hz.
Qed.

End Values.

Section IntegerOperands.

(** The float of an integer of fewer than 54 bits. *)
Lemma of_int_small (z : Z) :
  z <> 0 -> Z.abs z < 2 ^ 53 ->
  exists (m : positive) (e : Z),
    F64.of_int z = S754_finite (z <? 0) m e /\
    Z.pos (digits2_pos m) = 53 /\ -52 <= e <= 0 /\
    Z.pos m = Z.abs z * 2 ^ (- e).
Proof.
  intros Hz0 Hz. unfold F64.of_int, binary_normalize.
  destruct z as [| p | p]; [done | |].
  - destruct (binary_round_small false p Hz) as (m & E & Hd & Hm & Hdp).
    exists m, (Z.pos (digits2_pos p) - 53).
    split; [exact E |]. split; [exact Hd |]. split; [lia |].
    rewrite Hm. simpl Z.abs. f_equal. f_equal. lia.
  - destruct (binary_round_small true p Hz) as (m & E & Hd & Hm & Hdp).
    exists m, (Z.pos (digits2_pos p) - 53).
    split; [exact E |]. split; [exact Hd |]. split; [lia |].
    rewrite Hm. simpl Z.abs. f_equal. f_equal. lia.
Qed.

(** Conversion is exact below 2^53. *)
Lemma of_int_value (z : Z) :
  Z.abs z < 2 ^ 53 ->
  exists q, F64.value (F64.of_int z) = Some q /\ (q == inject_Z z)%Q.
Proof.
  intros Hz. destruct (Z.eq_dec z 0) as [-> | Hz0].
  { exists 0%Q. split; reflexivity. }
  destruct (of_int_small z Hz0 Hz) as (m & e & E & Hd & He & Hm).
  rewrite E.
  destruct (F64.value (S754_finite (z <? 0) m e)) as [q |] eqn:V;
    [| discriminate].
  exists q. split; [reflexivity |].
  pose proof (value_scaled _ _ _ (- e) _ V ltac:(lia) ltac:(lia)) as Hs.
  assert (Hp : 0 < 2 ^ (- e)) by (apply Z.pow_pos_nonneg; lia).
  assert (HK : (0 < inject_Z (2 ^ (- e)))%Q) by (unfold Qlt; simpl; lia).
  apply (Qmult_inj_r _ _ (inject_Z (2 ^ (- e)))).
  { intros H0. rewrite H0 in HK. by apply Qlt_irrefl in HK. }
  rewrite Hs, <- inject_Z_mult.
  replace (e + - e) with 0 by lia. rewrite Z.pow_0_r, Z.mul_1_r.
  apply inject_Z_injective.
  destruct (Z.ltb_spec z 0); lia.
Qed.

(** The quotient of two positive integers below 2^53: a positive float
    with a 53-digit mantissa whose value is within 2^-53, relatively, of
    the exact quotient. *)
Lemma div_of_int_spec (n m : Z) :
  0 < n < 2 ^ 53 -> 0 < m < 2 ^ 53 ->
  exists (mq : positive) (eq : Z) (q : Q),
    F64.div (F64.of_int n) (F64.of_int m) = S754_finite false mq eq /\
    Z.pos (digits2_pos mq) = 53 /\ -105 <= eq <= 1 /\
    F64.value (S754_finite false mq eq) = Some q /\
    (Qabs (q * inject_Z m - inject_Z n) <= inject_Z n * (1 # 2 ^ 53))%Q.
Proof.
  intros Hn Hm.
  destruct (of_int_small n ltac:(lia) ltac:(lia))
    as (mx & ex & Ex & Hdx & Hex & Hmx).
  destruct (of_int_small m ltac:(lia) ltac:(lia))
    as (my & ey & Ey & Hdy & Hey & Hmy).
  replace (n <? 0) with false in Ex by (symmetry; apply Z.ltb_ge; lia).
  replace (m <? 0) with false in Ey by (symmetry; apply Z.ltb_ge; lia).
  rewrite Z.abs_eq in Hmx, Hmy by lia.
  destruct (SFdiv_spec false false mx my ex ey Hdx Hdy ltac:(lia))
    as (mq & eq & E & Hdq & Heq & Herr).
  unfold F64.div, F64.prec, F64.emax. rewrite Ex, Ey, E. simpl xorb.
  destruct (F64.value (S754_finite false mq eq)) as [q |] eqn:V;
    [| discriminate].
  exists mq, eq, q.
  split; [reflexivity |]. split; [exact Hdq |]. split; [lia |].
  split; [exact V |].
  set (K := - ex + 53).
  assert (HpK : 0 < 2 ^ K) by (apply Z.pow_pos_nonneg; lia).
  pose proof (value_scaled _ _ _ K _ V ltac:(lia) ltac:(lia)) as Hs.
  apply (Qabs_bound_scaled _ _ _ (2 ^ K)
           (Z.pos mq * 2 ^ (eq + K) * m) (n * 2 ^ K) (n * 2 ^ (- ex)));
    [exact HpK | | | |].
  - rewrite inject_Z_mult, <- Hs. ring.
  - rewrite inject_Z_mult. reflexivity.
  - unfold K. rewrite Z.pow_add_r by lia.
    unfold Qeq, Qmult, inject_Z. simpl Qnum. simpl Qden.
    change (Z.pos (2 ^ 53 * 1)) with (2 ^ 53). lia.
  - assert (Hj : 2 ^ (eq - (ex - ey - 53)) * 2 ^ (- ey) = 2 ^ (eq + K))
      by (rewrite <- Z.pow_add_r by lia; f_equal; unfold K; lia).
    replace (2 ^ K) with (2 ^ (- ex) * 2 ^ 53)
      by (unfold K; rewrite Z.pow_add_r by lia; reflexivity).
    rewrite Hmx, Hmy in Herr.
    assert (Hp53 : 0 < 2 ^ 53) by lia.
    replace (Z.pos mq * 2 ^ (eq - (ex - ey - 53)) * (m * 2 ^ (- ey)))
      with (Z.pos mq * 2 ^ (eq + K) * m) in Herr
      by (rewrite <- Hj; ring).
    replace (Z.pos mq * 2 ^ (eq + K) * m - n * (2 ^ (- ex) * 2 ^ 53))
      with (Z.pos mq * 2 ^ (eq + K) * m - n * 2 ^ (- ex) * 2 ^ 53) by ring.
    nia.
Qed.

End IntegerOperands.

Section Remapping.

(** A positive float with a 53-digit mantissa multiplied by an integer of
    fewer than 54 bits: the result is within 2^-53, relatively, of the
    exact product. *)
Lemma mul_of_int_spec (mx : positive) (ex k : Z) (qx : Q) :
  Z.pos (digits2_pos mx) = 53 -> -200 <= ex <= 200 -> Z.abs k < 2 ^ 53 ->
  F64.value (S754_finite false mx ex) = Some qx ->
  exists q',
    F64.value (F64.mul (S754_finite false mx ex) (F64.of_int k)) = Some q' /\
    (Qabs (q' - qx * inject_Z k)
     <= qx * inject_Z (Z.abs k) * (1 # 2 ^ 53))%Q.
Proof.
  intros Hdx Hex Hk Vx.
  destruct (Z.eq_dec k 0) as [-> | Hk0].
  { exists 0%Q. split; [reflexivity |].
    setoid_replace (0 - qx * inject_Z 0)%Q with 0%Q using relation Qeq
      by ring.
    setoid_replace (qx * inject_Z (Z.abs 0) * (1 # 2 ^ 53))%Q with 0%Q
      using relation Qeq by (change (inject_Z (Z.abs 0)) with 0%Q; ring).
    apply Qle_refl. }
  destruct (of_int_small k Hk0 Hk) as (mk & ek & Ek & Hdk & Hek & Hmk).
  destruct (SFmul_spec false (k <? 0) mx mk ex ek Hdx Hdk ltac:(lia))
    as (m' & e' & E & Hd' & He' & Herr).
  unfold F64.mul, F64.prec, F64.emax. rewrite Ek, E. simpl xorb.
  destruct (F64.value (S754_finite (k <? 0) m' e')) as [q' |] eqn:V;
    [| discriminate].
  exists q'. split; [reflexivity |].
  pose proof (value_scaled _ _ _ 253 _ V ltac:(lia) ltac:(lia)) as Hs.
  pose proof (value_scaled _ _ _ 253 _ Vx ltac:(lia) ltac:(lia)) as Hsx.
  set (T := ex + ek + 253).
  assert (HpT : 0 < 2 ^ T) by (apply Z.pow_pos_nonneg; unfold T; lia).
  assert (H1 : 2 ^ (e' + 253) = 2 ^ (e' - (ex + ek)) * 2 ^ T)
    by (rewrite <- Z.pow_add_r by (unfold T; lia); f_equal; unfold T; lia).
  assert (H2 : 2 ^ (ex + 253) = 2 ^ (- ek) * 2 ^ T)
    by (rewrite <- Z.pow_add_r by (unfold T; lia); f_equal; unfold T; lia).
  assert (H3 : 2 ^ (ex + 253) = 2 ^ (ex + 200) * 2 ^ 53)
    by (rewrite <- Z.pow_add_r by lia; f_equal; lia).
  assert (Hp200 : 0 < 2 ^ (ex + 200)) by (apply Z.pow_pos_nonneg; lia).
  apply (Qabs_bound_scaled _ _ _ (2 ^ 253)
           ((if k <? 0 then Z.neg m' else Z.pos m') * 2 ^ (e' + 253))
           (Z.pos mx * 2 ^ (ex + 253) * k)
           (Z.pos mx * 2 ^ (ex + 200) * Z.abs k));
    [lia | exact Hs | | |].
  - rewrite inject_Z_mult, <- Hsx. ring.
  - rewrite !inject_Z_mult.
    assert (Hq : (qx * inject_Z (2 ^ 253)
                  == inject_Z (Z.pos mx) * inject_Z (2 ^ (ex + 200))
                     * inject_Z (2 ^ 53))%Q)
      by (rewrite Hsx, H3, !inject_Z_mult; ring).
    setoid_replace (qx * inject_Z (Z.abs k) * (1 # 2 ^ 53) * inject_Z (2 ^ 253))%Q
      with (qx * inject_Z (2 ^ 253) * (inject_Z (Z.abs k) * (1 # 2 ^ 53)))%Q
      using relation Qeq by ring.
    rewrite Hq.
    setoid_replace (inject_Z (2 ^ 53)) with (1 / (1 # 2 ^ 53))%Q
      using relation Qeq by reflexivity.
    field. discriminate.
  - rewrite H1, H2. rewrite Hmk in Herr.
    set (P := 2 ^ (e' - (ex + ek))) in *. set (R := 2 ^ (- ek)) in *.
    rewrite H3 in H2.
    assert (Hp53 : 2 ^ 53 = 9007199254740992) by reflexivity.
    rewrite Hp53 in *.
    destruct (Z.ltb_spec k 0).
    + rewrite (Z.abs_neq k) in * by lia.
      change (Z.neg m') with (- Z.pos m'). nia.
    + rewrite (Z.abs_eq k) in * by lia. nia.
Qed.

End Remapping.

(** ** The loop body of [disegna_risultati] *)

Section LoopBody.

Import Disegno.

Variable cv2_raises : world -> cv2_call -> option exn.

(** The loop body, case by case. *)
Lemma corpo_unfold f et sx sy obj (w : world) :
  corpo cv2_raises f et sx sy obj w =
  match pixel_interi obj sx sy with
  | Raise e => (Raise e, w)
  | Ret b =>
      if fuori_dai_bordi f b then (Ret tt, w)
      else disegna_box cv2_raises f obj et b w
  end.
Proof.
  unfold corpo, bind, lift.
  destruct (pixel_interi obj sx sy) as [b | e]; [| reflexivity].
  destruct (fuori_dai_bordi f b); reflexivity.
Qed.

(** The integer pixels are the truncations of the remapped values. *)
Lemma pixel_interi_value obj sx sy qx0 qy0 qx1 qy1 :
  F64.value (xmin (scale (bbox obj) sx sy)) = Some qx0 ->
  F64.value (ymin (scale (bbox obj) sx sy)) = Some qy0 ->
  F64.value (xmax (scale (bbox obj) sx sy)) = Some qx1 ->
  F64.value (ymax (scale (bbox obj) sx sy)) = Some qy1 ->
  pixel_interi obj sx sy =
  Ret (mkBBox (F64.Qtrunc qx0) (F64.Qtrunc qy0)
              (F64.Qtrunc qx1) (F64.Qtrunc qy1)).
Proof.
  intros H1 H2 H3 H4. unfold pixel_interi.
  rewrite (to_int_value _ _ H1), (to_int_value _ _ H2),
    (to_int_value _ _ H3), (to_int_value _ _ H4).
  reflexivity.
Qed.

(** The bounds check in terms of the four integers. *)
Lemma fuori_dai_bordi_false f (b : BBox Z) :
  fuori_dai_bordi f b = false <->
  0 <= xmin b /\ 0 <= ymin b /\ xmax b <= shape1 f /\ ymax b <= shape0 f.
Proof.
  unfold fuori_dai_bordi.
  rewrite !orb_false_iff, !Z.ltb_ge, !Z.gtb_ltb, !Z.ltb_ge. tauto.
Qed.

Lemma fuori_dai_bordi_true f (b : BBox Z) :
  fuori_dai_bordi f b = true <->
  xmin b < 0 \/ ymin b < 0 \/ shape1 f < xmax b \/ shape0 f < ymax b.
Proof.
  unfold fuori_dai_bordi.
  rewrite !orb_true_iff, !Z.gtb_ltb, !Z.ltb_lt. tauto.
Qed.

(** Whatever the body does, it only adds to the world. *)
Lemma cv2_prefix c (w w' : world) (r : outcome unit) :
  cv2 cv2_raises c w = (r, w') -> w `prefix_of` w'.
Proof.
  unfold cv2. destruct (cv2_raises w c); intros [= _ <-].
  - reflexivity.
  - by apply prefix_app_r.
Qed.

Lemma disegna_box_prefix f obj et b (w w' : world) r :
  disegna_box cv2_raises f obj et b w = (r, w') -> w `prefix_of` w'.
Proof.
  unfold disegna_box, bind.
  destruct (cv2 _ _ w) as [[[] | e] w1] eqn:E1.
  - destruct (cv2 _ _ w1) as [r2 w2] eqn:E2. intros [= _ <-].
    trans w1; [eapply cv2_prefix, E1 | eapply cv2_prefix, E2].
  - intros [= _ <-]. eapply cv2_prefix, E1.
Qed.

Lemma corpo_prefix f et sx sy obj (w w' : world) r :
  corpo cv2_raises f et sx sy obj w = (r, w') -> w `prefix_of` w'.
Proof.
  rewrite corpo_unfold.
  destruct (pixel_interi obj sx sy) as [b | e].
  - destruct (fuori_dai_bordi f b).
    + by intros [= _ <-].
    + apply disegna_box_prefix.
  - by intros [= _ <-].
Qed.

Lemma ciclo_prefix f et sx sy oggetti : forall (w w' : world) r,
  ciclo cv2_raises f et sx sy oggetti w = (r, w') -> w `prefix_of` w'.
Proof.
  induction oggetti as [| obj rest IH]; intros w w' r; simpl.
  - by intros [= _ <-].
  - unfold bind.
    destruct (corpo _ _ _ _ _ obj w) as [[[] | e] w1] eqn:E1.
    + intros E2. trans w1; [eapply corpo_prefix, E1 | eapply IH, E2].
    + intros [= _ <-]. eapply corpo_prefix, E1.
Qed.

Lemma ciclo_cons f et sx sy obj rest (w : world) :
  ciclo cv2_raises f et sx sy (obj :: rest) w =
  match corpo cv2_raises f et sx sy obj w with
  | (Ret _, w1) => ciclo cv2_raises f et sx sy rest w1
  | (Raise e, w1) => (Raise e, w1)
  end.
Proof. reflexivity. Qed.

(** The loop over a list that is cut in two. *)
Lemma ciclo_app f et sx sy pre post (w : world) :
  ciclo cv2_raises f et sx sy (pre ++ post) w =
  match ciclo cv2_raises f et sx sy pre w with
  | (Ret _, w1) => ciclo cv2_raises f et sx sy post w1
  | (Raise e, w1) => (Raise e, w1)
  end.
Proof.
  revert w. induction pre as [| obj rest IH]; intros w; simpl.
  - reflexivity.
  - unfold bind.
    destruct (corpo _ _ _ _ _ obj w) as [[[] | e] w1]; [apply IH | done].
Qed.

(** [disegna_risultati] in terms of the loop. *)
Lemma disegna_risultati_unfold f oggetti et sx sy (w : world) :
  disegna_risultati cv2_raises f oggetti et sx sy w =
  match ciclo cv2_raises f et sx sy oggetti w with
  | (Ret _, w') => (Ret f, w')
  | (Raise e, w') => (Ret f, w' ++ [Printed (errore_disegno e)])
  end.
Proof.
  unfold disegna_risultati, bind, try_except, print, ret.
  destruct (ciclo _ _ _ _ _ _ w) as [[[] | e] w']; reflexivity.
Qed.

End LoopBody.

(** With an OpenCV that does not fail, rendering a box adds the rectangle
    and the label to the world. *)
Lemma disegna_box_affidabile f obj et (b : Disegno.BBox Z) (w : Disegno.world) :
  Disegno.disegna_box Esempi.opencv_affidabile f obj et b w =
  (Ret tt,
   w ++ [Disegno.Done
           (Disegno.rectangle f (Disegno.xmin b, Disegno.ymin b)
              (Disegno.xmax b, Disegno.ymax b) (0, 255, 0) 2);
         Disegno.Done
           (Disegno.putText f
              (Disegno.etichetta_testo
                 (Etichette.get et (Disegno.id obj) "Sconosciuto")
                 (F64.mul (Disegno.score obj) (F64.of_int 100)))
              (Disegno.xmin b,
               if Disegno.ymin b - 10 <? 10 then Disegno.ymin b + 20
               else Disegno.ymin b - 10)
              (0, 255, 0) 2)]).
Proof.
  unfold Disegno.disegna_box, bind, Disegno.cv2, Esempi.opencv_affidabile.
  rewrite <- app_assoc. reflexivity.
Qed.

(** ** The bounds check (claims C2 and C9) *)

Section BoundsCheck.

Import Disegno.

(** In terms of the remapped values: the truncated box is inside the
    frame exactly when the minima are above -1 and the maxima below the
    frame size plus one. *)
Lemma dentro_iff f (qx0 qy0 qx1 qy1 : Q) :
  0 <= shape0 f -> 0 <= shape1 f ->
  fuori_dai_bordi f (mkBBox (F64.Qtrunc qx0) (F64.Qtrunc qy0)
                            (F64.Qtrunc qx1) (F64.Qtrunc qy1)) = false <->
  (-1 < qx0)%Q /\ (-1 < qy0)%Q /\
  (qx1 < inject_Z (shape1 f + 1))%Q /\ (qy1 < inject_Z (shape0 f + 1))%Q.
Proof.
  intros H0 H1. rewrite fuori_dai_bordi_false. simpl.
  rewrite !Qtrunc_nonneg_iff, !Qtrunc_le_iff by assumption. tauto.
Qed.

(** C2, as stated, fails. On a 2592x1944 frame the detection that fills
    the 300x300 model square remaps to a bottom edge of
    1944.0000000000002, strictly greater than the native height, yet it is
    rendered, at (0,0)-(2592,1944). On a 160x120 frame the box
    (-1,-1)-(301,301) remaps to about (-0.53,-0.4)-(160.53,120.4): its
    left edge is negative and its right edge is beyond the native width,
    yet it is rendered, at (0,0)-(160,120). *)
Lemma C2_counterexample_overshoot_rendered :
  (F64.gtb
     (ymax (scale (bbox Esempi.oggetto_intero)
              (fst Esempi.scala_2592x1944) (snd Esempi.scala_2592x1944)))
     (F64.of_int (shape0 Esempi.frame_2592x1944))
   = true /\
   corpo Esempi.opencv_affidabile Esempi.frame_2592x1944 Esempi.due_etichette
     (fst Esempi.scala_2592x1944) (snd Esempi.scala_2592x1944)
     Esempi.oggetto_intero []
   = (Ret tt,
      [Done (rectangle Esempi.frame_2592x1944 (0, 0) (2592, 1944)
               (0, 255, 0) 2);
       Done (putText Esempi.frame_2592x1944
               (etichetta_testo "person"
                  (F64.mul SOGLIA_CONFIDENZA_DEFAULT (F64.of_int 100)))
               (0, 20) (0, 255, 0) 2)]))
  /\
  (F64.gtb (F64.of_int 0)
     (xmin (scale (bbox Esempi.oggetto_debordante)
              (fst Esempi.scala_160x120) (snd Esempi.scala_160x120)))
   = true /\
   F64.gtb
     (xmax (scale (bbox Esempi.oggetto_debordante)
              (fst Esempi.scala_160x120) (snd Esempi.scala_160x120)))
     (F64.of_int (shape1 Esempi.frame_160x120))
   = true /\
   corpo Esempi.opencv_affidabile Esempi.frame_160x120 Esempi.due_etichette
     (fst Esempi.scala_160x120) (snd Esempi.scala_160x120)
     Esempi.oggetto_debordante []
   = (Ret tt,
      [Done (rectangle Esempi.frame_160x120 (0, 0) (160, 120) (0, 255, 0) 2);
       Done (putText Esempi.frame_160x120
               (etichetta_testo "person"
                  (F64.mul SOGLIA_CONFIDENZA_DEFAULT (F64.of_int 100)))
               (0, 20) (0, 255, 0) 2)])).
Proof.
  split.
  - split; [vm_compute; reflexivity |].
    rewrite corpo_unfold.
    replace (pixel_interi _ _ _) with (Ret (mkBBox 0 0 2592 1944))
      by (vm_compute; reflexivity).
    change (fuori_dai_bordi Esempi.frame_2592x1944 (mkBBox 0 0 2592 1944))
      with false.
    rewrite disegna_box_affidabile. reflexivity.
  - split; [vm_compute; reflexivity |].
    split; [vm_compute; reflexivity |].
    rewrite corpo_unfold.
    replace (pixel_interi _ _ _) with (Ret (mkBBox 0 0 160 120))
      by (vm_compute; reflexivity).
    change (fuori_dai_bordi Esempi.frame_160x120 (mkBBox 0 0 160 120))
      with false.
    rewrite disegna_box_affidabile. reflexivity.
Qed.

(** C2, amended: the check is applied to the coordinates truncated
    toward zero. With [b] the truncated box, the detection is rendered
    when [0 <= xmin b], [0 <= ymin b], [xmax b <= width] and
    [ymax b <= height] (a coordinate equal to the width or height is
    inside), and dropped without any effect otherwise; in terms of the
    remapped values the first case is [-1 < xmin], [-1 < ymin],
    [xmax < width + 1], [ymax < height + 1]. *)
Theorem C2_bounds_check_on_truncated_pixels
        cv2_raises f et sx sy obj (w : world) (qx0 qy0 qx1 qy1 : Q) :
  0 <= shape0 f -> 0 <= shape1 f ->
  F64.value (xmin (scale (bbox obj) sx sy)) = Some qx0 ->
  F64.value (ymin (scale (bbox obj) sx sy)) = Some qy0 ->
  F64.value (xmax (scale (bbox obj) sx sy)) = Some qx1 ->
  F64.value (ymax (scale (bbox obj) sx sy)) = Some qy1 ->
  let b := mkBBox (F64.Qtrunc qx0) (F64.Qtrunc qy0)
                  (F64.Qtrunc qx1) (F64.Qtrunc qy1) in
  (0 <= xmin b /\ 0 <= ymin b /\ xmax b <= shape1 f /\ ymax b <= shape0 f ->
   corpo cv2_raises f et sx sy obj w = disegna_box cv2_raises f obj et b w)
  /\
  (xmin b < 0 \/ ymin b < 0 \/ shape1 f < xmax b \/ shape0 f < ymax b ->
   corpo cv2_raises f et sx sy obj w = (Ret tt, w))
  /\
  ((0 <= xmin b /\ 0 <= ymin b /\ xmax b <= shape1 f /\ ymax b <= shape0 f)
   <->
   ((-1 < qx0)%Q /\ (-1 < qy0)%Q /\
    (qx1 < inject_Z (shape1 f + 1))%Q /\ (qy1 < inject_Z (shape0 f + 1))%Q)).
Proof.
  intros H0 H1 Vx0 Vy0 Vx1 Vy1 b.
  rewrite corpo_unfold,
    (pixel_interi_value obj sx sy _ _ _ _ Vx0 Vy0 Vx1 Vy1).
  fold b. split; [| split].
  - intros Hin. apply fuori_dai_bordi_false in Hin. by rewrite Hin.
  - intros Hout. apply fuori_dai_bordi_true in Hout. by rewrite Hout.
  - rewrite <- fuori_dai_bordi_false. by apply dentro_iff.
Qed.

Lemma C2_witness_scenario_box_rendered :
  corpo Esempi.opencv_affidabile Esempi.frame_1280x720 Esempi.due_etichette
    (fst Esempi.scala_1280x720) (snd Esempi.scala_1280x720)
    Esempi.oggetto_scenario []
  = disegna_box Esempi.opencv_affidabile Esempi.frame_1280x720
      Esempi.oggetto_scenario Esempi.due_etichette
      (mkBBox 85 24 256 120) [].
Proof.
  refine (proj1 (C2_bounds_check_on_truncated_pixels
                   Esempi.opencv_affidabile Esempi.frame_1280x720
                   Esempi.due_etichette
                   (fst Esempi.scala_1280x720) (snd Esempi.scala_1280x720)
                   Esempi.oggetto_scenario []
                   (6004799503160661 # 70368744177664)
                   (6755399441055744 # 281474976710656)
                   (4503599627370496 # 17592186044416)
                   (8444249301319680 # 70368744177664)
                   _ _ _ _ _ _) _).
  - simpl; lia.
  - simpl; lia.
  - vm_compute; reflexivity.
  - vm_compute; reflexivity.
  - vm_compute; reflexivity.
  - vm_compute; reflexivity.
  - vm_compute. repeat split; discriminate.
Defined.

(** C9: the check sees the truncated coordinates. If the remapped minima
    are above -1 and the remapped maxima below the frame size plus one,
    the detection is kept; a minimum strictly between -1 and 0 has become
    0 and a maximum strictly between the frame size and the frame size
    plus one has become the frame size, although the remapped value
    itself lies outside the frame. *)
Theorem C9_check_applies_after_truncation
        cv2_raises f et sx sy obj (w : world) (qx0 qy0 qx1 qy1 : Q) :
  0 <= shape0 f -> 0 <= shape1 f ->
  F64.value (xmin (scale (bbox obj) sx sy)) = Some qx0 ->
  F64.value (ymin (scale (bbox obj) sx sy)) = Some qy0 ->
  F64.value (xmax (scale (bbox obj) sx sy)) = Some qx1 ->
  F64.value (ymax (scale (bbox obj) sx sy)) = Some qy1 ->
  (-1 < qx0)%Q -> (-1 < qy0)%Q ->
  (qx1 < inject_Z (shape1 f + 1))%Q -> (qy1 < inject_Z (shape0 f + 1))%Q ->
  exists b,
    pixel_interi obj sx sy = Ret b /\
    fuori_dai_bordi f b = false /\
    corpo cv2_raises f et sx sy obj w = disegna_box cv2_raises f obj et b w /\
    ((qx0 < 0)%Q -> xmin b = 0) /\
    ((qy0 < 0)%Q -> ymin b = 0) /\
    ((inject_Z (shape1 f) < qx1)%Q -> xmax b = shape1 f) /\
    ((inject_Z (shape0 f) < qy1)%Q -> ymax b = shape0 f).
Proof.
  intros H0 H1 Vx0 Vy0 Vx1 Vy1 Lx0 Ly0 Lx1 Ly1.
  eexists. split; [by apply pixel_interi_value |].
  assert (Hin : fuori_dai_bordi f
                  (mkBBox (F64.Qtrunc qx0) (F64.Qtrunc qy0)
                          (F64.Qtrunc qx1) (F64.Qtrunc qy1)) = false)
    by (apply dentro_iff; auto).
  split; [exact Hin |]. split.
  - rewrite corpo_unfold,
      (pixel_interi_value obj sx sy _ _ _ _ Vx0 Vy0 Vx1 Vy1), Hin.
    reflexivity.
  - simpl. repeat split; intros Hq.
    + by apply Qtrunc_neg_fraction.
    + by apply Qtrunc_neg_fraction.
    + apply Qtrunc_bound; auto. by apply Qlt_le_weak.
    + apply Qtrunc_bound; auto. by apply Qlt_le_weak.
Qed.

Lemma C9_witness_overshoot_kept :
  exists b,
    pixel_interi Esempi.oggetto_debordante
      (fst Esempi.scala_160x120) (snd Esempi.scala_160x120) = Ret b /\
    fuori_dai_bordi Esempi.frame_160x120 b = false /\
    xmin b = 0 /\ ymin b = 0 /\ xmax b = 160 /\ ymax b = 120.
Proof.
  destruct (C9_check_applies_after_truncation
              Esempi.opencv_affidabile Esempi.frame_160x120
              Esempi.due_etichette
              (fst Esempi.scala_160x120) (snd Esempi.scala_160x120)
              Esempi.oggetto_debordante []
              (-4803839602528529 # 9007199254740992)
              (-7205759403792794 # 18014398509481984)
              (5648264532660497 # 35184372088832)
              (8472396798990746 # 70368744177664))
    as (b & Hb & Hin & _ & Hx0 & Hy0 & Hx1 & Hy1);
    try (vm_compute; reflexivity); try (simpl; lia).
  exists b. repeat split; auto.
  - apply Hx0. reflexivity.
  - apply Hy0. reflexivity.
  - apply Hx1. reflexivity.
  - apply Hy1. reflexivity.
Defined.

End BoundsCheck.

(** ** Errors while rendering (claims C3 and C10) *)

Section RenderingErrors.

Import Disegno.

(** C3, as stated, fails. Two detections of the 1280x720 scenario, both
    inside the frame, and an OpenCV whose first call raises: the handler
    logs the error and nothing else happens, although the body run on the
    second detection right after the error would have rendered it. The
    same holds for an error of the remapping itself: a left edge that
    remaps to an infinity makes [int()] raise OverflowError, and the
    detection after it is not drawn. The error ends the whole [for]. *)
Lemma C3_counterexample_remaining_detections_lost :
  (disegna_risultati Esempi.opencv_primo_fallisce Esempi.frame_1280x720
     [Esempi.oggetto_scenario; Esempi.oggetto_secondo] Esempi.due_etichette
     (fst Esempi.scala_1280x720) (snd Esempi.scala_1280x720) []
   = (Ret Esempi.frame_1280x720,
      [Printed (errore_disegno (OtherError "cv2.error"))]) /\
   corpo Esempi.opencv_primo_fallisce Esempi.frame_1280x720
     Esempi.due_etichette
     (fst Esempi.scala_1280x720) (snd Esempi.scala_1280x720)
     Esempi.oggetto_secondo
     [Printed (errore_disegno (OtherError "cv2.error"))]
   = (Ret tt,
      [Printed (errore_disegno (OtherError "cv2.error"));
       Done (rectangle Esempi.frame_1280x720 (426, 240) (853, 480)
               (0, 255, 0) 2);
       Done (putText Esempi.frame_1280x720
               (etichetta_testo "bicycle"
                  (F64.mul SOGLIA_CONFIDENZA_DEFAULT (F64.of_int 100)))
               (426, 230) (0, 255, 0) 2)]))
  /\
  (pixel_interi Esempi.oggetto_smisurato
     (fst Esempi.scala_1280x720) (snd Esempi.scala_1280x720)
   = Raise OverflowError /\
   disegna_risultati Esempi.opencv_affidabile Esempi.frame_1280x720
     [Esempi.oggetto_scenario] Esempi.due_etichette
     (fst Esempi.scala_1280x720) (snd Esempi.scala_1280x720) []
   = (Ret Esempi.frame_1280x720,
      [Done (rectangle Esempi.frame_1280x720 (85, 24) (256, 120)
               (0, 255, 0) 2);
       Done (putText Esempi.frame_1280x720
               (etichetta_testo "person"
                  (F64.mul SOGLIA_CONFIDENZA_DEFAULT (F64.of_int 100)))
               (85, 14) (0, 255, 0) 2)]) /\
   disegna_risultati Esempi.opencv_affidabile Esempi.frame_1280x720
     [Esempi.oggetto_smisurato; Esempi.oggetto_scenario] Esempi.due_etichette
     (fst Esempi.scala_1280x720) (snd Esempi.scala_1280x720) []
   = (Ret Esempi.frame_1280x720, [Printed (errore_disegno OverflowError)])).
Proof.
  assert (E1 : pixel_interi Esempi.oggetto_smisurato
                 (fst Esempi.scala_1280x720) (snd Esempi.scala_1280x720)
               = Raise OverflowError) by (vm_compute; reflexivity).
  assert (E2 : pixel_interi Esempi.oggetto_scenario
                 (fst Esempi.scala_1280x720) (snd Esempi.scala_1280x720)
               = Ret (mkBBox 85 24 256 120)) by (vm_compute; reflexivity).
  assert (E3 : pixel_interi Esempi.oggetto_secondo
                 (fst Esempi.scala_1280x720) (snd Esempi.scala_1280x720)
               = Ret (mkBBox 426 240 853 480)) by (vm_compute; reflexivity).
  split; [split | split; [exact E1 | split]].
  - rewrite disegna_risultati_unfold, ciclo_cons, corpo_unfold, E2.
    reflexivity.
  - rewrite corpo_unfold, E3. reflexivity.
  - rewrite disegna_risultati_unfold, ciclo_cons, corpo_unfold, E2.
    change (fuori_dai_bordi Esempi.frame_1280x720 (mkBBox 85 24 256 120))
      with false.
    rewrite disegna_box_affidabile. reflexivity.
  - rewrite disegna_risultati_unfold, ciclo_cons, corpo_unfold, E1.
    reflexivity.
Qed.

Variable cv2_raises : world -> cv2_call -> option exn.

(** After [disegna_risultati] has returned, the iteration goes on with
    the status overlay and the key handling. *)
Lemma iterazione_dopo_disegno cfg s i (w w' : world) f' :
  Main.letto i = true ->
  disegna_risultati cv2_raises
    (Main.copy (Main.frame_nativo i) (Main.addr_copia i))
    (Main.get_objects i (Main.soglia_attuale s))
    (Main.etichette cfg) (Main.scale_x cfg) (Main.scale_y cfg) w
  = (Ret f', w') ->
  Main.iterazione cv2_raises cfg s i w =
  (let! fps' := Main.overlay cv2_raises cfg s i
                  (Main.get_objects i (Main.soglia_attuale s)) f' in
   Main.gestione_tasti cv2_raises s i fps' f')%py w'.
Proof.
  intros Hl Hd. unfold Main.iterazione. rewrite Hl.
  change (negb true) with false. cbv iota.
  unfold bind at 1. rewrite Hd. reflexivity.
Qed.

(** C3, amended: when the body raises on a detection, after the
    detections before it were processed, [disegna_risultati] catches the
    error, logs it and returns the frame with what was drawn up to the
    [raise]; the detections after it are not processed, whatever they
    are. The iteration of the frame loop then continues with the overlay
    and the key handling: the error does not end the frame loop. *)
Theorem C3_error_ends_the_detection_loop_only
        f et sx sy (prima dopo : list Object) obj e (w w1 w2 : world) :
  ciclo cv2_raises f et sx sy prima w = (Ret tt, w1) ->
  corpo cv2_raises f et sx sy obj w1 = (Raise e, w2) ->
  disegna_risultati cv2_raises f (prima ++ obj :: dopo) et sx sy w
  = (Ret f, w2 ++ [Printed (errore_disegno e)])
  /\
  forall cfg s i,
    Main.letto i = true ->
    Main.copy (Main.frame_nativo i) (Main.addr_copia i) = f ->
    Main.get_objects i (Main.soglia_attuale s) = prima ++ obj :: dopo ->
    Main.etichette cfg = et -> Main.scale_x cfg = sx ->
    Main.scale_y cfg = sy ->
    Main.iterazione cv2_raises cfg s i w =
    (let! fps' := Main.overlay cv2_raises cfg s i (prima ++ obj :: dopo) f in
     Main.gestione_tasti cv2_raises s i fps' f)%py
      (w2 ++ [Printed (errore_disegno e)]).
Proof.
  intros Hpre Hobj.
  assert (Hd : disegna_risultati cv2_raises f (prima ++ obj :: dopo)
                 et sx sy w
               = (Ret f, w2 ++ [Printed (errore_disegno e)])).
  { rewrite disegna_risultati_unfold, ciclo_app, Hpre, ciclo_cons, Hobj.
    reflexivity. }
  split; [exact Hd |].
  intros cfg s i Hl Hf Ho Het Hsx Hsy.
  rewrite (iterazione_dopo_disegno cfg s i w
             (w2 ++ [Printed (errore_disegno e)]) f Hl).
  - rewrite Ho. reflexivity.
  - rewrite Hf, Ho, Het, Hsx, Hsy. exact Hd.
Qed.

(** C10: [disegna_risultati] always returns, and returns the frame it
    was given; the world it leaves extends the one it found. *)
Theorem C10_disegna_risultati_returns_its_frame
        f oggetti et sx sy (w : world) :
  exists w',
    disegna_risultati cv2_raises f oggetti et sx sy w = (Ret f, w') /\
    w `prefix_of` w'.
Proof.
  rewrite disegna_risultati_unfold.
  destruct (ciclo cv2_raises f et sx sy oggetti w) as [[[] | e] w'] eqn:E.
  - exists w'. split; [reflexivity | eapply ciclo_prefix, E].
  - exists (w' ++ [Printed (errore_disegno e)]). split; [reflexivity |].
    trans w'; [eapply ciclo_prefix, E | by apply prefix_app_r].
Qed.

End RenderingErrors.

Lemma C3_witness_error_on_first_detection :
  Disegno.disegna_risultati Esempi.opencv_affidabile Esempi.frame_1280x720
    ([] ++ Esempi.oggetto_smisurato :: [Esempi.oggetto_scenario])
    Esempi.due_etichette
    (fst Esempi.scala_1280x720) (snd Esempi.scala_1280x720) []
  = (Ret Esempi.frame_1280x720,
     [] ++ [Disegno.Printed (Disegno.errore_disegno OverflowError)]).
Proof.
  refine (proj1 (C3_error_ends_the_detection_loop_only
                   Esempi.opencv_affidabile Esempi.frame_1280x720
                   Esempi.due_etichette
                   (fst Esempi.scala_1280x720) (snd Esempi.scala_1280x720)
                   [] [Esempi.oggetto_scenario] Esempi.oggetto_smisurato
                   OverflowError [] [] [] _ _)).
  - reflexivity.
  - vm_compute; reflexivity.
Defined.

(** ** Label lookup (claim C7) *)

Section LabelLookup.

Import Etichette.

(** What [enumera] leaves in the dictionary: indices from [i] on hold
    the stripped lines, the others are as before. *)
Lemma enumera_lookup (lines : list string) :
  forall (i : Z) (m : gmap Z string) (k : Z),
    enumera i lines m !! k =
    if decide (i <= k < i + Z.of_nat (List.length lines))
    then strip <$> lines !! Z.to_nat (k - i)
    else m !! k.
Proof.
  induction lines as [| line rest IH]; intros i m k; simpl enumera.
  - case_decide; [simpl in *; lia | reflexivity].
  - rewrite IH. simpl List.length.
    destruct (decide (i = k)) as [-> | Hne].
    + rewrite decide_False by lia.
      rewrite decide_True by lia.
      rewrite lookup_insert_eq, Z.sub_diag. reflexivity.
    + rewrite lookup_insert_ne by done.
      repeat case_decide; try lia; try reflexivity.
      replace (Z.to_nat (k - i)) with (Datatypes.S (Z.to_nat (k - (i + 1))))
        by lia.
      reflexivity.
Qed.

(** C7: with the table loaded from any file, the lookup of an index
    outside [0, number of lines) gives the placeholder, as a plain value;
    a detection with such an index is rendered with the placeholder as its
    class name. *)
Theorem C7_unmapped_index_gives_placeholder
        (lines : list string) (etichette : gmap Z string) (id : Z) :
  carica_etichette (Ret lines) = Some etichette ->
  id < 0 \/ Z.of_nat (List.length lines) <= id ->
  get etichette id "Sconosciuto" = "Sconosciuto" /\
  forall f sc bb (b : Disegno.BBox Z) (w : Disegno.world),
    Disegno.disegna_box Esempi.opencv_affidabile f
      (Disegno.mkObject id sc bb) etichette b w
    = (Ret tt,
       w ++ [Disegno.Done
               (Disegno.rectangle f (Disegno.xmin b, Disegno.ymin b)
                  (Disegno.xmax b, Disegno.ymax b) (0, 255, 0) 2);
             Disegno.Done
               (Disegno.putText f
                  (Disegno.etichetta_testo "Sconosciuto"
                     (F64.mul sc (F64.of_int 100)))
                  (Disegno.xmin b,
                   if Disegno.ymin b - 10 <? 10 then Disegno.ymin b + 20
                   else Disegno.ymin b - 10)
                  (0, 255, 0) 2)]).
Proof.
  intros [= <-] Hid.
  assert (Hget : get (enumera 0 lines ∅) id "Sconosciuto" = "Sconosciuto").
  { unfold get. rewrite enumera_lookup, decide_False by lia.
    rewrite lookup_empty. reflexivity. }
  split; [exact Hget |].
  intros f sc bb b w. rewrite disegna_box_affidabile.
  cbn [Disegno.id Disegno.score]. rewrite Hget. reflexivity.
Qed.

Lemma C7_witness_index_90_of_two_labels :
  get Esempi.due_etichette 90 "Sconosciuto" = "Sconosciuto".
Proof.
  apply (C7_unmapped_index_gives_placeholder ["person"; "bicycle"]).
  - reflexivity.
  - right. simpl. lia.
Defined.

End LabelLookup.

(** ** The debug toggle (claim C8) *)

Section DebugToggle.

Import Disegno Main.

Variable cv2_raises : world -> cv2_call -> option exn.






End DebugToggle.


(** ** The capability prober (claim C6) *)

Section ProberProperties.

Import Prober.

Lemma res_eqb_eq (a b : Z * Z) : res_eqb a b = true <-> a = b.
Proof.
  destruct a as [a1 a2], b as [b1 b2]. unfold res_eqb. simpl.
  rewrite andb_true_iff, !Z.eqb_eq. split; [intros [-> ->] | intros [= -> ->]];
    auto.
Qed.

Lemma res_in_elem_of (r : Z * Z) (l : list (Z * Z)) :
  res_in r l = true <-> r ∈ l.
Proof.
  unfold res_in. rewrite existsb_exists, list_elem_of_In. split.
  - intros (x & Hx & Heq). apply res_eqb_eq in Heq. by subst.
  - intros Hr. exists r. split; [done | by apply res_eqb_eq].
Qed.

Context {S : Type} `{VideoCapture S}.

(** The device reports finite numbers. *)
Hypothesis finite_reads :
  forall (s : S) (p : prop), F64.is_finite (cap_get s p) = true.

Lemma legge_finite (s : S) : exists w h, legge s = Ret (w, h).
Proof.
  unfold legge.
  destruct (to_int_finite _ (finite_reads s CAP_PROP_FRAME_WIDTH)) as [w ->].
  destruct (to_int_finite _ (finite_reads s CAP_PROP_FRAME_HEIGHT)) as [h ->].
  eauto.
Qed.

(** Reading both dimensions, as the code does. *)
Lemma get_int_pair (s : S) (w h : Z) :
  legge s = Ret (w, h) ->
  get_int CAP_PROP_FRAME_WIDTH s = (Ret w, s) /\
  get_int CAP_PROP_FRAME_HEIGHT s = (Ret h, s).
Proof.
  unfold legge, get_int, bind, get, lift.
  destruct (F64.to_int (cap_get s CAP_PROP_FRAME_WIDTH)) as [w' | e];
    destruct (F64.to_int (cap_get s CAP_PROP_FRAME_HEIGHT)) as [h' | e'];
    intros [= -> ->]; auto.
Qed.

(** One candidate: the list grows by at most the candidate, and only by
    an echoed one that is not in it yet. *)
Lemma prova_spec (s0 s : S) (d : Z * Z) (l : list (Z * Z)) (wh : Z * Z) :
  raggiungibile s0 s ->
  exists l' s',
    prova d l wh s = (Ret l', s') /\
    raggiungibile s0 s' /\
    (l' = l \/ (l' = (l ++ [wh]) /\ (wh ∉ l) /\ echoed s0 wh)).
Proof.
  intros Hs. destruct wh as [w h]. unfold prova.
  destruct (res_eqb (w, h) d); [exists l, s; auto |].
  unfold bind at 1, set at 1. unfold bind at 1, set at 1.
  set (s2 := cap_set (cap_set s CAP_PROP_FRAME_WIDTH w)
                     CAP_PROP_FRAME_HEIGHT h).
  assert (Hs2 : raggiungibile s0 s2) by (do 2 apply ragg_set; exact Hs).
  destruct (legge_finite s2) as (aw & ah & Hleg).
  destruct (get_int_pair s2 aw ah Hleg) as [Hw Hh].
  unfold bind at 1. rewrite Hw. unfold bind at 1. rewrite Hh.
  destruct ((aw =? w) && (ah =? h)) eqn:Heq; [| exists l, s2; auto].
  apply andb_true_iff in Heq as [->%Z.eqb_eq ->%Z.eqb_eq].
  destruct (res_in (w, h) l) eqn:Hin; simpl negb; cbv iota.
  - exists l, s2. auto.
  - exists (l ++ [(w, h)]), s2. split; [reflexivity |].
    split; [exact Hs2 |]. right. split; [reflexivity |]. split.
    + rewrite <- res_in_elem_of. congruence.
    + exists s. split; [exact Hs | exact Hleg].
Qed.

(** The candidates one after the other. *)
Lemma testa_spec (s0 : S) (d : Z * Z) (cands : list (Z * Z)) :
  forall (s : S) (l : list (Z * Z)),
    raggiungibile s0 s -> NoDup l ->
    exists extra s',
      testa d cands l s = (Ret (l ++ extra), s') /\
      raggiungibile s0 s' /\
      NoDup (l ++ extra) /\
      forall r, r ∈ extra -> r ∈ cands /\ echoed s0 r.
Proof.
  induction cands as [| wh rest IH]; intros s l Hs Hnd; simpl testa.
  - exists [], s. rewrite app_nil_r.
    split; [reflexivity |]. split; [exact Hs |]. split; [exact Hnd |].
    intros r Hr. by apply elem_of_nil in Hr.
  - destruct (prova_spec s0 s d l wh Hs) as (l1 & s1 & Hp & Hs1 & Hl1).
    unfold bind at 1. rewrite Hp.
    destruct Hl1 as [-> | (-> & Hnin & Hecho)].
    + destruct (IH s1 l Hs1 Hnd) as (extra & s' & Ht & Hs' & Hnd' & Hex).
      exists extra, s'.
      split; [exact Ht |]. split; [exact Hs' |]. split; [exact Hnd' |].
      intros r Hr. split; [| by apply Hex].
      apply elem_of_cons. right. by apply Hex.
    + assert (Hnd1 : NoDup (l ++ [wh])).
      { apply NoDup_app. repeat split; auto.
        - intros x Hx Hx'. apply list_elem_of_singleton in Hx'. by subst.
        - apply NoDup_singleton. }
      destruct (IH s1 (l ++ [wh]) Hs1 Hnd1)
        as (extra & s' & Ht & Hs' & Hnd' & Hex).
      exists (wh :: extra), s'.
      rewrite <- app_assoc in Ht, Hnd'. simpl in Ht, Hnd'.
      split; [exact Ht |]. split; [exact Hs' |]. split; [exact Hnd' |].
      intros r Hr. apply elem_of_cons in Hr as [-> | Hr].
      * split; [apply elem_of_cons; by left | exact Hecho].
      * split; [| by apply Hex].
        apply elem_of_cons. right. by apply Hex.
Qed.

End ProberProperties.

Lemma webcam_finite_reads (s : Prober.webcam) (p : Prober.prop) :
  F64.is_finite (Prober.cap_get s p) = true.
Proof. destruct s as [[] v], p; reflexivity. Qed.

(** *** Any device, finite reads or not *)

Section ProberAnyDevice.

Import Prober.

Context {S : Type} `{VideoCapture S}.

Lemma to_int_raise (x : float) (e : exn) :
  F64.to_int x = Raise e ->
  F64.is_finite x = false /\ (e = OverflowError \/ e = ValueError).
Proof.
  destruct x as [[] | [] | | [] m ex]; simpl; intros [=]; subst; auto.
Qed.

Lemma lettura_non_finita_intro (s0 s : S) (p : prop) (e : exn) :
  raggiungibile s0 s -> F64.to_int (cap_get s p) = Raise e ->
  lettura_non_finita s0 e.
Proof.
  intros Hs [Hf He]%to_int_raise. split; [exact He |]. by exists s, p.
Qed.

(** One candidate on any device. *)
Lemma prova_casi (s0 s : S) (d : Z * Z) (l : list (Z * Z)) (wh : Z * Z) :
  raggiungibile s0 s ->
  exists r s',
    prova d l wh s = (r, s') /\
    raggiungibile s0 s' /\
    match r with
    | Ret l' => l' = l \/ (l' = (l ++ [wh]) /\ (wh ∉ l) /\ echoed s0 wh)
    | Raise e => lettura_non_finita s0 e
    end.
Proof.
  intros Hs. destruct wh as [w h]. unfold prova.
  destruct (res_eqb (w, h) d); [exists (Ret l), s; auto |].
  unfold bind at 1, set at 1. unfold bind at 1, set at 1.
  set (s2 := cap_set (cap_set s CAP_PROP_FRAME_WIDTH w)
                     CAP_PROP_FRAME_HEIGHT h).
  assert (Hs2 : raggiungibile s0 s2) by (do 2 apply ragg_set; exact Hs).
  unfold bind at 1, get_int at 1, bind at 1, get at 1, lift at 1.
  destruct (F64.to_int (cap_get s2 CAP_PROP_FRAME_WIDTH)) as [aw | e] eqn:Ew.
  2: { exists (Raise e), s2. split; [reflexivity |]. split; [exact Hs2 |].
       by eapply lettura_non_finita_intro. }
  unfold bind at 1, get_int at 1, bind at 1, get at 1, lift at 1.
  destruct (F64.to_int (cap_get s2 CAP_PROP_FRAME_HEIGHT)) as [ah | e] eqn:Eh.
  2: { exists (Raise e), s2. split; [reflexivity |]. split; [exact Hs2 |].
       by eapply lettura_non_finita_intro. }
  destruct ((aw =? w) && (ah =? h)) eqn:Heq; [| exists (Ret l), s2; auto].
  apply andb_true_iff in Heq as [->%Z.eqb_eq ->%Z.eqb_eq].
  destruct (res_in (w, h) l) eqn:Hin; simpl negb; cbv iota.
  - exists (Ret l), s2. auto.
  - exists (Ret (l ++ [(w, h)])), s2. split; [reflexivity |].
    split; [exact Hs2 |]. right. split; [reflexivity |]. split.
    + rewrite <- res_in_elem_of. congruence.
    + exists s. split; [exact Hs |]. unfold legge, richiede. simpl fst.
      simpl snd. fold s2. by rewrite Ew, Eh.
Qed.

(** The candidates one after the other, on any device. *)
Lemma testa_casi (s0 : S) (d : Z * Z) (cands : list (Z * Z)) :
  forall (s : S) (l : list (Z * Z)),
    raggiungibile s0 s -> NoDup l ->
    exists r s',
      testa d cands l s = (r, s') /\
      raggiungibile s0 s' /\
      match r with
      | Ret l' =>
          exists extra, l' = l ++ extra /\ NoDup (l ++ extra) /\
                        forall x, x ∈ extra -> x ∈ cands /\ echoed s0 x
      | Raise e => lettura_non_finita s0 e
      end.
Proof.
  induction cands as [| wh rest IH]; intros s l Hs Hnd; simpl testa.
  - exists (Ret l), s. split; [reflexivity |]. split; [exact Hs |].
    exists []. rewrite app_nil_r. split; [reflexivity |].
    split; [exact Hnd |]. intros x Hx. by apply elem_of_nil in Hx.
  - destruct (prova_casi s0 s d l wh Hs) as (r1 & s1 & Hp & Hs1 & Hr1).
    unfold bind at 1. rewrite Hp.
    destruct r1 as [l1 | e]; [| by exists (Raise e), s1].
    assert (Hnd1 : NoDup l1).
    { destruct Hr1 as [-> | (-> & Hnin & _)]; [exact Hnd |].
      apply NoDup_app. repeat split; auto.
      - intros x Hx Hx'. apply list_elem_of_singleton in Hx'. by subst.
      - apply NoDup_singleton. }
    destruct (IH s1 l1 Hs1 Hnd1) as (r & s' & Ht & Hs' & Hr).
    exists r, s'. split; [exact Ht |]. split; [exact Hs' |].
    destruct r as [l' | e]; [| exact Hr].
    destruct Hr as (extra & -> & Hnd' & Hex).
    destruct Hr1 as [-> | (-> & Hnin & Hecho)].
    + exists extra. split; [reflexivity |]. split; [exact Hnd' |].
      intros x Hx. split; [| by apply Hex].
      apply elem_of_cons. right. by apply Hex.
    + exists (wh :: extra). rewrite <- app_assoc in Hnd' |- *.
      split; [reflexivity |]. split; [exact Hnd' |].
      intros x Hx. apply elem_of_cons in Hx as [-> | Hx].
      * split; [apply elem_of_cons; by left | exact Hecho].
      * split; [| by apply Hex].
        apply elem_of_cons. right. by apply Hex.
Qed.

(** C6, amended: on any device the prober either returns a list or lets
    the exception of [int()] escape, which happens only when the device
    reports an infinity or a NaN. A returned list starts with the
    resolution read at the start, has no duplicates, and every further
    element is one of the candidates and was echoed by the device when
    it was requested. The last thing the prober does to the device is to
    request the resolution read at the start, width and then height:
    the device is left in the state that this request puts it in,
    whether or not that is its original resolution. *)
Theorem C6_prober_list_and_restore_request (s0 : S) :
  exists (r : outcome (list (Z * Z))) (s1 : S),
    trova_risoluzioni_supportate s0 = (r, s1) /\
    raggiungibile s0 s1 /\
    match r with
    | Ret l =>
        exists (default_res : Z * Z) (altre : list (Z * Z)) (s' : S),
          legge s0 = Ret default_res /\
          l = default_res :: altre /\
          NoDup l /\
          (forall x, x ∈ altre ->
                     x ∈ risoluzioni_da_testare /\ echoed s0 x) /\
          raggiungibile s0 s' /\
          s1 = richiede s' default_res
    | Raise e => lettura_non_finita s0 e
    end /\
    ((forall (s : S) (p : prop), F64.is_finite (cap_get s p) = true) ->
     exists l, r = Ret l).
Proof.
  assert (Hfin : forall (r : outcome (list (Z * Z))) (s1 : S),
             match r with
             | Ret _ => True
             | Raise e => lettura_non_finita s0 e
             end ->
             (forall (s : S) (p : prop), F64.is_finite (cap_get s p) = true) ->
             exists l, r = Ret l).
  { intros [l | e] s1 Hr Hf; [by exists l |].
    destruct Hr as (_ & s & p & _ & Hnf). by rewrite Hf in Hnf. }
  unfold trova_risoluzioni_supportate.
  unfold bind at 1, get_int at 1, bind at 1, get at 1, lift at 1.
  destruct (F64.to_int (cap_get s0 CAP_PROP_FRAME_WIDTH)) as [dw | e] eqn:Ew.
  2: { assert (Hl : lettura_non_finita s0 e)
         by (eapply lettura_non_finita_intro; [apply ragg_inizio | exact Ew]).
       exists (Raise e), s0. split; [reflexivity |].
       split; [apply ragg_inizio |]. split; [exact Hl |].
       by apply (Hfin (Raise e) s0). }
  unfold bind at 1, get_int at 1, bind at 1, get at 1, lift at 1.
  destruct (F64.to_int (cap_get s0 CAP_PROP_FRAME_HEIGHT)) as [dh | e] eqn:Eh.
  2: { assert (Hl : lettura_non_finita s0 e)
         by (eapply lettura_non_finita_intro; [apply ragg_inizio | exact Eh]).
       exists (Raise e), s0. split; [reflexivity |].
       split; [apply ragg_inizio |]. split; [exact Hl |].
       by apply (Hfin (Raise e) s0). }
  destruct (testa_casi s0 (dw, dh) risoluzioni_da_testare s0 [(dw, dh)])
    as (r & s' & Ht & Hs' & Hr).
  { apply ragg_inizio. }
  { apply NoDup_singleton. }
  unfold bind at 1. rewrite Ht.
  destruct r as [l | e].
  - destruct Hr as (altre & -> & Hnd & Hex).
    exists (Ret ([(dw, dh)] ++ altre)), (richiede s' (dw, dh)).
    split; [reflexivity |].
    split; [unfold richiede; do 2 apply ragg_set; exact Hs' |].
    split; [| intros _; by eexists].
    exists (dw, dh), altre, s'.
    split; [unfold legge; by rewrite Ew, Eh |].
    split; [reflexivity |]. split; [exact Hnd |].
    split; [exact Hex |]. split; [exact Hs' | reflexivity].
  - exists (Raise e), s'. split; [reflexivity |]. split; [exact Hs' |].
    split; [exact Hr |]. by apply (Hfin (Raise e) s').
Qed.

End ProberAnyDevice.

Lemma C6_witness_three_mode_webcam :
  exists (altre : list (Z * Z)) (s1 : Prober.webcam),
    Prober.trova_risoluzioni_supportate (Prober.mkWebcam Prober.QVGA 0)
    = (Ret ((320, 240) :: altre), s1) /\
    NoDup ((320, 240) :: altre) /\
    Prober.legge s1 = Ret (320, 240).
Proof.
  destruct (C6_prober_list_and_restore_request
              (Prober.mkWebcam Prober.QVGA 0))
    as (r & s1 & Hrun & _ & Hr & Hfin).
  destruct (Hfin webcam_finite_reads) as [l ->].
  destruct Hr as (d & altre & s' & Hleg & -> & Hnd & _ & _ & ->).
  assert (Hd : d = (320, 240)).
  { change (Prober.legge (Prober.mkWebcam Prober.QVGA 0))
      with (@Ret (Z * Z) (320, 240)) in Hleg.
    congruence. }
  subst d. exists altre, (Prober.richiede s' (320, 240)).
  split; [exact Hrun |]. split; [exact Hnd |].
  destruct s' as [m v]. reflexivity.
Defined.

(** C6, as stated, fails: a device need not honour the last request. The
    camera that starts at 352x288 and accepts 640x480 and 1280x720 only
    reports finite numbers throughout; the prober returns the list
    352x288, 640x480, 1280x720 and leaves the camera at 1280x720, the
    last candidate that it accepted. *)
Lemma C6_counterexample_default_not_restored :
  exists s1 : Senza_ritorno.camera,
    Prober.legge (Senza_ritorno.mkCamera Senza_ritorno.CIF 0)
    = Ret (352, 288) /\
    Prober.trova_risoluzioni_supportate
      (Senza_ritorno.mkCamera Senza_ritorno.CIF 0)
    = (Ret [(352, 288); (640, 480); (1280, 720)], s1) /\
    Prober.legge s1 = Ret (1280, 720) /\
    forall (s : Senza_ritorno.camera) (p : Prober.prop),
      F64.is_finite (Prober.cap_get s p) = true.
Proof.
  eexists. split; [reflexivity |]. split; [vm_compute; reflexivity |].
  split; [reflexivity |]. intros [[] v] []; reflexivity.
Qed.

(** ** Scale factors and remapping (claims C1, C4 and C5) *)

Section ScaleFactors.

Import Disegno Main.

(** C5: for 1280x720 over 300x300 the factors are the binary64 numbers
    nearest to 64/15 and 12/5: 4.2667 and 2.4 to the digits shown, and
    within 2^-52 of the exact quotients. The box (20,10)-(60,50) remaps
    to 85.33 (to the digits shown; within 2^-45 of 256/3), 24 exactly,
    256 exactly and 120 exactly; the pixels drawn are
    (85,24)-(256,120). *)
Theorem C5_scenario_1280x720_over_300x300 :
  let sx := fst (fattori_di_scala 1280 720 (300, 300)) in
  let sy := snd (fattori_di_scala 1280 720 (300, 300)) in
  let b := scale (mkBBox 20 10 60 50) sx sy in
  (F64.vicino sx (42667 # 10000) (1 # 20000) = true /\
   F64.vicino sx (64 # 15) (1 # 2 ^ 52) = true) /\
  (F64.vicino sy (24 # 10) (1 # 20) = true /\
   F64.vicino sy (12 # 5) (1 # 2 ^ 52) = true) /\
  (F64.vicino (xmin b) (8533 # 100) (1 # 200) = true /\
   F64.vicino (xmin b) (256 # 3) (1 # 2 ^ 45) = true) /\
  (ymin b = F64.of_int 24 /\ F64.vicino (ymin b) 24 0 = true) /\
  (xmax b = F64.of_int 256 /\ F64.vicino (xmax b) 256 0 = true) /\
  (ymax b = F64.of_int 120 /\ F64.vicino (ymax b) 120 0 = true) /\
  pixel_interi (mkObject 0 SOGLIA_CONFIDENZA_DEFAULT (mkBBox 20 10 60 50))
               sx sy
  = Ret (mkBBox 85 24 256 120).
Proof. vm_compute. repeat split; reflexivity. Qed.

(** C4, as stated, fails. For a 2592x1944 camera and the 300x300 model
    the far corner of the model square remaps to a height above 1944
    (1944.0000000000002); for a 640x480 camera and a 416x416 model it
    remaps to a height below 480 (479.99999999999994), which [int()]
    turns into pixel 479. *)
Lemma C4_counterexample_far_corner_inexact :
  F64.gtb
    (ymax (scale (Main.box_intero (300, 300))
             (fst Esempi.scala_2592x1944) (snd Esempi.scala_2592x1944)))
    (F64.of_int 1944)
  = true /\
  F64.gtb
    (F64.of_int 480)
    (ymax (scale (Main.box_intero (416, 416))
             (fst Esempi.scala_640x480_su_416)
             (snd Esempi.scala_640x480_su_416)))
  = true /\
  F64.to_int
    (ymax (scale (Main.box_intero (416, 416))
             (fst Esempi.scala_640x480_su_416)
             (snd Esempi.scala_640x480_su_416)))
  = Ret 479.
Proof. vm_compute. repeat split; reflexivity. Qed.

End ScaleFactors.

Section ScaleFactorsGeneral.

Import Disegno Main.

(** One axis: the factor for native size [n] and model size [m], and the
    remapping of a coordinate [k] with it. *)
Lemma asse_spec (n m : Z) :
  0 < n < 2 ^ 53 -> 0 < m < 2 ^ 53 ->
  exists qs : Q,
    F64.value (F64.div (F64.of_int n) (F64.of_int m)) = Some qs /\
    (Qabs (qs * inject_Z m - inject_Z n) <= inject_Z n * (1 # 2 ^ 53))%Q /\
    (0 < qs)%Q /\
    forall k : Z,
      Z.abs k < 2 ^ 53 ->
      exists q,
        F64.value (F64.mul (F64.div (F64.of_int n) (F64.of_int m))
                           (F64.of_int k)) = Some q /\
        (Qabs (q - qs * inject_Z k)
         <= qs * inject_Z (Z.abs k) * (1 # 2 ^ 53))%Q.
Proof.
  intros Hn Hm.
  destruct (div_of_int_spec n m Hn Hm) as (mq & eq & qs & E & Hd & He & V & Hb).
  exists qs. rewrite E. split; [exact V |]. split; [exact Hb |]. split.
  - simpl in V. injection V as <-.
    destruct eq as [| p | p]; unfold Qlt; simpl; lia.
  - intros k Hk. apply mul_of_int_spec; auto. lia.
Qed.

(** The far corner of the model square comes back to the native size up
    to the two roundings. *)
Lemma andata_e_ritorno (n m : Z) (qs q : Q) :
  0 < n -> 0 < m ->
  (0 < qs)%Q ->
  (Qabs (qs * inject_Z m - inject_Z n) <= inject_Z n * (1 # 2 ^ 53))%Q ->
  (Qabs (q - qs * inject_Z m) <= qs * inject_Z (Z.abs m) * (1 # 2 ^ 53))%Q ->
  (Qabs (q - inject_Z n)
   <= inject_Z n * ((1 # 2 ^ 52) + (1 # 2 ^ 106)))%Q.
Proof.
  intros Hn Hm Hqs H1 H2. rewrite Z.abs_eq in H2 by lia.
  assert (Hnq : (0 < inject_Z n)%Q) by (unfold Qlt; simpl; lia).
  assert (Hmq : (0 < inject_Z m)%Q) by (unfold Qlt; simpl; lia).
  apply Qabs_Qle_condition in H1 as [H1a H1b].
  apply Qabs_Qle_condition in H2 as [H2a H2b].
  apply Qabs_Qle_condition.
  set (N := inject_Z n) in *. set (P := (qs * inject_Z m)%Q) in *.
  set (u := (1 # 2 ^ 53)%Q) in *.
  assert (Hu : (0 <= u)%Q) by (unfold u, Qle; simpl; lia).
  assert (HP : (P <= N + N * u)%Q).
  { apply Qplus_le_l with (z := (- N)%Q).
    setoid_replace (N + N * u + - N)%Q with (N * u)%Q using relation Qeq by ring.
    exact H1b. }
  assert (HPu : (P * u <= (N + N * u) * u)%Q) by (apply Qmult_le_compat_r; auto).
  assert (E : (N * ((1 # 2 ^ 52) + (1 # 2 ^ 106)) == N * u + (N + N * u) * u)%Q).
  { unfold u. setoid_replace (1 # 2 ^ 52)%Q with ((1 # 2 ^ 53) + (1 # 2 ^ 53))%Q
      using relation Qeq by reflexivity.
    setoid_replace (1 # 2 ^ 106)%Q with ((1 # 2 ^ 53) * (1 # 2 ^ 53))%Q
      using relation Qeq by reflexivity.
    ring. }
  rewrite E. split.
  - setoid_replace (q - N)%Q with ((q - P) + (P - N))%Q using relation Qeq
      by ring.
    setoid_replace (- (N * u + (N + N * u) * u))%Q
      with (- ((N + N * u) * u) + - (N * u))%Q using relation Qeq by ring.
    apply Qplus_le_compat; [| exact H1a].
    apply Qle_trans with (- (P * u))%Q; [| exact H2a].
    apply Qopp_le_compat. exact HPu.
  - setoid_replace (q - N)%Q with ((q - P) + (P - N))%Q using relation Qeq
      by ring.
    setoid_replace (N * u + (N + N * u) * u)%Q
      with ((N + N * u) * u + N * u)%Q using relation Qeq by ring.
    apply Qplus_le_compat; [| exact H1b].
    apply Qle_trans with (P * u)%Q; [exact H2b | exact HPu].
Qed.

Lemma vicino_intro (x : float) (q c r : Q) :
  F64.value x = Some q -> (Qabs (q - c) <= r)%Q -> F64.vicino x c r = true.
Proof.
  intros V Hb. unfold F64.vicino. rewrite V. by apply Qle_bool_iff.
Qed.

(** From the product form of the bound to the quotient form. *)
Lemma Qabs_quotient_bound (qs u : Q) (n m : Z) :
  0 < m ->
  (Qabs (qs * inject_Z m - inject_Z n) <= inject_Z n * u)%Q ->
  (Qabs (qs - inject_Z n / inject_Z m) <= inject_Z n / inject_Z m * u)%Q.
Proof.
  intros Hm Hb.
  assert (Hmq : (0 < inject_Z m)%Q) by (unfold Qlt; simpl; lia).
  assert (Hm0 : ~ (inject_Z m == 0)%Q).
  { intros E. rewrite E in Hmq. by apply Qlt_irrefl in Hmq. }
  assert (Hinv : (0 < / inject_Z m)%Q) by (by apply Qinv_lt_0_compat).
  assert (E1 : (qs - inject_Z n / inject_Z m
                == (qs * inject_Z m - inject_Z n) * / inject_Z m)%Q)
    by (field; exact Hm0).
  assert (E2 : (inject_Z n / inject_Z m * u
                == inject_Z n * u * / inject_Z m)%Q)
    by (field; exact Hm0).
  rewrite E1, E2, Qabs_Qmult.
  rewrite (Qabs_pos (/ inject_Z m)) by (by apply Qlt_le_weak).
  apply Qmult_le_compat_r; [exact Hb | by apply Qlt_le_weak].
Qed.

(** C1: the factors are the binary64 quotients of the native size by the
    model input size, axis by axis, and the loop body remaps each
    coordinate of a detection with the factor of its own axis before it
    converts it to a pixel. For sizes below 2^53 the quotient is the one
    of floating-point division: it is within 2^-53, relatively, of the
    exact ratio (integer division would be off by up to a whole unit).
    For a detection with coordinates below 2^53 the four pixels that
    [pixel_interi] computes (lines 150-158) are the truncations of four
    numbers, each within 2^-53, relatively, of the exact product of the
    coordinate and the factor of its axis: x coordinates with the factor
    of the width, y coordinates with the factor of the height. *)
Theorem C1_scale_factors_and_remap (N M : Z * Z) (obj : Object) :
  0 < fst N -> 0 < snd N -> 0 < fst M -> 0 < snd M ->
  let sx := fst (fattori_di_scala (fst N) (snd N) M) in
  let sy := snd (fattori_di_scala (fst N) (snd N) M) in
  (sx = F64.div (F64.of_int (fst N)) (F64.of_int (fst M)) /\
   sy = F64.div (F64.of_int (snd N)) (F64.of_int (snd M)))
  /\
  (fst N < 2 ^ 53 -> snd N < 2 ^ 53 -> fst M < 2 ^ 53 -> snd M < 2 ^ 53 ->
   exists qx qy : Q,
     F64.value sx = Some qx /\ F64.value sy = Some qy /\
     (Qabs (qx - inject_Z (fst N) / inject_Z (fst M))
      <= inject_Z (fst N) / inject_Z (fst M) * (1 # 2 ^ 53))%Q /\
     (Qabs (qy - inject_Z (snd N) / inject_Z (snd M))
      <= inject_Z (snd N) / inject_Z (snd M) * (1 # 2 ^ 53))%Q /\
     (Z.abs (xmin (bbox obj)) < 2 ^ 53 -> Z.abs (ymin (bbox obj)) < 2 ^ 53 ->
      Z.abs (xmax (bbox obj)) < 2 ^ 53 -> Z.abs (ymax (bbox obj)) < 2 ^ 53 ->
      exists px0 py0 px1 py1 : Q,
        F64.value (F64.mul sx (F64.of_int (xmin (bbox obj)))) = Some px0 /\
        F64.value (F64.mul sy (F64.of_int (ymin (bbox obj)))) = Some py0 /\
        F64.value (F64.mul sx (F64.of_int (xmax (bbox obj)))) = Some px1 /\
        F64.value (F64.mul sy (F64.of_int (ymax (bbox obj)))) = Some py1 /\
        (Qabs (px0 - qx * inject_Z (xmin (bbox obj)))
         <= qx * inject_Z (Z.abs (xmin (bbox obj))) * (1 # 2 ^ 53))%Q /\
        (Qabs (py0 - qy * inject_Z (ymin (bbox obj)))
         <= qy * inject_Z (Z.abs (ymin (bbox obj))) * (1 # 2 ^ 53))%Q /\
        (Qabs (px1 - qx * inject_Z (xmax (bbox obj)))
         <= qx * inject_Z (Z.abs (xmax (bbox obj))) * (1 # 2 ^ 53))%Q /\
        (Qabs (py1 - qy * inject_Z (ymax (bbox obj)))
         <= qy * inject_Z (Z.abs (ymax (bbox obj))) * (1 # 2 ^ 53))%Q /\
        pixel_interi obj sx sy =
        Ret (mkBBox (F64.Qtrunc px0) (F64.Qtrunc py0)
                    (F64.Qtrunc px1) (F64.Qtrunc py1)))).
Proof.
  intros Hnw Hnh Hmw Hmh sx sy. split; [split; reflexivity |].
  intros Bnw Bnh Bmw Bmh.
  destruct (asse_spec (fst N) (fst M) ltac:(lia) ltac:(lia))
    as (qx & Vx & Hx & _ & Rx).
  destruct (asse_spec (snd N) (snd M) ltac:(lia) ltac:(lia))
    as (qy & Vy & Hy & _ & Ry).
  exists qx, qy.
  split; [exact Vx |]. split; [exact Vy |].
  split; [by apply Qabs_quotient_bound |].
  split; [by apply Qabs_quotient_bound |].
  intros Hx0 Hy0 Hx1 Hy1.
  destruct (Rx _ Hx0) as (px0 & V0 & B0).
  destruct (Ry _ Hy0) as (py0 & V1 & B1).
  destruct (Rx _ Hx1) as (px1 & V2 & B2).
  destruct (Ry _ Hy1) as (py1 & V3 & B3).
  exists px0, py0, px1, py1.
  split; [exact V0 |]. split; [exact V1 |].
  split; [exact V2 |]. split; [exact V3 |].
  split; [exact B0 |]. split; [exact B1 |].
  split; [exact B2 |]. split; [exact B3 |].
  by apply pixel_interi_value.
Qed.

Lemma C1_witness_1280x720_over_300x300 :
  exists qx px0 : Q,
    F64.value (fst (fattori_di_scala 1280 720 (300, 300))) = Some qx /\
    (Qabs (qx - inject_Z 1280 / inject_Z 300)
     <= inject_Z 1280 / inject_Z 300 * (1 # 2 ^ 53))%Q /\
    (Qabs (px0 - qx * inject_Z 20)
     <= qx * inject_Z (Z.abs 20) * (1 # 2 ^ 53))%Q /\
    exists b,
      pixel_interi Esempi.oggetto_scenario
        (fst (fattori_di_scala 1280 720 (300, 300)))
        (snd (fattori_di_scala 1280 720 (300, 300))) = Ret b /\
      xmin b = F64.Qtrunc px0.
Proof.
  destruct (proj2 (C1_scale_factors_and_remap
                     (1280, 720) (300, 300) Esempi.oggetto_scenario
                     ltac:(simpl; lia) ltac:(simpl; lia)
                     ltac:(simpl; lia) ltac:(simpl; lia))
                  ltac:(simpl; lia) ltac:(simpl; lia)
                  ltac:(simpl; lia) ltac:(simpl; lia))
    as (qx & qy & Vx & _ & Hx & _ & Hpix).
  destruct (Hpix ltac:(simpl; lia) ltac:(simpl; lia)
                 ltac:(simpl; lia) ltac:(simpl; lia))
    as (px0 & py0 & px1 & py1 & _ & _ & _ & _ & B0 & _ & _ & _ & Hp).
  exists qx, px0. split; [exact Vx |]. split; [exact Hx |].
  split; [exact B0 |]. eexists. split; [exact Hp | reflexivity].
Defined.

(** The origin of the model square stays the origin. *)
Lemma mul_zero_of_quotient (n m : Z) :
  0 < n < 2 ^ 53 -> 0 < m < 2 ^ 53 ->
  F64.mul (F64.div (F64.of_int n) (F64.of_int m)) (F64.of_int 0)
  = S754_zero false.
Proof.
  intros Hn Hm.
  destruct (div_of_int_spec n m Hn Hm) as (mq & eq & qs & E & _).
  rewrite E. reflexivity.
Qed.

(** C4, amended: for sizes below 2^53 the model square (0,0)-(M.w,M.h)
    remaps to a rectangle whose first corner is exactly (0,0) and whose
    far corner is (N.w,N.h) up to the two roundings of the division and
    of the multiplication: each coordinate is within 2^-52 + 2^-106,
    relatively, of the native size. *)
Theorem C4_round_trip_up_to_rounding (N M : Z * Z) :
  0 < fst N < 2 ^ 53 -> 0 < snd N < 2 ^ 53 ->
  0 < fst M < 2 ^ 53 -> 0 < snd M < 2 ^ 53 ->
  let s := fattori_di_scala (fst N) (snd N) M in
  let r := scale (box_intero M) (fst s) (snd s) in
  xmin r = F64.of_int 0 /\ ymin r = F64.of_int 0 /\
  F64.vicino (xmax r) (inject_Z (fst N))
             (inject_Z (fst N) * ((1 # 2 ^ 52) + (1 # 2 ^ 106))) = true /\
  F64.vicino (ymax r) (inject_Z (snd N))
             (inject_Z (snd N) * ((1 # 2 ^ 52) + (1 # 2 ^ 106))) = true.
Proof.
  intros Hnw Hnh Hmw Hmh s r.
  split; [by apply mul_zero_of_quotient |].
  split; [by apply mul_zero_of_quotient |].
  destruct (asse_spec (fst N) (fst M) Hnw Hmw) as (qx & Vx & Hx & Px & Rx).
  destruct (asse_spec (snd N) (snd M) Hnh Hmh) as (qy & Vy & Hy & Py & Ry).
  destruct (Rx (fst M) ltac:(lia)) as (q1 & V1 & H1).
  destruct (Ry (snd M) ltac:(lia)) as (q2 & V2 & H2).
  split.
  - apply (vicino_intro _ q1); [exact V1 |].
    apply (andata_e_ritorno (fst N) (fst M) qx); auto; lia.
  - apply (vicino_intro _ q2); [exact V2 |].
    apply (andata_e_ritorno (snd N) (snd M) qy); auto; lia.
Qed.

Lemma C4_witness_2592x1944_over_300x300 :
  F64.vicino
    (ymax (scale (box_intero (300, 300))
             (fst Esempi.scala_2592x1944) (snd Esempi.scala_2592x1944)))
    (inject_Z 1944) (inject_Z 1944 * ((1 # 2 ^ 52) + (1 # 2 ^ 106)))
  = true.
Proof.
  refine (proj2 (proj2 (proj2 (C4_round_trip_up_to_rounding
                                 (2592, 1944) (300, 300) _ _ _ _))));
    simpl; lia.
Defined.

(** For the 300x300 model and each candidate resolution of the prober the
    two roundings cancel: the far corner is exactly (N.w,N.h). *)
Lemma round_trip_exact_on_candidates :
  Forall (fun N : Z * Z =>
            let s := fattori_di_scala (fst N) (snd N) (300, 300) in
            scale (box_intero (300, 300)) (fst s) (snd s)
            = mkBBox (F64.of_int 0) (F64.of_int 0)
                     (F64.of_int (fst N)) (F64.of_int (snd N)))
         Prober.risoluzioni_da_testare.
Proof. repeat constructor. Qed.

Lemma Qtrunc_ge (q : Q) (b : Z) :
  0 <= b -> (inject_Z b <= q)%Q -> b <= F64.Qtrunc q.
Proof.
  intros Hb. destruct q as [n d]. unfold F64.Qtrunc, Qle, inject_Z. simpl.
  intros Hq. rewrite Z.quot_div_nonneg by nia.
  apply Z.div_le_lower_bound; lia.
Qed.

(** The pixel that a far-corner coordinate becomes: the native size or one
    less. *)
Lemma angolo_lontano_pixel (n m : Z) :
  0 < n < 2 ^ 51 -> 0 < m < 2 ^ 53 ->
  exists z,
    F64.to_int (F64.mul (F64.div (F64.of_int n) (F64.of_int m)) (F64.of_int m))
    = Ret z /\ n - 1 <= z <= n.
Proof.
  intros Hn Hm.
  destruct (asse_spec n m ltac:(lia) Hm) as (qs & Vs & Hs & Ps & Rs).
  destruct (Rs m ltac:(lia)) as (q & V & Hq).
  pose proof (andata_e_ritorno n m qs q ltac:(lia) ltac:(lia) Ps Hs Hq) as Hb.
  apply Qabs_Qle_condition in Hb as [Hlo Hhi].
  assert (Heps : (inject_Z n * ((1 # 2 ^ 52) + (1 # 2 ^ 106)) < 1)%Q).
  { unfold Qlt, Qmult, Qplus, inject_Z. simpl Qnum. simpl Qden.
    change (2 ^ 51) with 2251799813685248 in Hn. lia. }
  exists (F64.Qtrunc q). split; [by apply to_int_value |]. split.
  - apply Qtrunc_ge; [lia |].
    apply Qplus_le_l with (z := (- inject_Z n)%Q).
    apply Qle_trans with (- (1))%Q.
    + unfold Z.sub. rewrite inject_Z_plus. simpl inject_Z at 2.
      unfold Qle, Qplus, Qopp, inject_Z. simpl. lia.
    + apply Qle_trans with (- (inject_Z n * ((1 # 2 ^ 52) + (1 # 2 ^ 106))))%Q;
        [| exact Hlo].
      apply Qopp_le_compat. by apply Qlt_le_weak.
  - apply Qtrunc_le_iff; [lia |].
    apply Qplus_lt_l with (z := (- inject_Z n)%Q).
    apply Qle_lt_trans with (inject_Z n * ((1 # 2 ^ 52) + (1 # 2 ^ 106)))%Q;
      [exact Hhi |].
    apply Qlt_le_trans with 1%Q; [exact Heps |].
    rewrite inject_Z_plus. unfold Qle, Qplus, Qopp, inject_Z. simpl. lia.
Qed.

(** A detection that fills the model square is never dropped: its pixels
    are (0,0)-(x,y) with [x] the native width or one less and [y] the
    native height or one less. *)
Lemma riquadro_intero_nei_bordi (N M : Z * Z) (a : nat) (ident : Z)
      (sc : float) :
  0 < fst N < 2 ^ 51 -> 0 < snd N < 2 ^ 51 ->
  0 < fst M < 2 ^ 53 -> 0 < snd M < 2 ^ 53 ->
  let s := fattori_di_scala (fst N) (snd N) M in
  exists x y,
    pixel_interi (mkObject ident sc (box_intero M)) (fst s) (snd s)
    = Ret (mkBBox 0 0 x y) /\
    fst N - 1 <= x <= fst N /\ snd N - 1 <= y <= snd N /\
    fuori_dai_bordi (mkFrame a (snd N) (fst N)) (mkBBox 0 0 x y) = false.
Proof.
  intros Hnw Hnh Hmw Hmh s.
  destruct (angolo_lontano_pixel (fst N) (fst M) Hnw Hmw) as (x & Ex & Hx).
  destruct (angolo_lontano_pixel (snd N) (snd M) Hnh Hmh) as (y & Ey & Hy).
  exists x, y. split; [| split; [exact Hx | split; [exact Hy |]]].
  - unfold pixel_interi, scale, s, fattori_di_scala, box_intero.
    cbn [bbox xmin ymin xmax ymax fst snd].
    rewrite !mul_zero_of_quotient by lia.
    cbn [F64.to_int]. rewrite Ex, Ey. reflexivity.
  - apply fuori_dai_bordi_false. simpl. lia.
Qed.

End ScaleFactorsGeneral.

(* ===================================================================== *)
(** * Part III. Further properties of the two scripts                    *)
(* ===================================================================== *)

(** ** The label table as a whole *)

Section LabelTable.

Import Etichette Testo.

Lemma ascii_of_n (c : ascii) (n : nat) :
  nat_of_ascii c = n -> c = ascii_of_nat n.
Proof. intros <-. symmetry. apply ascii_nat_embedding. Qed.

Lemma Py_UNICODE_ISSPACE_cases (ch : N) :
  Py_UNICODE_ISSPACE ch = true ->
  In ch [9; 10; 11; 12; 13; 28; 29; 30; 31; 32; 133; 160; 5760;
         8192; 8193; 8194; 8195; 8196; 8197; 8198; 8199; 8200; 8201; 8202;
         8232; 8233; 8239; 8287; 12288]%N.
Proof.
  unfold Py_UNICODE_ISSPACE. rewrite !orb_true_iff, !andb_true_iff.
  rewrite !N.leb_le, !N.eqb_eq. simpl. lia.
Qed.

Ltac trova_cp :=
  lazymatch goal with
  | |- spazio (String (ascii_of_nat ?a) EmptyString) =>
      exists (N.of_nat a)
  | |- spazio (String (ascii_of_nat ?a)
                 (String (ascii_of_nat ?b) EmptyString)) =>
      exists (N.of_nat ((a - 192) * 64 + (b - 128)))
  | |- spazio (String (ascii_of_nat ?a)
                 (String (ascii_of_nat ?b)
                    (String (ascii_of_nat ?c) EmptyString))) =>
      exists (N.of_nat ((a - 224) * 4096 + (b - 128) * 64 + (c - 128)))
  end;
  split; vm_compute; reflexivity.

(** The byte tests of the model are the encodings of the white-space
    code points. *)
Lemma uno_spazio_spazio (u : string) : uno_spazio u = true <-> spazio u.
Proof.
  split.
  - destruct u as [| c1 [| c2 [| c3 [| c4 r]]]]; try discriminate;
      unfold uno_spazio.
    + unfold is_space. cbv zeta. intros Hs.
      rewrite orb_true_iff, !andb_true_iff, !Nat.leb_le in Hs.
      assert (Hc : In (nat_of_ascii c1) [9; 10; 11; 12; 13; 28; 29; 30; 31; 32]%nat)
        by (simpl; lia).
      simpl in Hc.
      repeat (destruct Hc as [Hc | Hc];
              [symmetry in Hc; apply ascii_of_n in Hc; subst c1; trova_cp |]).
      destruct Hc.
    + unfold is_space2. cbv zeta. intros Hs.
      rewrite andb_true_iff, orb_true_iff, !Nat.eqb_eq in Hs.
      destruct Hs as [H1 H2].
      apply ascii_of_n in H1. subst c1.
      destruct H2 as [H2 | H2]; apply ascii_of_n in H2; subst c2; trova_cp.
    + unfold is_space3. cbv zeta. intros Hs.
      repeat (rewrite orb_true_iff in Hs || rewrite andb_true_iff in Hs).
      rewrite !Nat.eqb_eq, !Nat.leb_le in Hs.
      repeat match goal with
             | H : _ \/ _ |- _ => destruct H
             | H : _ /\ _ |- _ => destruct H
             end.
      all: try match goal with
               | Ha : (128 <= nat_of_ascii ?c)%nat,
                 Hb : (nat_of_ascii ?c <= 138)%nat |- _ =>
                   assert (Hc : In (nat_of_ascii c)
                                  [128; 129; 130; 131; 132; 133; 134; 135;
                                   136; 137; 138]%nat)
                     by (simpl; lia);
                   clear Ha Hb; simpl in Hc;
                   repeat (destruct Hc as [Hc | Hc]; [symmetry in Hc |]);
                   [.. | destruct Hc]
               end.
      all: repeat match goal with
                  | H : nat_of_ascii ?c = _ |- _ =>
                      apply ascii_of_n in H; subst c
                  end; trova_cp.
  - intros (ch & Hs & ->). apply Py_UNICODE_ISSPACE_cases in Hs.
    simpl in Hs.
    repeat (destruct Hs as [<- | Hs]; [reflexivity |]). destruct Hs.
Qed.

Lemma append_cons (c : ascii) (r s : string) :
  String.append (String c r) s = String c (String.append r s).
Proof. reflexivity. Qed.

Lemma append_nil_l (s : string) : String.append EmptyString s = s.
Proof. reflexivity. Qed.

Lemma append_assoc (a b c : string) :
  String.append (String.append a b) c = String.append a (String.append b c).
Proof.
  induction a as [| x r IH]; [reflexivity |].
  by rewrite !append_cons, IH.
Qed.

Lemma spazio_non_vuoto (u : string) : spazio u -> u <> EmptyString.
Proof. intros Hu%uno_spazio_spazio ->. discriminate. Qed.

(** A string that starts with a white-space code point starts with one
    of the byte patterns that [lstrip] tests. *)
Lemma inizia_con_spazio_byte (c1 : ascii) (r1 : string) :
  inizia_con_spazio (String c1 r1) ->
  is_space c1 = true \/
  exists c2 r2, r1 = String c2 r2 /\
    (is_space2 c1 c2 = true \/
     exists c3 r3, r2 = String c3 r3 /\ is_space3 c1 c2 c3 = true).
Proof.
  intros (u & r & Hu%uno_spazio_spazio & E).
  destruct u as [| d1 [| d2 [| d3 [| d4 u']]]]; try discriminate;
    rewrite ?append_cons, ?append_nil_l in E; injection E as -> E.
  - by left.
  - right. eauto 10.
  - right. destruct r1 as [| c2 r2]; [discriminate |].
    injection E as -> E. subst r2. eauto 10.
Qed.

Lemma lstrip_decompose_len (n : nat) :
  forall s : string,
    (String.length s < n)%nat ->
    exists a, s = String.append a (lstrip s) /\ spazi a /\
              ~ inizia_con_spazio (lstrip s).
Proof.
  induction n as [| n IH]; intros s Hn; [lia |].
  assert (Hvuota : ~ inizia_con_spazio EmptyString).
  { intros (u & r & Hu & E). apply spazio_non_vuoto in Hu.
    destruct u; [done | discriminate]. }
  assert (Hresta : forall t : string,
             lstrip t = t -> ~ inizia_con_spazio t ->
             exists a, t = String.append a (lstrip t) /\ spazi a /\
                       ~ inizia_con_spazio (lstrip t)).
  { intros t Et Ht. exists EmptyString. rewrite Et.
    split; [reflexivity |]. split; [constructor | exact Ht]. }
  assert (Hpasso : forall u r : string,
             uno_spazio u = true -> (String.length r < n)%nat ->
             lstrip (String.append u r) = lstrip r ->
             exists a, String.append u r
                       = String.append a (lstrip (String.append u r)) /\
                       spazi a /\
                       ~ inizia_con_spazio (lstrip (String.append u r))).
  { intros u r Hu Hr E. destruct (IH r Hr) as (a & Ha & Hsa & Hni).
    exists (String.append u a). rewrite E, append_assoc, <- Ha.
    split; [reflexivity |]. split; [| exact Hni].
    constructor; [by apply uno_spazio_spazio | exact Hsa]. }
  destruct s as [| c1 r1]; [by apply Hresta |].
  simpl in Hn.
  destruct (is_space c1) eqn:E1.
  { apply (Hpasso (String c1 EmptyString) r1); [exact E1 | lia |].
    rewrite append_cons, append_nil_l. simpl. by rewrite E1. }
  destruct r1 as [| c2 r2].
  { apply Hresta; [simpl; by rewrite E1 |].
    intros [? | (? & ? & ? & _)]%inizia_con_spazio_byte; congruence. }
  simpl in Hn.
  destruct (is_space2 c1 c2) eqn:E2.
  { apply (Hpasso (String c1 (String c2 EmptyString)) r2);
      [exact E2 | lia |].
    rewrite !append_cons, append_nil_l. simpl. by rewrite E1, E2. }
  destruct r2 as [| c3 r3].
  { apply Hresta; [simpl; by rewrite E1, E2 |].
    intros [? | (? & ? & [= <- <-] & [? | (? & ? & ? & _)])]
      %inizia_con_spazio_byte; congruence. }
  simpl in Hn.
  destruct (is_space3 c1 c2 c3) eqn:E3.
  { apply (Hpasso (String c1 (String c2 (String c3 EmptyString))) r3);
      [exact E3 | lia |].
    rewrite !append_cons, append_nil_l. simpl. by rewrite E1, E2, E3. }
  apply Hresta; [simpl; by rewrite E1, E2, E3 |].
  intros [? | (? & ? & [= <- <-] & [? | (? & ? & [= <- <-] & ?)])]
    %inizia_con_spazio_byte; congruence.
Qed.

Lemma lstrip_decompose (s : string) :
  exists a, s = String.append a (lstrip s) /\ spazi a /\
            ~ inizia_con_spazio (lstrip s).
Proof. apply (lstrip_decompose_len (S (String.length s))). lia. Qed.

Lemma rstrip_cons (c : ascii) (r : string) :
  rstrip (String c r) =
  if uno_spazio (String c (rstrip r)) then EmptyString
  else String c (rstrip r).
Proof. reflexivity. Qed.

Lemma rstrip_decompose (s : string) :
  exists b, s = String.append (rstrip s) b /\ spazi b /\
            ~ finisce_con_spazio (rstrip s).
Proof.
  assert (Hvuota : ~ finisce_con_spazio EmptyString).
  { intros (u & r & Hu & E). apply spazio_non_vuoto in Hu.
    destruct r; [rewrite append_nil_l in E; congruence | discriminate]. }
  induction s as [| c r IH]; [| rewrite rstrip_cons].
  - exists EmptyString. split; [reflexivity |].
    split; [constructor | exact Hvuota].
  - destruct IH as (b & Hb & Hsb & Hnf).
    destruct (uno_spazio (String c (rstrip r))) eqn:Eu.
    + exists (String.append (String c (rstrip r)) b).
      split; [by rewrite ?append_nil_l, ?append_cons, <- Hb |].
      split; [| exact Hvuota].
      constructor; [by apply uno_spazio_spazio | exact Hsb].
    + exists b. split; [by rewrite ?append_cons, <- Hb |].
      split; [exact Hsb |].
      intros (u & r0 & Hu & E).
      destruct r0 as [| c' r0'].
      * rewrite append_nil_l in E. subst u.
        apply uno_spazio_spazio in Hu. congruence.
      * rewrite append_cons in E. injection E as _ E. apply Hnf.
        by exists u, r0'.
Qed.

(** [line.strip()] removes white space at both ends and nothing else. *)
Lemma strip_spec (s : string) :
  exists a b,
    s = String.append a (String.append (strip s) b) /\
    spazi a /\ spazi b /\
    ~ inizia_con_spazio (strip s) /\ ~ finisce_con_spazio (strip s).
Proof.
  destruct (lstrip_decompose s) as (a & Ha & Hsa & Hni).
  destruct (rstrip_decompose (lstrip s)) as (b & Hb & Hsb & Hnf).
  exists a, b. unfold strip. rewrite <- Hb.
  split; [exact Ha |]. split; [exact Hsa |]. split; [exact Hsb |].
  split; [| exact Hnf].
  intros (u & r & Hu & E). apply Hni. exists u, (String.append r b).
  split; [exact Hu |]. by rewrite Hb, E, append_assoc.
Qed.

(** The number of entries: one per line. *)
Lemma enumera_size (lines : list string) :
  forall (i : Z) (m : gmap Z string),
    (forall k, i <= k -> m !! k = None) ->
    size (enumera i lines m) = (size m + List.length lines)%nat.
Proof.
  induction lines as [| line rest IH]; intros i m Hm; simpl.
  - lia.
  - rewrite IH.
    + rewrite map_size_insert_None by (apply Hm; lia). lia.
    + intros k Hk. rewrite lookup_insert_ne by lia. apply Hm. lia.
Qed.

(** X1. The table that [carica_etichette] builds from a readable file has
    one entry per line, under the line numbers from 0: index [i] holds
    line [i] stripped, and no other index is present. *)
Theorem carica_etichette_table (lines : list string)
        (etichette : gmap Z string) :
  carica_etichette (Ret lines) = Some etichette ->
  size etichette = List.length lines /\
  (forall i, 0 <= i -> etichette !! i = strip <$> lines !! Z.to_nat i) /\
  (forall i, i < 0 -> etichette !! i = None) /\
  (forall (i : Z) (line dflt : string),
      0 <= i -> lines !! Z.to_nat i = Some line ->
      get etichette i dflt = strip line).
Proof.
  intros [= <-].
  assert (Hlk : forall i, 0 <= i ->
                          enumera 0 lines ∅ !! i
                          = strip <$> lines !! Z.to_nat i).
  { intros i Hi. rewrite enumera_lookup. case_decide as Hd.
    - rewrite Z.sub_0_r. reflexivity.
    - rewrite lookup_empty. symmetry.
      rewrite (proj2 (lookup_ge_None lines (Z.to_nat i))) by lia.
      reflexivity. }
  split; [| split; [exact Hlk | split]].
  - rewrite enumera_size by (intros; apply lookup_empty).
    rewrite map_size_empty. lia.
  - intros i Hi. rewrite enumera_lookup, decide_False by lia.
    apply lookup_empty.
  - intros i line dflt Hi Hline. unfold get. rewrite Hlk, Hline by lia.
    reflexivity.
Qed.

Lemma carica_etichette_table_witness :
  size Esempi.due_etichette = 2%nat /\
  Esempi.due_etichette !! 1 = Some "bicycle".
Proof.
  destruct (carica_etichette_table ["person"; "bicycle"] Esempi.due_etichette
              eq_refl) as (Hs & Hl & _).
  split; [exact Hs | exact (Hl 1 ltac:(lia))].
Defined.

(** X2. Every label of the table is a line of the file without the
    white space at its two ends (the newline that [readlines] keeps, for
    one), where white space is what [str.isspace] accepts, in ASCII and
    beyond (U+00A0, U+2003, ...): the line is white-space code points,
    the label, white-space code points, and the label neither starts nor
    ends with a white-space code point. Strings are UTF-8 encodings. *)
Theorem carica_etichette_labels_stripped (lines : list string)
        (etichette : gmap Z string) (k : Z) (v : string) :
  carica_etichette (Ret lines) = Some etichette ->
  etichette !! k = Some v ->
  exists line a b,
    lines !! Z.to_nat k = Some line /\
    line = String.append a (String.append v b) /\
    spazi a /\ spazi b /\
    ~ inizia_con_spazio v /\ ~ finisce_con_spazio v.
Proof.
  intros [= <-] Hk. rewrite enumera_lookup in Hk.
  case_decide as Hd; [| by rewrite lookup_empty in Hk].
  rewrite Z.sub_0_r in Hk.
  destruct (lines !! Z.to_nat k) as [line |] eqn:El; [| discriminate].
  injection Hk as <-.
  destruct (strip_spec line) as (a & b & H1 & H2 & H3 & H4 & H5).
  exists line, a, b. auto 10.
Qed.

Lemma carica_etichette_labels_stripped_witness :
  exists line a b,
    [Esempi.riga_con_spazi] !! Z.to_nat 0 = Some line /\
    line = String.append a (String.append "person" b) /\
    spazi a /\ spazi b.
Proof.
  destruct (carica_etichette_labels_stripped
              [Esempi.riga_con_spazi]
              (enumera 0 [Esempi.riga_con_spazi] ∅)
              0 "person" eq_refl)
    as (line & a & b & H1 & H2 & H3 & H4 & _).
  { vm_compute. reflexivity. }
  exists line, a, b. auto.
Defined.

End LabelTable.

(** ** What [disegna_risultati] draws *)

Section Rendering.

Import Disegno Resa.

Variable cv2_raises : world -> cv2_call -> option exn.

Lemma disegna_box_ammesso f obj et (b : BBox Z) (w w' : world) r :
  fuori_dai_bordi f b = false ->
  disegna_box cv2_raises f obj et b w = (r, w') ->
  exists nuovi, w' = w ++ nuovi /\ Forall (effetto_ammesso f) nuovi /\
                (forall t, Printed t ∉ nuovi).
Proof.
  intros Hin. apply fuori_dai_bordi_false in Hin as (H0 & H1 & H2 & H3).
  unfold disegna_box, bind, cv2.
  destruct (cv2_raises w _).
  { intros [= _ <-]. exists []. rewrite app_nil_r.
    split; [done |]. split; [constructor |]. intros t Ht.
    by apply elem_of_nil in Ht. }
  destruct (cv2_raises (w ++ _) _).
  - intros [= _ <-]. eexists. split; [reflexivity |]. split.
    + constructor; [| constructor]. simpl. auto 10.
    + intros t Ht. apply list_elem_of_singleton in Ht. discriminate.
  - intros [= _ <-]. eexists. split; [by rewrite <- app_assoc |]. split.
    + constructor; [simpl; auto 10 |]. constructor; [| constructor].
      simpl. repeat split; auto.
      destruct (Z.ltb_spec (ymin b - 10) 10); lia.
    + intros t Ht. apply elem_of_cons in Ht as [Ht | Ht]; [discriminate |].
      apply list_elem_of_singleton in Ht. discriminate.
Qed.

Lemma ciclo_ammesso f et sx sy oggetti : forall (w w' : world) r,
  ciclo cv2_raises f et sx sy oggetti w = (r, w') ->
  exists nuovi, w' = w ++ nuovi /\ Forall (effetto_ammesso f) nuovi /\
                (forall t, Printed t ∉ nuovi) /\
                (List.length nuovi <= 2 * List.length oggetti)%nat.
Proof.
  induction oggetti as [| obj rest IH]; intros w w' r.
  - intros [= _ <-]. exists []. rewrite app_nil_r.
    split; [done |]. split; [constructor |]. split; [| simpl; lia].
    intros t Ht. by apply elem_of_nil in Ht.
  - rewrite ciclo_cons, corpo_unfold.
    destruct (pixel_interi obj sx sy) as [b | e].
    2: { intros [= _ <-]. exists []. rewrite app_nil_r.
         split; [done |]. split; [constructor |]. split; [| simpl; lia].
         intros t Ht. by apply elem_of_nil in Ht. }
    destruct (fuori_dai_bordi f b) eqn:Hb.
    { intros Hc. destruct (IH _ _ _ Hc) as (nuovi & -> & Hf & Hp & Hl).
      exists nuovi. repeat split; auto. simpl. lia. }
    destruct (disegna_box cv2_raises f obj et b w) as [[[] | e] w1] eqn:Ed;
      destruct (disegna_box_ammesso _ _ _ _ _ _ _ Hb Ed)
      as (n1 & -> & Hf1 & Hp1).
    + assert (Hl1 : (List.length n1 <= 2)%nat).
      { revert Ed. unfold disegna_box, bind, cv2.
        destruct (cv2_raises w _); [intros; discriminate |].
        destruct (cv2_raises (w ++ _) _); [intros; discriminate |].
        rewrite <- app_assoc. intros [= Ed].
        apply app_inv_head in Ed. subst n1. simpl. lia. }
      intros Hc. destruct (IH _ _ _ Hc) as (n2 & -> & Hf2 & Hp2 & Hl2).
      exists (n1 ++ n2). rewrite app_assoc. split; [done |].
      split; [by apply Forall_app |]. split.
      * intros t Ht. apply elem_of_app in Ht as [Ht | Ht];
          [by apply (Hp1 t) | by apply (Hp2 t)].
      * rewrite length_app. simpl. lia.
    + intros [= _ <-]. exists n1. split; [done |]. split; [done |].
      split; [done |].
      revert Ed. unfold disegna_box, bind, cv2.
      destruct (cv2_raises w _).
      { intros [= _ Ed]. rewrite <- (app_nil_r w) in Ed at 1.
        apply app_inv_head in Ed. subst n1. simpl. lia. }
      destruct (cv2_raises (w ++ _) _); [| intros; discriminate].
      intros [= _ Ed]. apply app_inv_head in Ed. subst n1. simpl. lia.
Qed.

(** X3. Whatever OpenCV does and whatever the detections are, every call
    that [disegna_risultati] makes is a green rectangle or label on the
    frame it was given: the first corner of each rectangle has no
    negative coordinate and its second corner is not beyond
    (width, height), each label is at x >= 0 and y >= 10. The first
    corner is not bounded from above nor the second from below: a box
    with its corners in reverse order passes the check. There are at
    most two calls per detection, and the only message printed is the
    one of the error handler, at most once and after the last call. *)
Theorem disegna_risultati_draws_inside_the_frame
        f oggetti et sx sy (w : world) :
  exists disegni coda,
    disegna_risultati cv2_raises f oggetti et sx sy w
    = (Ret f, w ++ disegni ++ coda) /\
    Forall (effetto_ammesso f) disegni /\
    (forall t, Printed t ∉ disegni) /\
    (List.length disegni <= 2 * List.length oggetti)%nat /\
    (coda = [] \/ exists e, coda = [Printed (errore_disegno e)]).
Proof.
  rewrite disegna_risultati_unfold.
  destruct (ciclo cv2_raises f et sx sy oggetti w) as [[[] | e] w1] eqn:Ec;
    destruct (ciclo_ammesso _ _ _ _ _ _ _ _ Ec) as (n & -> & Hf & Hp & Hl).
  - exists n, []. rewrite app_nil_r. auto 10.
  - exists n, [Printed (errore_disegno e)]. rewrite <- app_assoc.
    repeat split; eauto.
Qed.

End Rendering.

Section RenderingWithoutFaults.

Import Disegno Resa Main.

(** With factors computed from sizes below 2^53 the conversion to pixels
    of a detection with coordinates below 2^53 does not raise, and gives
    the expected box. *)
Lemma pixel_interi_atteso (N M : Z * Z) (obj : Object) :
  0 < fst N < 2 ^ 53 -> 0 < snd N < 2 ^ 53 ->
  0 < fst M < 2 ^ 53 -> 0 < snd M < 2 ^ 53 ->
  coordinate_limitate obj ->
  let s := fattori_di_scala (fst N) (snd N) M in
  pixel_interi obj (fst s) (snd s) = Ret (riquadro_atteso obj (fst s) (snd s)).
Proof.
  intros Hnw Hnh Hmw Hmh (Hx0 & Hy0 & Hx1 & Hy1) s.
  destruct (asse_spec (fst N) (fst M) Hnw Hmw) as (qx & _ & _ & _ & Rx).
  destruct (asse_spec (snd N) (snd M) Hnh Hmh) as (qy & _ & _ & _ & Ry).
  destruct (Rx _ Hx0) as (q0 & V0 & _). destruct (Ry _ Hy0) as (q1 & V1 & _).
  destruct (Rx _ Hx1) as (q2 & V2 & _). destruct (Ry _ Hy1) as (q3 & V3 & _).
  rewrite (pixel_interi_value obj (fst s) (snd s) q0 q1 q2 q3)
    by assumption.
  unfold riquadro_atteso, pixel_atteso.
  change (fst s) with (F64.div (F64.of_int (fst N)) (F64.of_int (fst M))).
  change (snd s) with (F64.div (F64.of_int (snd N)) (F64.of_int (snd M))).
  by rewrite V0, V1, V2, V3.
Qed.

Lemma ciclo_affidabile f et sx sy oggetti : forall w : world,
  Forall (fun obj => pixel_interi obj sx sy
                     = Ret (riquadro_atteso obj sx sy)) oggetti ->
  ciclo Esempi.opencv_affidabile f et sx sy oggetti w
  = (Ret tt, w ++ flat_map (resa f et sx sy) oggetti).
Proof.
  induction oggetti as [| obj rest IH]; intros w Hall.
  - simpl. by rewrite app_nil_r.
  - apply Forall_cons in Hall as [Hb Hrest].
    rewrite ciclo_cons, corpo_unfold. simpl flat_map. unfold resa at 1.
    rewrite Hb. cbv zeta.
    destruct (fuori_dai_bordi f (riquadro_atteso obj sx sy)) eqn:Ef.
    + rewrite bool_decide_eq_false_2.
      * rewrite IH by assumption. reflexivity.
      * intros Hin. apply fuori_dai_bordi_false in Hin. congruence.
    + rewrite bool_decide_eq_true_2 by (by apply fuori_dai_bordi_false).
      rewrite disegna_box_affidabile, IH by assumption.
      rewrite <- app_assoc. reflexivity.
Qed.

(** X4. In a session whose factors come from native and model sizes below
    2^53, with detections whose coordinates are below 2^53 and an OpenCV
    that does not fail, [disegna_risultati] logs no error, and what it
    draws is what is expected of each detection, one after the other in
    the order of the list: the rectangle and then the label, at the
    truncated products of the coordinates and the factors of their axes,
    when the first corner has no negative coordinate and the second is
    not beyond the width and height of the frame, and nothing
    otherwise. *)
Theorem disegna_risultati_renders_in_order
        (N M : Z * Z) f et (oggetti : list Object) (w : world) :
  0 < fst N < 2 ^ 53 -> 0 < snd N < 2 ^ 53 ->
  0 < fst M < 2 ^ 53 -> 0 < snd M < 2 ^ 53 ->
  Forall coordinate_limitate oggetti ->
  let s := fattori_di_scala (fst N) (snd N) M in
  disegna_risultati Esempi.opencv_affidabile f oggetti et (fst s) (snd s) w
  = (Ret f, w ++ flat_map (resa f et (fst s) (snd s)) oggetti).
Proof.
  intros Hnw Hnh Hmw Hmh Hall s.
  rewrite disegna_risultati_unfold, ciclo_affidabile; [reflexivity |].
  eapply Forall_impl; [exact Hall |].
  intros obj Hobj. by apply (pixel_interi_atteso N M).
Qed.

Lemma disegna_risultati_renders_in_order_witness :
  disegna_risultati Esempi.opencv_affidabile Esempi.frame_1280x720
    [Esempi.oggetto_debordante; Esempi.oggetto_scenario]
    Esempi.due_etichette
    (fst Esempi.scala_1280x720) (snd Esempi.scala_1280x720) []
  = (Ret Esempi.frame_1280x720,
     [] ++ flat_map (resa Esempi.frame_1280x720 Esempi.due_etichette
                       (fst Esempi.scala_1280x720)
                       (snd Esempi.scala_1280x720))
             [Esempi.oggetto_debordante; Esempi.oggetto_scenario]).
Proof.
  apply (disegna_risultati_renders_in_order (1280, 720) (300, 300));
    try (simpl; lia).
  repeat constructor; simpl; lia.
Defined.

End RenderingWithoutFaults.

(** ** More about the capability prober *)

Section ProberMore.

Import Prober.

Context {S : Type} `{VideoCapture S}.

Hypothesis finite_reads :
  forall (s : S) (p : prop), F64.is_finite (cap_get s p) = true.

(** The run of the prober, step by step. *)
Lemma trova_run (s0 : S) :
  exists (d : Z * Z) (altre : list (Z * Z)) (s' : S),
    legge s0 = Ret d /\
    testa d risoluzioni_da_testare [d] s0 = (Ret (d :: altre), s') /\
    raggiungibile s0 s' /\
    trova_risoluzioni_supportate s0 = (Ret (d :: altre), richiede s' d).
Proof.
  destruct (legge_finite finite_reads s0) as (dw & dh & Hleg).
  destruct (get_int_pair s0 dw dh Hleg) as [Hw Hh].
  destruct (testa_spec finite_reads s0 (dw, dh) risoluzioni_da_testare
              s0 [(dw, dh)])
    as (altre & s' & Ht & Hs' & _ & _).
  { apply ragg_inizio. }
  { apply NoDup_singleton. }
  exists (dw, dh), altre, s'.
  split; [exact Hleg |]. split; [exact Ht |]. split; [exact Hs' |].
  unfold trova_risoluzioni_supportate.
  unfold bind at 1. rewrite Hw. unfold bind at 1. rewrite Hh.
  unfold bind at 1. rewrite Ht. reflexivity.
Qed.

(** A candidate that the device echoes is, after its turn, the default or
    in the list. *)
Lemma prova_echoed (s0 s : S) (d : Z * Z) (l : list (Z * Z)) (c : Z * Z) :
  raggiungibile s0 s -> legge (richiede s c) = Ret c ->
  exists l' s',
    prova d l c s = (Ret l', s') /\ raggiungibile s0 s' /\
    (c = d \/ c ∈ l').
Proof.
  intros Hs Hecho. destruct c as [w h]. unfold prova.
  destruct (res_eqb (w, h) d) eqn:Ed.
  { exists l, s. apply res_eqb_eq in Ed. auto. }
  unfold bind at 1, set at 1. unfold bind at 1, set at 1.
  change (cap_set (cap_set s CAP_PROP_FRAME_WIDTH w) CAP_PROP_FRAME_HEIGHT h)
    with (richiede s (w, h)).
  assert (Hs2 : raggiungibile s0 (richiede s (w, h)))
    by (do 2 apply ragg_set; exact Hs).
  destruct (get_int_pair _ w h Hecho) as [Hw Hh].
  unfold bind at 1. rewrite Hw. unfold bind at 1. rewrite Hh.
  rewrite !Z.eqb_refl. simpl andb. cbv iota.
  destruct (res_in (w, h) l) eqn:Hin;
    [change (negb true) with false | change (negb false) with true];
    cbv iota.
  - exists l, (richiede s (w, h)). split; [reflexivity |].
    split; [exact Hs2 |]. right. by apply res_in_elem_of.
  - exists (l ++ [(w, h)]), (richiede s (w, h)). split; [reflexivity |].
    split; [exact Hs2 |]. right. apply elem_of_app. right.
    by apply list_elem_of_singleton.
Qed.

Lemma testa_complete (s0 : S) (d c : Z * Z) (cands : list (Z * Z)) :
  (forall s, raggiungibile s0 s -> legge (richiede s c) = Ret c) ->
  c ∈ cands ->
  forall (s : S) (l l2 : list (Z * Z)) (s2 : S),
    raggiungibile s0 s -> NoDup l ->
    testa d cands l s = (Ret l2, s2) ->
    c = d \/ c ∈ l2.
Proof.
  intros Hecho. induction cands as [| wh rest IH]; intros Hc s l l2 s2 Hs Hnd.
  { by apply elem_of_nil in Hc. }
  simpl testa. unfold bind at 1.
  destruct (prova_spec finite_reads s0 s d l wh Hs)
    as (l1 & s1 & Hp & Hs1 & Hl1).
  rewrite Hp.
  assert (Hnd1 : NoDup l1).
  { destruct Hl1 as [-> | (-> & Hnin & _)]; [exact Hnd |].
    apply NoDup_app. repeat split; auto.
    - intros x Hx Hx'. apply list_elem_of_singleton in Hx'. by subst.
    - apply NoDup_singleton. }
  apply elem_of_cons in Hc as [-> | Hc].
  - destruct (prova_echoed s0 s d l wh Hs (Hecho s Hs))
      as (l1' & s1' & Hp' & _ & Hin).
    rewrite Hp in Hp'. injection Hp' as <- <-.
    destruct (testa_spec finite_reads s0 d rest s1 l1 Hs1 Hnd1)
      as (extra & s' & Ht & _).
    intros Hrun. rewrite Ht in Hrun. injection Hrun as <- <-.
    destruct Hin as [? | Hin]; [by left | right].
    apply elem_of_app. by left.
  - by apply IH.
Qed.


(** X5. The prober misses nothing: a candidate that the device echoes
    whenever it is requested is in the returned list. *)
Theorem trova_risoluzioni_complete (s0 : S) (c : Z * Z) :
  c ∈ risoluzioni_da_testare ->
  (forall s, raggiungibile s0 s -> legge (richiede s c) = Ret c) ->
  exists (l : list (Z * Z)) (s1 : S),
    trova_risoluzioni_supportate s0 = (Ret l, s1) /\ c ∈ l.
Proof.
  intros Hc Hecho.
  destruct (trova_run s0) as (d & altre & s' & _ & Ht & _ & Hrun).
  exists (d :: altre), (richiede s' d). split; [exact Hrun |].
  destruct (testa_complete s0 d c risoluzioni_da_testare Hecho Hc
              s0 [d] (d :: altre) s')
    as [-> | Hin]; auto.
  - apply ragg_inizio.
  - apply NoDup_singleton.
  - by left.
Qed.



End ProberMore.


Lemma trova_risoluzioni_complete_witness :
  exists (l : list (Z * Z)) (s1 : Prober.webcam),
    Prober.trova_risoluzioni_supportate (Prober.mkWebcam Prober.QVGA 0)
    = (Ret l, s1) /\ (1280, 720) ∈ l.
Proof.
  apply (trova_risoluzioni_complete webcam_finite_reads).
  - unfold Prober.risoluzioni_da_testare. set_solver.
  - intros [m v] _. reflexivity.
Defined.



(** ** The resolution selector *)

Section Selector.

Import Selettore.

Variable int_str : string -> option Z.

Lemma chiedi_ciclo_safe (risoluzioni : list (Z * Z)) (d : Z * Z)
      (risposte : list risposta) :
  d ∈ risoluzioni ->
  match chiedi_ciclo int_str risoluzioni d risposte with
  | (Scelta r, rest) => r ∈ risoluzioni /\ rest `suffix_of` risposte
  | (Nessuna, rest) =>
      Interruzione ∈ risposte /\ rest `suffix_of` risposte
  | (Solleva e, rest) =>
      e = EOFError /\ Fine_ingresso ∈ risposte /\ rest `suffix_of` risposte
  | (In_attesa, rest) =>
      rest = [] /\ (Interruzione ∉ risposte) /\ (Fine_ingresso ∉ risposte)
  end.
Proof.
  intros Hd. induction risposte as [| a rest IH].
  - simpl. split; [done |]. split; apply not_elem_of_nil.
  - destruct a as [s | |].
    + assert (Hskip :
          match chiedi_ciclo int_str risoluzioni d rest with
          | (Scelta r, rest') =>
              r ∈ risoluzioni /\ rest' `suffix_of` Riga s :: rest
          | (Nessuna, rest') =>
              Interruzione ∈ Riga s :: rest /\
              rest' `suffix_of` Riga s :: rest
          | (Solleva e, rest') =>
              e = EOFError /\ Fine_ingresso ∈ Riga s :: rest /\
              rest' `suffix_of` Riga s :: rest
          | (In_attesa, rest') =>
              rest' = [] /\ (Interruzione ∉ Riga s :: rest) /\
              (Fine_ingresso ∉ Riga s :: rest)
          end).
      { destruct (chiedi_ciclo int_str risoluzioni d rest)
          as [[r | | e |] rest'].
        - destruct IH as [H1 H2]. split; [done | by apply suffix_cons_r].
        - destruct IH as [H1 H2].
          split; [apply elem_of_cons; by right | by apply suffix_cons_r].
        - destruct IH as (H1 & H2 & H3). split; [done |].
          split; [apply elem_of_cons; by right | by apply suffix_cons_r].
        - destruct IH as (H1 & H2 & H3). split; [done |].
          split; apply not_elem_of_cons; (split; [discriminate | done]). }
      simpl chiedi_ciclo.
      destruct (String.eqb s "").
      { split; [exact Hd | by apply suffix_cons_r]. }
      destruct (int_str s) as [n |]; [| exact Hskip].
      destruct ((1 <=? n) && (n <=? Z.of_nat (List.length risoluzioni)))
        eqn:Hn; [| exact Hskip].
      apply andb_true_iff in Hn as [H1%Z.leb_le H2%Z.leb_le].
      destruct (lookup_lt_is_Some_2 risoluzioni (Z.to_nat (n - 1))
                  ltac:(lia)) as [r Hr].
      rewrite Hr. split; [| by apply suffix_cons_r].
      by apply list_elem_of_lookup_2 in Hr.
    + simpl. split; [by left | by apply suffix_cons_r].
    + simpl. split; [reflexivity |].
      split; [by left | by apply suffix_cons_r].
Qed.

(** X8. Whatever the user types and whatever [int()] makes of it, the
    selector never returns a resolution that is not in the menu and never
    indexes the list out of range. It returns an entry of the list;
    or [None], when the list is empty or the user interrupts; or it
    lets the EOFError of a closed standard input escape, which no
    [except] clause of the function catches; or it is still prompting,
    when every answer so far was invalid. *)
Theorem chiedi_risoluzione_utente_safe (risoluzioni : list (Z * Z))
        (risposte : list risposta) :
  match chiedi_risoluzione_utente int_str risoluzioni risposte with
  | (Scelta r, rest) => r ∈ risoluzioni /\ rest `suffix_of` risposte
  | (Nessuna, rest) =>
      (risoluzioni = [] \/ Interruzione ∈ risposte) /\
      rest `suffix_of` risposte
  | (Solleva e, rest) =>
      e = EOFError /\ Fine_ingresso ∈ risposte /\ rest `suffix_of` risposte
  | (In_attesa, rest) =>
      (2 <= List.length risoluzioni)%nat /\
      (Interruzione ∉ risposte) /\ (Fine_ingresso ∉ risposte)
  end.
Proof.
  destruct risoluzioni as [| d [| d' l]]; simpl chiedi_risoluzione_utente.
  - split; [by left | done].
  - split; [by left | done].
  - pose proof (chiedi_ciclo_safe (d :: d' :: l) d risposte ltac:(by left))
      as Hs.
    destruct (chiedi_ciclo int_str (d :: d' :: l) d risposte)
      as [[r | | e |] rest]; [exact Hs | | exact Hs |].
    + destruct Hs as [Hi Hsuf]. split; [by right | exact Hsuf].
    + destruct Hs as (_ & Hi & Hf). split; [simpl; lia | done].
Qed.

(** X9. One answer at a menu of two or more entries. An empty line
    selects the first entry, the default; a number [n] from 1 to the
    length of the list selects entry [n] of the menu; in both cases the
    later answers are not read. Any other line (one that [int()] rejects,
    or a number out of range) changes nothing: the selector goes on with
    the next answer. *)
Theorem chiedi_risoluzione_utente_one_answer
        (d d' : Z * Z) (l : list (Z * Z)) (s : string)
        (rest : list risposta) :
  let risoluzioni := d :: d' :: l in
  (s = "" ->
   chiedi_risoluzione_utente int_str risoluzioni (Riga s :: rest)
   = (Scelta d, rest)) /\
  (forall n, s <> "" -> int_str s = Some n ->
             1 <= n <= Z.of_nat (List.length risoluzioni) ->
             exists r, risoluzioni !! Z.to_nat (n - 1) = Some r /\
                       chiedi_risoluzione_utente int_str risoluzioni
                         (Riga s :: rest) = (Scelta r, rest)) /\
  (s <> "" ->
   (int_str s = None \/
    exists n, int_str s = Some n /\
              (n < 1 \/ Z.of_nat (List.length risoluzioni) < n)) ->
   chiedi_risoluzione_utente int_str risoluzioni (Riga s :: rest)
   = chiedi_risoluzione_utente int_str risoluzioni rest).
Proof.
  intros risoluzioni. unfold risoluzioni. split; [| split].
  - intros ->. reflexivity.
  - intros n Hs Hn Hr. simpl chiedi_risoluzione_utente. simpl chiedi_ciclo.
    rewrite (proj2 (String.eqb_neq s "") Hs), Hn.
    destruct (lookup_lt_is_Some_2 (d :: d' :: l) (Z.to_nat (n - 1))
                ltac:(lia)) as [r Hr'].
    exists r. rewrite Hr'. split; [reflexivity |].
    destruct (_ && _) eqn:Hc; [reflexivity |].
    apply andb_false_iff in Hc as [Hc%Z.leb_gt | Hc%Z.leb_gt];
      simpl in Hr; lia.
  - intros Hs Hbad. simpl chiedi_risoluzione_utente. simpl chiedi_ciclo.
    rewrite (proj2 (String.eqb_neq s "") Hs).
    destruct Hbad as [-> | (n & -> & Hn)]; [reflexivity |].
    destruct (_ && _) eqn:Hc; [| reflexivity].
    apply andb_true_iff in Hc as [H1%Z.leb_le H2%Z.leb_le].
    simpl in Hn. lia.
Qed.

End Selector.

Lemma chiedi_risoluzione_utente_one_answer_witness :
  Selettore.chiedi_risoluzione_utente Selettore.int_decimale
    [(640, 480); (1280, 720)]
    [Selettore.Riga "7"; Selettore.Riga "x"; Selettore.Riga "2";
     Selettore.Riga "1"]
  = (Selettore.Scelta (1280, 720), [Selettore.Riga "1"]).
Proof.
  pose proof (chiedi_risoluzione_utente_one_answer
                Selettore.int_decimale (640, 480) (1280, 720) []) as H.
  etrans.
  { apply (H "7"); [discriminate |].
    right. exists 7. split; [reflexivity | simpl; lia]. }
  etrans.
  { apply (H "x"); [discriminate |]. left. reflexivity. }
  destruct (proj1 (proj2 (H "2" [Selettore.Riga "1"])) 2)
    as (r & Hr & ->); [discriminate | reflexivity | simpl; lia |].
  injection Hr as <-. reflexivity.
Defined.

(** ** The prober and the selector together *)

Section ProbeThenSelect.

Import Prober Selettore.

Context {S : Type} `{VideoCapture S}.

Hypothesis finite_reads :
  forall (s : S) (p : prop), F64.is_finite (cap_get s p) = true.

Variable int_str : string -> option Z.

Lemma chiedi_scelta_in (risoluzioni : list (Z * Z))
      (risposte rest : list risposta) (r : Z * Z) :
  chiedi_risoluzione_utente int_str risoluzioni risposte = (Scelta r, rest) ->
  r ∈ risoluzioni.
Proof.
  destruct risoluzioni as [| d [| d' l]]; simpl chiedi_risoluzione_utente.
  - discriminate.
  - intros [= <- _]. by left.
  - intros Hc.
    pose proof (chiedi_ciclo_safe int_str (d :: d' :: l) d risposte
                  ltac:(by left)) as Hs.
    rewrite Hc in Hs. apply Hs.
Qed.

(** X10. What [main] does at lines 371-374, probing and then asking:
    whatever the user answers, a resolution that comes out of the menu is
    the resolution the device had at the start or one of the five
    candidates that the device echoed when the prober requested it. *)
Theorem scelta_is_default_or_echoed (s0 : S) (risposte : list risposta) :
  exists (l : list (Z * Z)) (s1 : S),
    trova_risoluzioni_supportate s0 = (Ret l, s1) /\
    forall r rest,
      chiedi_risoluzione_utente int_str l risposte = (Scelta r, rest) ->
      legge s0 = Ret r \/
      (r ∈ risoluzioni_da_testare /\ echoed s0 r).
Proof.
  destruct (trova_run finite_reads s0) as (d & altre & s' & Hd & Ht & _ & Hrun).
  destruct (testa_spec finite_reads s0 d risoluzioni_da_testare s0 [d])
    as (extra & s'' & Ht' & _ & _ & Hex).
  { apply ragg_inizio. }
  { apply NoDup_singleton. }
  rewrite Ht in Ht'. injection Ht' as -> _.
  exists (d :: extra), (richiede s' d). split; [exact Hrun |].
  intros r rest Hc. apply chiedi_scelta_in in Hc.
  apply elem_of_cons in Hc as [-> | Hr]; [by left | right; by apply Hex].
Qed.

End ProbeThenSelect.

Lemma scelta_is_default_or_echoed_witness :
  exists (l : list (Z * Z)) (s1 : Prober.webcam),
    Prober.trova_risoluzioni_supportate (Prober.mkWebcam Prober.QVGA 0)
    = (Ret l, s1) /\
    forall r rest,
      Selettore.chiedi_risoluzione_utente Selettore.int_decimale l
        [Selettore.Riga "3"] = (Selettore.Scelta r, rest) ->
      Prober.legge (Prober.mkWebcam Prober.QVGA 0) = Ret r \/
      (r ∈ Prober.risoluzioni_da_testare /\
       Prober.echoed (Prober.mkWebcam Prober.QVGA 0) r).
Proof.
  exact (scelta_is_default_or_echoed webcam_finite_reads
           Selettore.int_decimale (Prober.mkWebcam Prober.QVGA 0)
           [Selettore.Riga "3"]).
Defined.

(** ** The frame loop *)

Section FrameLoop.

Import Disegno Main.

Variable cv2_raises : world -> cv2_call -> option exn.

Lemma disegna_risultati_ritorna f oggetti et sx sy (w : world) :
  exists w',
    disegna_risultati cv2_raises f oggetti et sx sy w = (Ret f, w').
Proof.
  rewrite disegna_risultati_unfold.
  destruct (ciclo cv2_raises f et sx sy oggetti w) as [[[] | e] w'];
    eexists; reflexivity.
Qed.

(** The difference of a finite float and itself is the positive zero. *)
Lemma sub_diag (x : float) :
  F64.is_finite x = true -> F64.sub x x = S754_zero false.
Proof.
  destruct x as [[] | [] | | [] m e]; try discriminate; intros _;
    try reflexivity.
  all: unfold F64.sub, SFsub; rewrite Z.sub_diag; reflexivity.
Qed.

Lemma overlay_stesso_istante cfg s i oggetti f (w : world) :
  F64.is_finite (prev_frame_time s) = true ->
  F64.gtb (prev_frame_time s) (F64.of_int 0) = true ->
  new_frame_time i = prev_frame_time s ->
  overlay cv2_raises cfg s i oggetti f w = (Raise ZeroDivisionError, w).
Proof.
  intros Hf Hg He. unfold overlay. rewrite Hg, He, (sub_diag _ Hf).
  reflexivity.
Qed.

Lemma bind_raise {St A B} (m : M St A) (k : A -> M St B) (w w' : St) e :
  bind m k w = (Raise e, w') ->
  m w = (Raise e, w') \/
  exists a w1, m w = (Ret a, w1) /\ k a w1 = (Raise e, w').
Proof.
  unfold bind. destruct (m w) as [[a | e1] w1]; intros Hk.
  - right. by exists a, w1.
  - left. by injection Hk as -> ->.
Qed.

Lemma bind_ret {St A B} (m : M St A) (k : A -> M St B) (w w' : St) b :
  bind m k w = (Ret b, w') ->
  exists a w1, m w = (Ret a, w1) /\ k a w1 = (Ret b, w').
Proof.
  unfold bind. destruct (m w) as [[a | e1] w1]; intros Hk.
  - by exists a, w1.
  - discriminate.
Qed.

Lemma cv2_raise c (w w' : world) e :
  cv2 cv2_raises c w = (Raise e, w') -> cv2_raises w c = Some e.
Proof.
  unfold cv2. destruct (cv2_raises w c); intros [= <- _]; reflexivity.
Qed.

(** The steps of an iteration after the drawing of the detections can
    raise in two ways only: a division by zero in the FPS formula, or an
    exception of OpenCV. *)
Lemma overlay_raise cfg s i oggetti f (w w' : world) e :
  overlay cv2_raises cfg s i oggetti f w = (Raise e, w') ->
  e = ZeroDivisionError \/ exists w0 c, cv2_raises w0 c = Some e.
Proof.
  unfold overlay. intros Ho.
  apply bind_raise in Ho as [Ho | (fps' & w1 & _ & Ho)].
  { left. destruct (F64.gtb _ _); [| discriminate].
    unfold lift, F64.py_truediv in Ho.
    destruct (F64.sub _ _); congruence. }
  right.
  repeat (apply bind_raise in Ho as [Ho | (? & ? & _ & Ho)];
          [apply cv2_raise in Ho; eauto |]).
  discriminate.
Qed.

Lemma gestione_tasti_raise s i fps' f (w w' : world) e :
  gestione_tasti cv2_raises s i fps' f w = (Raise e, w') ->
  exists w0 c, cv2_raises w0 c = Some e.
Proof.
  unfold gestione_tasti. intros Hg.
  destruct (key i =? ord_q).
  { apply bind_raise in Hg as [Hg | (? & ? & _ & Hg)]; discriminate. }
  destruct (key i =? ord_s).
  { apply bind_raise in Hg as [Hg | (? & ? & _ & Hg)].
    - apply cv2_raise in Hg. eauto.
    - apply bind_raise in Hg as [Hg | (? & ? & _ & Hg)]; discriminate. }
  destruct (key i =? ord_d).
  { apply bind_raise in Hg as [Hg | (? & ? & _ & Hg)]; discriminate. }
  discriminate.
Qed.

Lemma gestione_tasti_ret s i fps' f (w w' : world) r :
  gestione_tasti cv2_raises s i fps' f w = (Ret r, w') ->
  match r with
  | Esce => key i = ord_q
  | Continua s' =>
      key i <> ord_q /\
      prev_frame_time s' = new_frame_time i /\
      debug_mode s' = xorb (debug_mode s) (key i =? ord_d)
  end.
Proof.
  unfold gestione_tasti. intros Hg.
  destruct (Z.eqb_spec (key i) ord_q) as [Hq | Hq].
  { apply bind_ret in Hg as (? & ? & _ & Hg). by injection Hg as <- _. }
  destruct (Z.eqb_spec (key i) ord_s) as [Hs | Hs].
  { apply bind_ret in Hg as (? & ? & _ & Hg).
    apply bind_ret in Hg as (? & ? & _ & Hg). injection Hg as <- _.
    split; [exact Hq |]. split; [reflexivity |]. simpl.
    rewrite Hs. by destruct (debug_mode s). }
  destruct (Z.eqb_spec (key i) ord_d) as [Hd | Hd].
  { apply bind_ret in Hg as (? & ? & _ & Hg). injection Hg as <- _.
    split; [exact Hq |]. split; [reflexivity |]. simpl.
    by destruct (debug_mode s). }
  injection Hg as <- _.
  split; [exact Hq |]. split; [reflexivity |]. simpl.
  by destruct (debug_mode s).
Qed.

(** What one pass through the loop body can come to, once a frame was
    read. *)
Lemma iterazione_passo cfg s i (w : world) :
  letto i = true ->
  match iterazione cv2_raises cfg s i w with
  | (Ret Esce, _) => key i = ord_q
  | (Ret (Continua s'), _) =>
      key i <> ord_q /\
      prev_frame_time s' = new_frame_time i /\
      debug_mode s' = xorb (debug_mode s) (key i =? ord_d)
  | (Raise e, _) =>
      e = ZeroDivisionError \/ exists w0 c, cv2_raises w0 c = Some e
  end.
Proof.
  intros Hl.
  destruct (disegna_risultati_ritorna
              (copy (frame_nativo i) (addr_copia i))
              (get_objects i (soglia_attuale s))
              (etichette cfg) (scale_x cfg) (scale_y cfg) w) as [w1 Hd].
  unfold iterazione. rewrite Hl. change (negb true) with false. cbv iota.
  unfold bind at 1. rewrite Hd.
  destruct (bind _ _ w1) as [[r | e] w2] eqn:E.
  - apply bind_ret in E as (fps' & w3 & _ & Hg).
    by apply gestione_tasti_ret in Hg.
  - apply bind_raise in E as [Ho | (fps' & w3 & _ & Hg)].
    + by apply overlay_raise in Ho.
    + right. by apply gestione_tasti_raise in Hg.
Qed.

(** An iteration that starts with the time stamp of the one before it
    raises ZeroDivisionError, after the detections have been drawn. *)
Lemma iterazione_stesso_istante cfg s i (w : world) :
  letto i = true ->
  F64.is_finite (prev_frame_time s) = true ->
  F64.gtb (prev_frame_time s) (F64.of_int 0) = true ->
  new_frame_time i = prev_frame_time s ->
  exists w', iterazione cv2_raises cfg s i w = (Raise ZeroDivisionError, w').
Proof.
  intros Hl Hf Hg He.
  destruct (disegna_risultati_ritorna
              (copy (frame_nativo i) (addr_copia i))
              (get_objects i (soglia_attuale s))
              (etichette cfg) (scale_x cfg) (scale_y cfg) w) as [w1 Hd].
  exists w1.
  unfold iterazione. rewrite Hl. change (negb true) with false. cbv iota.
  unfold bind at 1. rewrite Hd.
  unfold bind at 1. by rewrite overlay_stesso_istante.
Qed.

(** X11. The FPS formula of line 444 divides by the difference of two
    clock readings. When two consecutive iterations read the same
    (finite, positive) time, the loop does not end normally, whatever
    comes after: it is left by an exception, so the release of lines
    484-489 is not reached. The exception is ZeroDivisionError unless
    OpenCV itself raised before. *)
Theorem ciclo_principale_same_timestamp
        cfg s (i1 i2 : Ingressi) (rest : list Ingressi) (w : world) :
  aperta i1 = true -> letto i1 = true -> key i1 <> ord_q ->
  aperta i2 = true -> letto i2 = true ->
  F64.is_finite (new_frame_time i1) = true ->
  F64.gtb (new_frame_time i1) (F64.of_int 0) = true ->
  new_frame_time i2 = new_frame_time i1 ->
  exists e w',
    ciclo_principale cv2_raises cfg s (i1 :: i2 :: rest) w = (Raise e, w') /\
    ((forall w0 c, cv2_raises w0 c = None) -> e = ZeroDivisionError).
Proof.
  intros Ha1 Hl1 Hq1 Ha2 Hl2 Hf Hg He.
  assert (Hrel : forall e : exn,
             e = ZeroDivisionError \/ (exists w0 c, cv2_raises w0 c = Some e) ->
             (forall w0 c, cv2_raises w0 c = None) -> e = ZeroDivisionError).
  { intros e [-> | (w0 & c & Hc)] Hno; [reflexivity |].
    by rewrite Hno in Hc. }
  pose proof (iterazione_passo cfg s i1 w Hl1) as H1.
  simpl ciclo_principale. rewrite Ha1. change (negb true) with false.
  cbv iota. unfold bind at 1.
  destruct (iterazione cv2_raises cfg s i1 w) as [[[s1 |] | e] w1].
  - destruct H1 as (_ & Hp & _).
    rewrite Ha2. change (negb true) with false. cbv iota.
    destruct (iterazione_stesso_istante cfg s1 i2 w1) as [w2 H2];
      [exact Hl2 | by rewrite Hp | by rewrite Hp | by rewrite Hp |].
    unfold bind. rewrite H2. by exists ZeroDivisionError, w2.
  - contradiction.
  - exists e, w1. split; [reflexivity | by apply Hrel].
Qed.

(** X12. Over a run of the loop in which a frame is read at every
    iteration and 'q' is not pressed, the debug flag at the end is the
    flag at the start flipped once for every 'd' pressed: an even number
    of presses leaves the threshold as it was, an odd number selects the
    other one. *)
Theorem ciclo_principale_debug_parity
        cfg (ingressi : list Ingressi) :
  forall s (w : world) s' w',
  Forall (fun i => aperta i = true /\ letto i = true /\ key i <> ord_q)
         ingressi ->
  ciclo_principale cv2_raises cfg s ingressi w = (Ret s', w') ->
  debug_mode s' =
  xorb (debug_mode s)
       (Nat.odd (List.length (List.filter (fun i => key i =? ord_d) ingressi))).
Proof.
  induction ingressi as [| i rest IH]; intros s w s' w' Hall Hrun.
  - injection Hrun as <- _. simpl. by destruct (debug_mode s).
  - apply Forall_cons in Hall as [(Ha & Hl & Hq) Hall].
    simpl in Hrun. rewrite Ha in Hrun. change (negb true) with false in Hrun.
    cbv iota in Hrun.
    pose proof (iterazione_passo cfg s i w Hl) as H1.
    unfold bind in Hrun.
    destruct (iterazione cv2_raises cfg s i w) as [[[s1 |] | e] w1].
    + destruct H1 as (_ & _ & Hd).
      rewrite (IH s1 w1 s' w' Hall Hrun), Hd.
      simpl List.filter. destruct (key i =? ord_d).
      * change (List.length (i :: ?l)) with (S (List.length l)).
        rewrite Nat.odd_succ, <- Nat.negb_odd.
        by destruct (debug_mode s), (Nat.odd _).
      * by destruct (debug_mode s), (Nat.odd _).
    + contradiction.
    + discriminate.
Qed.

End FrameLoop.

Lemma ciclo_principale_same_timestamp_witness :
  exists e w',
    Main.ciclo_principale Esempi.opencv_affidabile Esempi.config_1280x720
      Main.sessione_iniziale [Corsa.al_tempo 2 255; Corsa.al_tempo 2 255] []
    = (Raise e, w') /\
    ((forall w0 c, Esempi.opencv_affidabile w0 c = None) ->
     e = ZeroDivisionError).
Proof.
  apply (ciclo_principale_same_timestamp Esempi.opencv_affidabile
           Esempi.config_1280x720 Main.sessione_iniziale
           (Corsa.al_tempo 2 255) (Corsa.al_tempo 2 255) [] []);
    try reflexivity.
  discriminate.
Defined.

Lemma ciclo_principale_debug_parity_witness :
  exists s' w',
    Main.ciclo_principale Esempi.opencv_affidabile Esempi.config_1280x720
      Main.sessione_iniziale Corsa.tre_iterazioni [] = (Ret s', w') /\
    Main.debug_mode s' = false.
Proof.
  destruct (Main.ciclo_principale Esempi.opencv_affidabile
              Esempi.config_1280x720 Main.sessione_iniziale
              Corsa.tre_iterazioni []) as [[s' | e] w'] eqn:E.
  - exists s', w'. split; [reflexivity |].
    rewrite (ciclo_principale_debug_parity Esempi.opencv_affidabile
               Esempi.config_1280x720 Corsa.tre_iterazioni
               Main.sessione_iniziale [] s' w');
      [reflexivity | | exact E].
    repeat constructor; discriminate.
  - vm_compute in E. discriminate.
Defined.

(** ** The program *)

Section Program.

Import Disegno Resa Prober Selettore Main Avvio.

Context {S : Type} `{VideoCapture S}.

Variable cv2_raises : world -> cv2_call -> option exn.
Variable int_str : string -> option Z.

Lemma bind_inv {St A B} (m : M St A) (k : A -> M St B) (w w' : St) r :
  bind m k w = (r, w') ->
  (exists e, m w = (Raise e, w') /\ r = Raise e) \/
  exists a w1, m w = (Ret a, w1) /\ k a w1 = (r, w').
Proof.
  unfold bind. destruct (m w) as [[a | e1] w1]; intros Hk.
  - right. by exists a, w1.
  - left. exists e1. by injection Hk as <- <-.
Qed.

Lemma configura_legge et isz scelta (c : S) :
  configura et isz scelta c =
  match legge (richiede c scelta) with
  | Ret (w, h) =>
      (Ret (mkConfig et isz w h
                     (fst (fattori_di_scala w h isz))
                     (snd (fattori_di_scala w h isz))),
       richiede c scelta)
  | Raise e => (Raise e, richiede c scelta)
  end.
Proof.
  destruct scelta as [ws hs].
  unfold configura, legge, richiede, bind, set, get_int, bind, get, lift.
  simpl fst. simpl snd.
  destruct (F64.to_int (cap_get _ CAP_PROP_FRAME_WIDTH)) as [w | e];
    [| reflexivity].
  destruct (F64.to_int (cap_get _ CAP_PROP_FRAME_HEIGHT)) as [h | e];
    reflexivity.
Qed.

Section Overlay.

Variable cfg : Config.

#[local] Abbreviation P :=
  (mostra_risoluzione (width_nativo cfg, height_nativo cfg)).

Lemma cv2_mostra c (w w' : world) r :
  cv2 cv2_raises c w = (r, w') -> P (Done c) -> Forall P w -> Forall P w'.
Proof.
  unfold cv2. destruct (cv2_raises w c); intros [= _ <-] Hc Hw;
    [exact Hw |].
  apply Forall_app. split; [exact Hw | by constructor].
Qed.

Lemma print_mostra t (w w' : world) r :
  print t w = (r, w') -> Forall P w -> Forall P w'.
Proof.
  intros [= _ <-] Hw. apply Forall_app. split; [exact Hw |].
  by constructor.
Qed.

Lemma ammesso_mostra f e : effetto_ammesso f e -> P e.
Proof.
  destruct e as [[? ? ? ? ? | ? [] ? ? ? | ? | ?] | t]; simpl; try done.
Qed.

Lemma disegna_risultati_mostra f oggetti et sx sy (w w' : world) r :
  disegna_risultati cv2_raises f oggetti et sx sy w = (r, w') ->
  Forall P w -> Forall P w'.
Proof.
  rewrite disegna_risultati_unfold.
  destruct (ciclo cv2_raises f et sx sy oggetti w) as [[[] | e] w1] eqn:Ec;
    destruct (ciclo_ammesso _ _ _ _ _ _ _ _ _ Ec) as (n & -> & Hf & _).
  - intros [= _ <-] Hw. apply Forall_app. split; [exact Hw |].
    eapply Forall_impl; [exact Hf | apply ammesso_mostra].
  - intros [= _ <-] Hw. apply Forall_app. split; [| by repeat constructor].
    apply Forall_app. split; [exact Hw |].
    eapply Forall_impl; [exact Hf | apply ammesso_mostra].
Qed.

Ltac passo H :=
  let Hm := fresh "Hm" in
  apply bind_inv in H as [(? & H & _) | (? & ? & Hm & H)];
  [first [ eapply cv2_mostra in H; [exact H | simpl; done | eassumption]
         | eapply print_mostra in H; [exact H | eassumption] ]
  | first [ eapply cv2_mostra in Hm; [| simpl; done | eassumption]
          | eapply print_mostra in Hm; [| eassumption] ] ].

Lemma overlay_mostra s i oggetti f (w w' : world) r :
  overlay cv2_raises cfg s i oggetti f w = (r, w') ->
  Forall P w -> Forall P w'.
Proof.
  unfold overlay. intros Ho Hw.
  apply bind_inv in Ho as [(e & Ho & _) | (fps' & w1 & Hm & Ho)].
  { destruct (F64.gtb _ _); by injection Ho as _ <-. }
  assert (Hw1 : Forall P w1).
  { destruct (F64.gtb _ _); by injection Hm as _ <-. }
  clear Hm Hw.
  do 7 (passo Ho).
  by injection Ho as _ <-.
Qed.

Lemma gestione_tasti_mostra s i fps' f (w w' : world) r :
  gestione_tasti cv2_raises s i fps' f w = (r, w') ->
  Forall P w -> Forall P w'.
Proof.
  unfold gestione_tasti. intros Hg Hw.
  destruct (key i =? ord_q).
  { passo Hg. by injection Hg as _ <-. }
  destruct (key i =? ord_s).
  { passo Hg. passo Hg. by injection Hg as _ <-. }
  destruct (key i =? ord_d).
  { passo Hg. by injection Hg as _ <-. }
  by injection Hg as _ <-.
Qed.

Lemma iterazione_mostra s i (w w' : world) r :
  iterazione cv2_raises cfg s i w = (r, w') ->
  Forall P w -> Forall P w'.
Proof.
  unfold iterazione. intros Hi Hw.
  destruct (negb (letto i)).
  { passo Hi. by injection Hi as _ <-. }
  apply bind_inv in Hi as [(e & Hi & _) | (f' & w1 & Hm & Hi)].
  { eapply disegna_risultati_mostra; eassumption. }
  apply (disegna_risultati_mostra _ _ _ _ _ _ _ _ Hm) in Hw.
  apply bind_inv in Hi as [(e & Hi & _) | (fps' & w2 & Hm2 & Hi)].
  { eapply overlay_mostra; eassumption. }
  apply (overlay_mostra _ _ _ _ _ _ _ Hm2) in Hw.
  eapply gestione_tasti_mostra; eassumption.
Qed.

Lemma ciclo_principale_mostra (ingressi : list Ingressi) :
  forall s (w w' : world) r,
  ciclo_principale cv2_raises cfg s ingressi w = (r, w') ->
  Forall P w -> Forall P w'.
Proof.
  induction ingressi as [| i rest IH]; intros s w w' r Hc Hw.
  - by injection Hc as _ <-.
  - simpl in Hc. destruct (negb (aperta i)).
    { by injection Hc as _ <-. }
    apply bind_inv in Hc as [(e & Hi & _) | ([s1 |] & w1 & Hm & Hc)].
    + eapply iterazione_mostra; eassumption.
    + apply (iterazione_mostra _ _ _ _ _ Hm) in Hw. eapply IH; eassumption.
    + apply (iterazione_mostra _ _ _ _ _ Hm) in Hw. by injection Hc as _ <-.
Qed.

End Overlay.

(** X13. The camera is released on every normal return of [main] that
    follows a successful opening, and only there: a run that ends with an
    exception (out of [common.input_size], the prober, the prompt, the
    conversion of the resolution, or the loop) leaves the capture object,
    if it exists by then, unreleased, since no handler or [finally]
    encloses lines 359-489. The windows are destroyed only together with
    the release that follows the loop. *)
Theorem main_release_discipline (amb : Ambiente S) :
  let (r, t) := main cv2_raises int_str amb in
  (rilasciata t = true <->
   r = Ret Terminato /\ camera_aperta amb = true /\ cap t <> None) /\
  (finestre_distrutte t = true -> rilasciata t = true) /\
  (forall e, r = Raise e ->
             rilasciata t = false /\
             (cap t = None -> input_size_modello amb = Raise e)).
Proof.
  unfold main.
  destruct (check_prerequisiti (esiste amb)); simpl negb; cbv iota;
    [| by intuition].
  destruct (Etichette.carica_etichette _); [| by intuition].
  destruct (interprete amb); [by intuition |].
  destruct (input_size_modello amb) as [isz | e0].
  2: { split; [by intuition |]. split; [done |].
       intros e [= ->]. by split. }
  destruct (camera_aperta amb); simpl negb; cbv iota; [| by intuition].
  destruct (trova_risoluzioni_supportate _) as [[l | e] c];
    [| by intuition].
  destruct (fst _); try by intuition.
  destruct (configura _ _ _ _) as [[cfg | e] c1]; [| by intuition].
  destruct (ciclo_principale _ _ _ _ _) as [[s | e] w]; by intuition.
Qed.

(** X14. The capture object is created exactly when the start-up has
    succeeded: both files exist, the label file was read, the
    interpreter was loaded and its input size obtained. When a file is
    missing, the labels cannot be read or loading the interpreter raises,
    [main] returns normally; when [common.input_size] raises, its
    exception leaves [main]. In all these cases neither the camera nor
    the screen was touched. *)
Theorem main_opens_camera_only_when_ready (amb : Ambiente S) :
  let (r, t) := main cv2_raises int_str amb in
  (cap t <> None <->
   esiste amb PATH_MODELLO = true /\ esiste amb PATH_ETICHETTE = true /\
   (exists lines, file_etichette amb = Ret lines) /\
   interprete amb = None /\
   (exists input_size, input_size_modello amb = Ret input_size)) /\
  (cap t = None ->
   mondo t = [] /\ rilasciata t = false /\ finestre_distrutte t = false /\
   (r = Ret Terminato \/
    exists e, r = Raise e /\ input_size_modello amb = Raise e /\
              esiste amb PATH_MODELLO = true /\
              esiste amb PATH_ETICHETTE = true /\
              (exists lines, file_etichette amb = Ret lines) /\
              interprete amb = None)).
Proof.
  unfold main, check_prerequisiti, Etichette.carica_etichette.
  destruct (esiste amb PATH_MODELLO); simpl negb; cbv iota.
  2: { split; [| auto 10]. split; [done |]. by intros (? & _). }
  destruct (esiste amb PATH_ETICHETTE); simpl negb; cbv iota.
  2: { split; [| auto 10]. split; [done |]. by intros (_ & ? & _). }
  destruct (file_etichette amb) as [lines | e].
  2: { split; [| auto 10]. split; [done |]. by intros (_ & _ & [? ?] & _). }
  destruct (interprete amb) as [e |].
  2: destruct (input_size_modello amb) as [isz | e].
  1: { split; [| auto 10]. split; [done |]. by intros (_ & _ & _ & ? & _). }
  2: { split; [| intros _; eauto 20].
       split; [done |]. by intros (_ & _ & _ & _ & [? ?]). }
  assert (Hsi : forall c : S,
             Some c <> None <->
             true = true /\ true = true /\
             (exists l0, @Ret (list string) lines = Ret l0) /\
             @None exn = None /\
             (exists i0, @Ret (Z * Z) isz = Ret i0)).
  { intros c. split; [| done]. intros _. eauto 10. }
  destruct (camera_aperta amb); simpl negb; cbv iota;
    [| split; [apply Hsi | done]].
  destruct (trova_risoluzioni_supportate _) as [[l | e] c];
    [| split; [apply Hsi | done]].
  destruct (fst _); try (split; [apply Hsi | done]).
  destruct (configura _ _ _ _) as [[cfg | e] c1];
    [| split; [apply Hsi | done]].
  destruct (ciclo_principale _ _ _ _ _) as [[s | e] w];
    split; first [apply Hsi | done].
Qed.

(** X15. Every status block drawn during a run of [main] shows the
    resolution that the device reported after the chosen resolution had
    been requested from it, whether or not the device honoured the
    request; the resolution requested is an entry of the list that the
    prober returned. *)
Theorem main_overlay_shows_resolution_in_force (amb : Ambiente S) :
  let (r, t) := main cv2_raises int_str amb in
  mondo t = [] \/
  exists l c1 scelta wh,
    trova_risoluzioni_supportate (camera amb) = (Ret l, c1) /\
    scelta ∈ l /\
    legge (richiede c1 scelta) = Ret wh /\
    cap t = Some (richiede c1 scelta) /\
    Forall (mostra_risoluzione wh) (mondo t).
Proof.
  unfold main.
  destruct (check_prerequisiti (esiste amb)); simpl negb; cbv iota;
    [| by left].
  destruct (Etichette.carica_etichette _) as [et |]; [| by left].
  destruct (interprete amb) as [e |]; [by left |].
  destruct (input_size_modello amb) as [isz | e]; [| by left].
  destruct (camera_aperta amb); simpl negb; cbv iota; [| by left].
  destruct (trova_risoluzioni_supportate _) as [[l | e] c]; [| by left].
  destruct (chiedi_risoluzione_utente int_str l (risposte amb))
    as [[scelta | | e |] rest] eqn:Hc; simpl fst; cbv iota; try by left.
  apply chiedi_scelta_in in Hc.
  rewrite configura_legge.
  destruct (legge (richiede c scelta)) as [[w h] | e] eqn:Hl; [| by left].
  destruct (ciclo_principale _ _ _ _ _) as [[s | e] w'] eqn:Hrun;
    right; exists l, c, scelta, (w, h); simpl;
    (split; [reflexivity |]); (split; [exact Hc |]);
    (split; [exact Hl |]); (split; [reflexivity |]);
    (eapply (ciclo_principale_mostra
               (mkConfig et isz w h (fst (fattori_di_scala w h isz))
                         (snd (fattori_di_scala w h isz))));
     [exact Hrun | constructor]).
Qed.

End Program.

Lemma main_overlay_shows_resolution_in_force_witness :
  let (r, t) := Avvio.main Esempi.opencv_affidabile Selettore.int_decimale
                  Programma.ambiente_esempio in
  Avvio.mondo t <> [] /\
  exists l c1 scelta wh,
    Prober.trova_risoluzioni_supportate
      (Avvio.camera Programma.ambiente_esempio) = (Ret l, c1) /\
    scelta ∈ l /\
    Prober.legge (Prober.richiede c1 scelta) = Ret wh /\
    Avvio.cap t = Some (Prober.richiede c1 scelta) /\
    Forall (Avvio.mostra_risoluzione wh) (Avvio.mondo t).
Proof.
  pose proof (main_overlay_shows_resolution_in_force
                Esempi.opencv_affidabile Selettore.int_decimale
                Programma.ambiente_esempio) as Hx.
  destruct (Avvio.main Esempi.opencv_affidabile Selettore.int_decimale
              Programma.ambiente_esempio) as [r [c w rl fd]] eqn:E.
  assert (Hne : Avvio.mondo (Avvio.mkTraccia c w rl fd) <> []).
  { simpl. intros ->.
    apply (f_equal (fun x => List.length (Avvio.mondo (snd x)))) in E.
    vm_compute in E. discriminate. }
  split; [exact Hne |]. destruct Hx as [Hnil | Hx]; [contradiction | exact Hx].
Defined.

#[local] Set Warnings "-clear-no-such-hyp".

(** ** The set-up script *)

Section SetupScript.

Import Setup.

Variable rete : string -> scaricamento.
Variable pip : outcome string.
Variable makedirs_raises : string -> option exn.

(** The paths that the script builds with [os.path.join] are the two
    constants of the main program. *)
Lemma join_modello :
  join NOME_CARTELLA_MODELLI NOME_FILE_MODELLO = Avvio.PATH_MODELLO.
Proof. reflexivity. Qed.

Lemma join_etichette :
  join NOME_CARTELLA_MODELLI NOME_FILE_ETICHETTE = Avvio.PATH_ETICHETTE.
Proof. reflexivity. Qed.

Lemma percorsi_distinti :
  Avvio.PATH_MODELLO <> Avvio.PATH_ETICHETTE /\
  NOME_CARTELLA_MODELLI <> Avvio.PATH_MODELLO /\
  NOME_CARTELLA_MODELLI <> Avvio.PATH_ETICHETTE.
Proof. repeat split; discriminate. Qed.

Ltac casi_scarica :=
  unfold scarica_file_modello; rewrite join_modello, join_etichette;
  unfold bind, esiste, makedirs, try_except, urlretrieve, bind, ret;
  simpl;
  repeat match goal with
         | |- context [makedirs_raises ?x] =>
             destruct (makedirs_raises x); simpl
         | |- context [rete ?x] => destruct (rete x) as [| ? []]; simpl
         | |- context [bool_decide ?x] => case_bool_decide; simpl
         end.

Lemma scarica_casi (d : Disco) :
  let (r, d') := scarica_file_modello rete makedirs_raises d in
  (r = Ret true ->
   NOME_CARTELLA_MODELLI ∈ presenti d' /\
   Avvio.PATH_MODELLO ∈ presenti d' /\
   Avvio.PATH_ETICHETTE ∈ presenti d') /\
  exists l, azioni d' = azioni d ++ l /\ Pip ∉ l.
Proof.
  destruct percorsi_distinti as (H1 & H2 & H3).
  casi_scarica.
  all: split; [intros Hr; try discriminate Hr; clear Hr; set_solver |].
  all: rewrite <- ?app_assoc; simpl;
    first [ exists []; rewrite app_nil_r; split; [reflexivity |];
            apply not_elem_of_nil
          | eexists; split; [reflexivity |];
            intros Hin;
            repeat (apply elem_of_cons in Hin as [Hin | Hin];
                    [discriminate |]);
            by apply elem_of_nil in Hin ].
Qed.

(** X16. [scarica_file_modello] fetches only what is missing. Whatever
    the network and the file system do, it deletes nothing, it creates
    the directory only if no such path exists, and it downloads a file
    only if no path of that name exists at the start, each of the two at
    most once and from its own URL to the path that the main program
    reads. It never runs the installer. *)
Theorem scarica_file_modello_fetches_only_what_is_missing (d : Disco) :
  let (r, d') := scarica_file_modello rete makedirs_raises d in
  presenti d ⊆ presenti d' /\
  exists l, azioni d' = azioni d ++ l /\ NoDup l /\
    forall a, a ∈ l ->
      match a with
      | Pip => False
      | Makedirs x => x = NOME_CARTELLA_MODELLI /\ (x ∉ presenti d)
      | Urlretrieve url path =>
          (path ∉ presenti d) /\
          ((url, path) = (URL_MODELLO, Avvio.PATH_MODELLO) \/
           (url, path) = (URL_ETICHETTE, Avvio.PATH_ETICHETTE))
      end.
Proof.
  destruct percorsi_distinti as (H1 & H2 & H3).
  casi_scarica.
  all: split; [set_solver |].
  all: rewrite <- ?app_assoc; simpl;
    first [ exists []; rewrite app_nil_r; split; [reflexivity |];
            split; [constructor |]; intros a Ha; by apply elem_of_nil in Ha
          | eexists; split; [reflexivity |] ].
  all: split;
    [ repeat (apply NoDup_cons; split;
              [intros Hin;
               repeat (apply elem_of_cons in Hin as [Hin | Hin];
                       [discriminate |]);
               by apply elem_of_nil in Hin |]);
      apply NoDup_nil; exact I
    | intros a Ha;
      repeat (apply elem_of_cons in Ha as [-> | Ha];
              [simpl; split; first [reflexivity | set_solver | auto] |]);
      by apply elem_of_nil in Ha ].
Qed.

(** X17. A run of the script that reaches its last line leaves the disk
    as the main program needs it: both paths that [check_prerequisiti]
    tests exist, so that check passes. *)
Theorem setup_success_meets_prerequisites (sys : Sys) (d d' : Disco) :
  main rete pip makedirs_raises sys d = (Ret Completato, d') ->
  Avvio.check_prerequisiti (fun p => bool_decide (p ∈ presenti d')) = true.
Proof.
  unfold main. destruct (check_venv sys); unfold negb at 1; cbv iota;
    [| discriminate].
  unfold bind at 1.
  destruct (installa_dipendenze pip d) as [[ok | e] d1]; [| discriminate].
  destruct ok; unfold negb at 1; cbv iota; [| discriminate].
  unfold bind at 1.
  pose proof (scarica_casi d1) as Hs.
  destruct (scarica_file_modello rete makedirs_raises d1) as [[ok | e] d2];
    [| discriminate].
  destruct ok; unfold negb at 1; cbv iota; [| discriminate].
  intros [= <-]. destruct Hs as [Hs _].
  destruct (Hs eq_refl) as (_ & Hm & He).
  unfold Avvio.check_prerequisiti.
  by rewrite !bool_decide_eq_true_2.
Qed.

(** X18. The order of the script. Outside a virtual environment, or
    without [requirements.txt], it exits with status 1 and has done
    nothing. Otherwise the installer is the first thing it runs, it runs
    once, and a directory is created or a file downloaded only after the
    installer has succeeded. A run that does not reach the last line
    exits with status 1, unless an exception escapes. *)
Theorem setup_main_installs_before_it_downloads (sys : Sys) (d : Disco) :
  let (r, d') := main rete pip makedirs_raises sys d in
  (check_venv sys = false \/ NOME_FILE_REQS ∉ presenti d ->
   r = Ret (Exit 1) /\ d' = d) /\
  (check_venv sys = true -> NOME_FILE_REQS ∈ presenti d ->
   exists l, azioni d' = azioni d ++ Pip :: l /\ (Pip ∉ l) /\
             (l <> [] -> exists out, pip = Ret out)) /\
  (forall u, r = Ret u -> u = Completato \/ u = Exit 1).
Proof.
  unfold main. destruct (check_venv sys); unfold negb at 1; cbv iota.
  2: { unfold ret. split; [done |]. split; [done |].
       intros u [= <-]. by right. }
  unfold bind at 1, installa_dipendenze at 1, bind at 1, esiste at 1.
  case_bool_decide as Hreq; unfold negb at 1; cbv iota.
  2: { unfold ret, negb. split; [done |]. split; [done |].
       intros u [= <-]. by right. }
  unfold try_except, bind at 1, subprocess_run.
  assert (Hno : forall (r : outcome uscita) (d' : Disco),
             azioni d' = azioni d ++ [Pip] ->
             (forall out, pip <> Ret out) ->
             (forall u, r = Ret u -> u = Completato \/ u = Exit 1) ->
             (true = false \/ NOME_FILE_REQS ∉ presenti d ->
              r = Ret (Exit 1) /\ d' = d) /\
             (true = true -> NOME_FILE_REQS ∈ presenti d ->
              exists l, azioni d' = azioni d ++ Pip :: l /\ (Pip ∉ l) /\
                        (l <> [] -> exists out, pip = Ret out)) /\
             (forall u, r = Ret u -> u = Completato \/ u = Exit 1)).
  { intros r d' Ha Hp Hu. split; [intros [? | ?]; done |].
    split; [| exact Hu]. intros _ _. exists [].
    split; [exact Ha |]. split; [apply not_elem_of_nil | done]. }
  destruct pip as [out | e] eqn:Hpip.
  2: { assert (Hp : forall out, @Raise string e <> Ret out) by done.
       destruct e as [| | | | tag]; unfold raise, ret;
         try (apply Hno; [done | done | done]).
       - apply Hno; [done | done |]. intros u [= <-]. by right.
       - destruct (String.eqb tag "CalledProcessError"); unfold negb.
         + apply Hno; [done | done |]. intros u [= <-]. by right.
         + apply Hno; [done | done | done]. }
  unfold ret at 1.
  set (d1 := {| presenti := presenti d; azioni := azioni d ++ [Pip] |}).
  unfold negb at 1. cbv iota. unfold bind at 1.
  pose proof (scarica_casi d1) as Hs.
  destruct (scarica_file_modello rete makedirs_raises d1) as [[ok | e] d2].
  - destruct Hs as (_ & l & Hl & Hp).
    destruct ok; unfold negb, ret.
    all: split; [intros [? | ?]; done |]; split;
      [| intros u [= <-]; auto].
    all: intros _ _; exists l; rewrite Hl; simpl; rewrite <- app_assoc;
      eauto.
  - destruct Hs as (_ & l & Hl & Hp).
    split; [intros [? | ?]; done |]. split; [| done].
    intros _ _. exists l. rewrite Hl. simpl. rewrite <- app_assoc.
    eauto.
Qed.

End SetupScript.

(** X19. After [scarica_file_modello] has returned True, a second call
    does nothing, whatever the network and the file system would do: it
    finds the directory and the two files, fetches nothing and returns
    True with the disk as it was. *)
Theorem scarica_file_modello_second_run_is_a_no_op
        (rete rete' : string -> Setup.scaricamento)
        (makedirs_raises makedirs_raises' : string -> option exn)
        (d d' : Setup.Disco) :
  Setup.scarica_file_modello rete makedirs_raises d = (Ret true, d') ->
  Setup.scarica_file_modello rete' makedirs_raises' d' = (Ret true, d').
Proof.
  intros Hrun. pose proof (scarica_casi rete makedirs_raises d) as Hs.
  rewrite Hrun in Hs. destruct Hs as [Hs _].
  destruct (Hs eq_refl) as (Hc & Hm & He).
  unfold Setup.scarica_file_modello.
  rewrite join_modello, join_etichette.
  unfold bind, Setup.esiste.
  rewrite (bool_decide_eq_true_2 _ Hc). simpl.
  rewrite (bool_decide_eq_true_2 _ Hm). simpl.
  rewrite (bool_decide_eq_true_2 _ He). reflexivity.
Qed.

Lemma setup_success_meets_prerequisites_witness :
  exists d',
    Setup.main Setup.rete_buona (Ret EmptyString) (fun _ => None)
      Setup.sys_venv Setup.disco_iniziale = (Ret Setup.Completato, d') /\
    Avvio.check_prerequisiti
      (fun p => bool_decide (p ∈ Setup.presenti d')) = true.
Proof.
  destruct (Setup.main Setup.rete_buona (Ret EmptyString) (fun _ => None)
              Setup.sys_venv Setup.disco_iniziale)
    as [[[| code] | e] d'] eqn:E.
  - exists d'. split; [reflexivity |].
    exact (setup_success_meets_prerequisites _ _ _ _ _ _ E).
  - vm_compute in E. discriminate.
  - vm_compute in E. discriminate.
Defined.

Lemma scarica_file_modello_second_run_is_a_no_op_witness :
  exists d',
    Setup.scarica_file_modello Setup.rete_buona (fun _ => None)
      Setup.disco_iniziale = (Ret true, d') /\
    Setup.scarica_file_modello
      (fun _ => Setup.Fallito (OtherError "URLError") true)
      (fun _ => Some (OtherError "PermissionError")) d' = (Ret true, d').
Proof.
  destruct (Setup.scarica_file_modello Setup.rete_buona (fun _ => None)
              Setup.disco_iniziale) as [[[] | e] d'] eqn:E.
  - exists d'. split; [reflexivity |].
    exact (scarica_file_modello_second_run_is_a_no_op _ _ _ _ _ _ E).
  - vm_compute in E. discriminate.
  - vm_compute in E. discriminate.
Defined.
